(** * document-ocr: cache keys, input classification and the cache-first
      orchestrator

    A shallow embedding of the logic of
      - src/lib/file-utils.ts       (file hash, validators, classifier,
                                     multi-URL detector),
      - src/lib/query-client.ts     (query-key factory, base64 digest),
      - src/unnamed/part_001        (the zod schemas, imported by the other
                                     modules as ./validation-schemas),
      - src/lib/ocr-service.ts      (OCR client adapter),
      - src/hooks/use-ocr.ts        (cache key selection, mutation function).

    Conventions.
      - A JavaScript string is a sequence of UTF-16 code units.  It is
        modelled by [string], each [ascii] standing for one code unit in the
        range U+0000..U+00FF; [String.length] is the JS [length].  Code units
        above U+00FF are outside the model.
      - A JavaScript number that holds an integer is a [Z] (or an [N] when it
        cannot be negative); the 32-bit wrap-around of the bit operators is
        written out with [toInt32].
      - An exception is a value of [Error]; a function that can throw returns
        a [Completion].
      - The cache of the query client is a [gmap] from query keys to results;
        the external OCR endpoint is an oracle, and every request sent to it
        is appended to a log. *)

From Stdlib Require Import ZArith NArith Ascii String List Bool Lia.
From Stdlib.Strings Require Import Byte.
From stdpp Require Import base option list strings gmap.

Local Open Scope string_scope.
Local Open Scope Z_scope.

(** ** JavaScript string primitives *)

Module JS.

Definition code (c : ascii) : N := N_of_ascii c.

Definition in_range (lo hi : N) (c : ascii) : bool :=
  ((lo <=? code c) && (code c <=? hi))%N.

Definition is_upper (c : ascii) : bool := in_range 65 90 c.
Definition is_lower (c : ascii) : bool := in_range 97 122 c.
Definition is_digit (c : ascii) : bool := in_range 48 57 c.
Definition is_alpha (c : ascii) : bool := is_upper c || is_lower c.
Definition is_alnum (c : ascii) : bool := is_alpha c || is_digit c.

(** WhiteSpace and LineTerminator code units below U+0100: TAB, LF, VT, FF,
    CR, SP and NBSP.  This is the set removed by [trim] and matched by the
    regular-expression class [\s]. *)
Definition is_white (c : ascii) : bool :=
  in_range 9 13 c || (code c =? 32)%N || (code c =? 160)%N.

(** Character case conversion of [String.prototype.toLowerCase] on
    U+0000..U+00FF: A-Z and the Latin-1 capitals U+00C0..U+00DE (without the
    multiplication sign U+00D7) move up by 32. *)
Definition lower_char (c : ascii) : ascii :=
  if is_upper c || (in_range 192 222 c && negb (code c =? 215)%N)
  then ascii_of_N (code c + 32) else c.

Fixpoint toLowerCase (s : string) : string :=
  match s with
  | EmptyString => EmptyString
  | String c s' => String (lower_char c) (toLowerCase s')
  end.

Fixpoint trimStart (s : string) : string :=
  match s with
  | EmptyString => EmptyString
  | String c s' => if is_white c then trimStart s' else s
  end.

Fixpoint trimEnd (s : string) : string :=
  match s with
  | EmptyString => EmptyString
  | String c s' =>
      match trimEnd s' with
      | EmptyString => if is_white c then EmptyString else String c EmptyString
      | t => String c t
      end
  end.

Definition trim (s : string) : string := trimEnd (trimStart s).

Fixpoint startsWith (s p : string) : bool :=
  match p, s with
  | EmptyString, _ => true
  | String _ _, EmptyString => false
  | String a p', String b s' => Ascii.eqb a b && startsWith s' p'
  end.

Fixpoint includes (s p : string) : bool :=
  startsWith s p ||
  match s with
  | EmptyString => false
  | String _ s' => includes s' p
  end.

Fixpoint endsWith (s p : string) : bool :=
  match s with
  | EmptyString => String.eqb p EmptyString
  | String _ s' =>
      if (String.length p <? String.length s)%nat then endsWith s' p
      else String.eqb s p
  end.

(** [s.slice(start, end)]; [None] is an omitted [end]. *)
Definition slice (s : string) (start : Z) (end_ : option Z) : string :=
  let len := Z.of_nat (String.length s) in
  let clamp i := if i <? 0 then Z.max (len + i) 0 else Z.min i len in
  let from := clamp start in
  let to := clamp (default len end_) in
  substring (Z.to_nat from) (Z.to_nat (Z.max (to - from) 0)) s.

(** [s.split(sep)] for a one-character separator. *)
Fixpoint split (sep : ascii) (s : string) : list string :=
  match s with
  | EmptyString => [EmptyString]
  | String c s' =>
      if Ascii.eqb c sep then EmptyString :: split sep s'
      else match split sep s' with
           | [] => [String c EmptyString]
           | p :: ps => String c p :: ps
           end
  end.

(** Digits of [Number.prototype.toString(radix)], 2 <= radix <= 36. *)
Definition digit_char (d : N) : ascii :=
  default "0"%char (String.get (N.to_nat d) "0123456789abcdefghijklmnopqrstuvwxyz").

Fixpoint to_digits (fuel : nat) (radix n : N) (acc : string) : string :=
  match fuel with
  | O => acc
  | S fuel' =>
      let acc' := String (digit_char (n mod radix)) acc in
      if (n / radix =? 0)%N then acc' else to_digits fuel' radix (n / radix) acc'
  end.

(** [n.toString(radix)] for a non-negative integer [n] (below 10^21 for
    radix 10, where JavaScript switches to exponent notation).  A number
    below [2 ^ (log2 n + 1)] has at most [log2 n + 1] digits in any
    radix >= 2. *)
Definition toString (radix n : N) : string :=
  to_digits (S (N.to_nat (N.log2 n))) radix n EmptyString.

(** [ToInt32]: reduction to the signed 32-bit range. *)
Definition toInt32 (z : Z) : Z := (z + 2 ^ 31) mod 2 ^ 32 - 2 ^ 31.

(** [a << k] and [a & b] on numbers. *)
Definition shl (a k : Z) : Z := toInt32 (Z.shiftl (toInt32 a) (k mod 32)).
Definition band (a b : Z) : Z := toInt32 (Z.land (toInt32 a) (toInt32 b)).

End JS.

(** ** Regular expressions

    The regular expressions of the sources are interpreted by a backtracking
    matcher with the priorities of the ECMAScript pattern semantics: an
    alternative tries its left branch first, a quantifier is greedy, and an
    iteration of [*] that consumes nothing is rejected.  The matcher is
    written in continuation-passing style; the continuation receives the
    captures, the code unit just before the current position (for [\b] and
    [^]) and the rest of the input. *)

Module RegExp.
Import JS.

Inductive regex : Type :=
| Eps                              (* the empty pattern *)
| Chr (p : ascii -> bool)          (* one code unit of a class *)
| Seq (r1 r2 : regex)              (* r1 r2 *)
| Alt (r1 r2 : regex)              (* r1|r2 *)
| Star (r : regex)                 (* r*, greedy *)
| Group (i : nat) (r : regex)      (* capturing group number i *)
| WordB                            (* \b *)
| Bol                              (* ^, without the m flag *)
| Eol.                             (* $, without the m flag *)

Definition captures : Type := list (nat * string).

Record match_result : Type := MatchResult {
  matched : string;      (* match[0] *)
  groups : captures;
  rest : string          (* the input after the match *)
}.

(** Word characters of [\b]: [A-Za-z0-9_]. *)
Definition is_word (c : ascii) : bool := is_alnum c || (code c =? 95)%N.

Definition word_at (o : option ascii) : bool :=
  match o with Some c => is_word c | None => false end.

Definition head (s : string) : option ascii :=
  match s with String c _ => Some c | EmptyString => None end.

(** The text between position [s] and the later position [s']. *)
Definition consumed (s s' : string) : string :=
  substring 0 (String.length s - String.length s') s.

(** The continuation of a match: captures, previous code unit, rest. *)
Definition cont (A : Type) : Type := captures -> option ascii -> string -> option A.

(** The iterations of [r*] over a matcher [body] for [r].  An iteration is
    accepted when it consumes at least one code unit, so [String.length s]
    units of fuel are never used up. *)
Fixpoint star_iter {A : Type}
    (body : captures -> option ascii -> string -> cont A -> option A)
    (fuel : nat) (cs : captures) (prev : option ascii) (s : string)
    (k : cont A) {struct fuel} : option A :=
  match fuel with
  | O => k cs prev s
  | S fuel' =>
      match body cs prev s
              (fun cs' prev' s' =>
                 if (String.length s' <? String.length s)%nat
                 then star_iter body fuel' cs' prev' s' k else None) with
      | Some a => Some a
      | None => k cs prev s
      end
  end.

Fixpoint run {A : Type} (r : regex) (cs : captures) (prev : option ascii)
    (s : string) (k : cont A) {struct r} : option A :=
  match r with
  | Eps => k cs prev s
  | Chr p =>
      match s with
      | String c s' => if p c then k cs (Some c) s' else None
      | EmptyString => None
      end
  | Seq r1 r2 => run r1 cs prev s (fun cs' prev' s' => run r2 cs' prev' s' k)
  | Alt r1 r2 =>
      match run r1 cs prev s k with
      | Some a => Some a
      | None => run r2 cs prev s k
      end
  | Star r0 => star_iter (run r0) (String.length s) cs prev s k
  | Group i r0 =>
      run r0 cs prev s (fun cs' prev' s' => k ((i, consumed s s') :: cs') prev' s')
  | WordB => if xorb (word_at prev) (word_at (head s)) then k cs prev s else None
  | Bol => match prev with None => k cs prev s | Some _ => None end
  | Eol => match s with EmptyString => k cs prev s | String _ _ => None end
  end.

(** One match attempt at the current position. *)
Definition exec_at (r : regex) (prev : option ascii) (s : string)
    : option match_result :=
  run r [] prev s (fun cs _ s' => Some (MatchResult (consumed s s') cs s')).

(** [RegExp.prototype.exec] without the g flag: the first position at which
    the pattern matches. *)
Fixpoint search (r : regex) (prev : option ascii) (s : string)
    : option match_result :=
  match exec_at r prev s with
  | Some m => Some m
  | None =>
      match s with
      | EmptyString => None
      | String c s' => search r (Some c) s'
      end
  end.

Definition exec (r : regex) (s : string) : option match_result :=
  search r None s.

Definition test (r : regex) (s : string) : bool := bool_decide (is_Some (exec r s)).

(** Capture [i] of a match ([None] is [undefined]). *)
Definition group (i : nat) (m : match_result) : option string :=
  snd <$> List.find (fun c => Nat.eqb (fst c) i) (groups m).

(** A left-to-right scan with the g flag cuts the input into the code units
    no match covers and the matches.  [skip] counts the code units of the
    current match that are still to be passed over. *)
Inductive segment : Type :=
| Kept (c : ascii)
| Matched (m : string).

Fixpoint scan (r : regex) (prev : option ascii) (s : string) (skip : nat)
    : list segment :=
  match s with
  | EmptyString =>
      match skip, exec_at r prev EmptyString with
      | O, Some _ => [Matched EmptyString]
      | _, _ => []
      end
  | String c s' =>
      match skip with
      | S n => scan r (Some c) s' n
      | O =>
          match exec_at r prev s with
          | None => Kept c :: scan r (Some c) s' 0
          | Some m =>
              match String.length (matched m) with
              | O => Matched EmptyString :: Kept c :: scan r (Some c) s' 0
              | S n => Matched (matched m) :: scan r (Some c) s' n
              end
          end
      end
  end.

Fixpoint matches_of (l : list segment) : list string :=
  match l with
  | [] => []
  | Kept _ :: l' => matches_of l'
  | Matched m :: l' => m :: matches_of l'
  end.

Fixpoint kept_of (l : list segment) : string :=
  match l with
  | [] => EmptyString
  | Kept c :: l' => String c (kept_of l')
  | Matched _ :: l' => kept_of l'
  end.

Definition text_of (g : segment) : string :=
  match g with Kept c => String c EmptyString | Matched m => m end.

(** [s.match(r) || []] for a pattern with the g flag. *)
Definition matchAll (r : regex) (s : string) : list string :=
  matches_of (scan r None s 0).

(** [s.replace(r, '')] for a pattern with the g flag. *)
Definition removeAll (r : regex) (s : string) : string :=
  kept_of (scan r None s 0).

(** *** Pattern builders *)

Definition chr (c : ascii) : regex := Chr (Ascii.eqb c).

(** A letter under the i flag. *)
Definition chr_i (c : ascii) : regex :=
  Chr (fun x => Ascii.eqb (lower_char c) (lower_char x) && is_alpha x).

Fixpoint lit (s : string) : regex :=
  match s with
  | EmptyString => Eps
  | String c EmptyString => chr c
  | String c s' => Seq (chr c) (lit s')
  end.

(** A run of ASCII letters under the i flag. *)
Fixpoint lit_i (s : string) : regex :=
  match s with
  | EmptyString => Eps
  | String c EmptyString => chr_i c
  | String c s' => Seq (chr_i c) (lit_i s')
  end.

Definition opt (r : regex) : regex := Alt r Eps.          (* r? *)
Definition plus (r : regex) : regex := Seq r (Star r).     (* r+ *)
Definition two_or_more (r : regex) : regex := Seq r (Seq r (Star r)). (* r{2,} *)

Fixpoint alts (l : list regex) : regex :=
  match l with
  | [] => Chr (fun _ => false)
  | [r] => r
  | r :: l' => Alt r (alts l')
  end.

Fixpoint seqs (l : list regex) : regex :=
  match l with
  | [] => Eps
  | [r] => r
  | r :: l' => Seq r (seqs l')
  end.

End RegExp.

(** ** Platform objects *)

(** A [File]: its name, declared media type, modification time and bytes.
    [size] is the number of bytes, as for every [Blob]. *)
Module File.

Record t : Type := make {
  name : string;
  type : string;
  lastModified : Z;
  content : list byte
}.

Definition size (f : t) : N := N.of_nat (List.length (content f)).

(** [file.slice(0, n).arrayBuffer()] viewed as a [Uint8Array]. *)
Definition slice0 (f : t) (n : N) : list byte := firstn (N.to_nat n) (content f).

End File.

(** The [URL] constructor.  Following the URL Standard's basic URL parser
    (with no base URL), the input is stripped of leading and trailing C0
    control or space, all TAB, LF and CR are removed, and the scheme start
    and scheme states read an ASCII letter followed by letters, digits, [+],
    [-] and [.], up to a colon; anything else is a failure.  What the parser
    does after the scheme (authority, host, port, path, query, fragment) is
    left to the platform: [parses_after_scheme scheme rest] tells whether
    these states complete without failure. *)
Class Platform : Type := {
  parses_after_scheme : string -> string -> bool
}.

Module URL.
Import JS.

Definition is_c0_or_space (c : ascii) : bool := (code c <=? 32)%N.

Definition is_tab_or_newline (c : ascii) : bool :=
  (code c =? 9)%N || (code c =? 10)%N || (code c =? 13)%N.

Fixpoint strip_start (s : string) : string :=
  match s with
  | EmptyString => EmptyString
  | String c s' => if is_c0_or_space c then strip_start s' else s
  end.

Fixpoint strip_end (s : string) : string :=
  match s with
  | EmptyString => EmptyString
  | String c s' =>
      match strip_end s' with
      | EmptyString => if is_c0_or_space c then EmptyString else String c EmptyString
      | t => String c t
      end
  end.

Fixpoint remove_tab_newline (s : string) : string :=
  match s with
  | EmptyString => EmptyString
  | String c s' =>
      if is_tab_or_newline c then remove_tab_newline s'
      else String c (remove_tab_newline s')
  end.

Definition is_scheme_char (c : ascii) : bool :=
  is_alnum c || (code c =? 43)%N || (code c =? 45)%N || (code c =? 46)%N.

(** Scheme state: the lower-cased scheme and the input after the colon. *)
Fixpoint scheme_state (s : string) : option (string * string) :=
  match s with
  | EmptyString => None
  | String c s' =>
      if (code c =? 58)%N then Some (EmptyString, s')
      else if is_scheme_char c then
        match scheme_state s' with
        | Some (buffer, rest) => Some (String (lower_char c) buffer, rest)
        | None => None
        end
      else None
  end.

(** Scheme start state. *)
Definition scheme_start_state (s : string) : option (string * string) :=
  match s with
  | String c _ => if is_alpha c then scheme_state s else None
  | EmptyString => None
  end.

(** [new URL(input).protocol]; [None] when the constructor throws. *)
Definition protocol `{Platform} (input : string) : option string :=
  match scheme_start_state (remove_tab_newline (strip_end (strip_start input))) with
  | Some (scheme, rest) =>
      if parses_after_scheme scheme rest then Some (scheme +:+ ":") else None
  | None => None
  end.

End URL.

(** ** validation-schemas.ts (src/unnamed/part_001)

    A zod schema is modelled by the boolean [safeParse(x).success]: every
    check and refinement of the chain is evaluated and the value is accepted
    when all of them pass. *)

Import JS.

Definition VALID_IMAGE_TYPES : list string :=
  ["image/png"; "image/jpeg"; "image/jpg"; "image/avif"; "image/webp"; "image/gif"].

Definition VALID_IMAGE_EXTENSIONS : list string :=
  [".png"; ".jpg"; ".jpeg"; ".avif"; ".webp"; ".gif"].

Definition PDF_EXTENSION : string := ".pdf".

Definition MAX_FILE_SIZE : N := 10 * 1024 * 1024.

Definition pdfFileSchema (file : File.t) : bool :=
  (0 <? File.size file)%N
  && (File.size file <=? MAX_FILE_SIZE)%N
  && (String.eqb (File.type file) "application/pdf"
      || endsWith (toLowerCase (File.name file)) PDF_EXTENSION).

Definition imageFileSchema (file : File.t) : bool :=
  (0 <? File.size file)%N
  && (File.size file <=? MAX_FILE_SIZE)%N
  && (existsb (String.eqb (File.type file)) VALID_IMAGE_TYPES
      || existsb (fun ext => endsWith (toLowerCase (File.name file)) ext)
           VALID_IMAGE_EXTENSIONS).

(** [z.string().url()] accepts what the [URL] constructor accepts; the
    refinement catches the exception of the constructor. *)
Definition urlSchema `{Platform} (url : string) : bool :=
  bool_decide (is_Some (URL.protocol url))
  && match URL.protocol url with
     | Some protocol => String.eqb protocol "http:" || String.eqb protocol "https:"
     | None => false
     end.

Definition pdfUrlSchema `{Platform} (url : string) : bool :=
  urlSchema url
  && (let urlLower := toLowerCase url in
      endsWith urlLower PDF_EXTENSION || includes urlLower ".pdf?").

Definition imageUrlSchema `{Platform} (url : string) : bool :=
  urlSchema url
  && (let urlLower := toLowerCase url in
      existsb (fun ext => endsWith urlLower ext || includes urlLower (ext +:+ "?"))
        VALID_IMAGE_EXTENSIONS).

Definition is_base64_char (c : ascii) : bool :=
  is_alnum c || (code c =? 43)%N || (code c =? 47)%N.

(** [/^[A-Za-z0-9+/]+=*$/] *)
Definition base64_re : RegExp.regex :=
  RegExp.seqs [RegExp.Bol; RegExp.plus (RegExp.Chr is_base64_char);
               RegExp.Star (RegExp.chr "="); RegExp.Eol].

Definition base64Schema (data : string) : bool :=
  (50 <=? String.length data)%nat && RegExp.test base64_re data.

Definition pdfBase64Schema (data : string) : bool :=
  base64Schema data && startsWith data "JVBERi0".

Definition imageBase64Schema (data : string) : bool :=
  base64Schema data
  && (startsWith data "iVBORw0KGgo" || startsWith data "/9j/" || startsWith data "R0lGOD").

(** [.] matches every code unit but a line terminator. *)
Definition is_dot (c : ascii) : bool := negb ((code c =? 10)%N || (code c =? 13)%N).

(** [/^data:([^;]+);base64,(.+)$/] *)
Definition data_url_re : RegExp.regex :=
  RegExp.seqs [RegExp.Bol; RegExp.lit "data:";
               RegExp.Group 1 (RegExp.plus (RegExp.Chr (fun c => negb (Ascii.eqb c ";"))));
               RegExp.lit ";base64,";
               RegExp.Group 2 (RegExp.plus (RegExp.Chr is_dot)); RegExp.Eol].

Definition dataUrlSchema (s : string) : bool := RegExp.test data_url_re s.

Definition apiKeySchema (key : string) : bool :=
  (10 <=? String.length key)%nat && (0 <? String.length (trim key))%nat.

(** ** query-client.ts *)

(** An element of a query key: a string or a number. *)
Inductive KeyPart : Type :=
| KStr (s : string)
| KNum (n : Z).

#[global] Instance KeyPart_eq_dec : EqDecision KeyPart.
Proof. solve_decision. Defined.

#[global] Instance KeyPart_countable : Countable KeyPart.
Proof.
  refine (inj_countable'
            (fun p => match p with KStr s => inl s | KNum n => inr n end)
            (fun x => match x with inl s => KStr s | inr n => KNum n end) _).
  intros []; reflexivity.
Defined.

Module ocrKeys.

Definition all : list KeyPart := [KStr "ocr"].

Definition results : list KeyPart := all ++ [KStr "results"].
Definition result (id : string) : list KeyPart := results ++ [KStr id].

Definition urlDocument (url : string) : list KeyPart :=
  all ++ [KStr "url-document"; KStr url].
Definition urlImage (url : string) : list KeyPart :=
  all ++ [KStr "url-image"; KStr url].
Definition base64Document (hash : string) : list KeyPart :=
  all ++ [KStr "base64-document"; KStr hash].
Definition base64Image (hash : string) : list KeyPart :=
  all ++ [KStr "base64-image"; KStr hash].
Definition fileDocument (name : string) (size : N) (lastModified : Z) : list KeyPart :=
  all ++ [KStr "file-document"; KStr name; KNum (Z.of_N size); KNum lastModified].
Definition fileImage (name : string) (size : N) (lastModified : Z) : list KeyPart :=
  all ++ [KStr "file-image"; KStr name; KNum (Z.of_N size); KNum lastModified].

End ocrKeys.

Definition generateBase64Hash (base64 : string) : string :=
  let length := String.length base64 in
  if (length <? 40)%nat then base64
  else slice base64 0 (Some 20) +:+ "-" +:+ toString 10 (N.of_nat length)
       +:+ "-" +:+ slice base64 (-20) None.

(** ** file-utils.ts *)

Definition base64_alphabet : string :=
  "ABCDEFGHIJKLMNOPQRSTUVWXYZabcdefghijklmnopqrstuvwxyz0123456789+/".

Definition base64_digit (n : N) : ascii :=
  default "A"%char (String.get (N.to_nat (n mod 64)) base64_alphabet).

(** The base64 encoding that [FileReader.readAsDataURL] applies to the bytes. *)
Fixpoint base64_encode (bs : list byte) : string :=
  match bs with
  | [] => EmptyString
  | [a] =>
      let n := (Byte.to_N a * 65536)%N in
      String (base64_digit (n / 262144)) (String (base64_digit (n / 4096)) "==")
  | [a; b] =>
      let n := (Byte.to_N a * 65536 + Byte.to_N b * 256)%N in
      String (base64_digit (n / 262144)) (String (base64_digit (n / 4096))
        (String (base64_digit (n / 64)) "="))
  | a :: b :: c :: bs' =>
      let n := (Byte.to_N a * 65536 + Byte.to_N b * 256 + Byte.to_N c)%N in
      String (base64_digit (n / 262144)) (String (base64_digit (n / 4096))
        (String (base64_digit (n / 64)) (String (base64_digit n) (base64_encode bs'))))
  end.

(** [reader.result] after [readAsDataURL(file)]. *)
Definition readAsDataURL (file : File.t) : string :=
  "data:" +:+ File.type file +:+ ";base64," +:+ base64_encode (File.content file).

(** The promise resolves with [base64String.split(',')[1]]; [None] stands
    for [undefined].  The file is a value here, so the read never fails and
    the promise is never rejected. *)
Definition fileToBase64 (file : File.t) : option string :=
  split "," (readAsDataURL file) !! 1%nat.

Definition SAMPLE_SIZE : N := 8192.

(** One round of the loop of [generateFileHash]:
    [hash = ((hash << 5) - hash) + bytes[i]; hash = hash & hash]. *)
Definition hash_step (hash : Z) (b : byte) : Z :=
  let hash := (shl hash 5 - hash) + Z.of_N (Byte.to_N b) in
  band hash hash.

Definition sample_hash (bytes : list byte) : Z := fold_left hash_step bytes 0.

Definition generateFileHash (file : File.t) : string :=
  let bytes := File.slice0 file (N.min SAMPLE_SIZE (File.size file)) in
  let hash := sample_hash bytes in
  File.name file +:+ "-" +:+ toString 10 (File.size file)
  +:+ "-" +:+ toString 36 (Z.to_N (Z.abs hash)).

Definition getMimeType (file : File.t) : string :=
  if String.eqb (File.type file) EmptyString then "application/octet-stream"
  else File.type file.

Definition isValidPdfFile (file : File.t) : bool := pdfFileSchema file.
Definition isValidImageFile (file : File.t) : bool := imageFileSchema file.
Definition validateUrl `{Platform} (url : string) : bool := urlSchema url.
Definition isDataUrl (url : string) : bool := dataUrlSchema url.

Record Base64Parts : Type := { base64 : string; mimeType : string }.

Definition extractBase64FromDataUrl (dataUrl : string) : option Base64Parts :=
  if negb (dataUrlSchema dataUrl) then None
  else
    match RegExp.exec data_url_re dataUrl with
    | Some m =>
        match RegExp.group 1 m, RegExp.group 2 m with
        | Some g1, Some g2 => Some {| mimeType := g1; base64 := g2 |}
        | _, _ => None
        end
    | None => None
    end.

Inductive InputType : Type := InputUrl | InputBase64 | InputUnknown.
Inductive ContentType : Type := ContentPdf | ContentImage | ContentUnknown.

Record DetectedInput : Type := {
  inputType : InputType;
  contentType : ContentType;
  value : string
}.

(** [[^\s,;]] *)
Definition is_url_char (c : ascii) : bool :=
  negb (is_white c || (code c =? 44)%N || (code c =? 59)%N).

(** [[a-z0-9-]] under the i flag. *)
Definition is_label_char (c : ascii) : bool := is_alnum c || (code c =? 45)%N.

(** [[a-z0-9]([a-z0-9-]*[a-z0-9])?] under the i flag. *)
Definition label_re : RegExp.regex :=
  RegExp.Seq (RegExp.Chr is_alnum)
    (RegExp.opt (RegExp.Seq (RegExp.Star (RegExp.Chr is_label_char)) (RegExp.Chr is_alnum))).

(** [/https?:\/\/[^\s,;]+/gi] *)
Definition fullUrlPattern : RegExp.regex :=
  RegExp.seqs [RegExp.lit_i "http"; RegExp.opt (RegExp.chr_i "s"); RegExp.lit "://";
               RegExp.plus (RegExp.Chr is_url_char)].

(** [/\bwww\.[a-z0-9]([a-z0-9-]*[a-z0-9])?(\.[a-z0-9]([a-z0-9-]*[a-z0-9])?)*\.[a-z]{2,}[^\s,;]*/gi] *)
Definition wwwPattern : RegExp.regex :=
  RegExp.seqs [RegExp.WordB; RegExp.lit_i "www"; RegExp.chr "."; label_re;
               RegExp.Star (RegExp.Seq (RegExp.chr ".") label_re);
               RegExp.chr "."; RegExp.two_or_more (RegExp.Chr is_alpha);
               RegExp.Star (RegExp.Chr is_url_char)].

(** [(png|jpe?g|avif|webp|gif)] under the i flag. *)
Definition image_ext_re : list RegExp.regex :=
  [RegExp.lit_i "png";
   RegExp.seqs [RegExp.lit_i "jp"; RegExp.opt (RegExp.chr_i "e"); RegExp.chr_i "g"];
   RegExp.lit_i "avif"; RegExp.lit_i "webp"; RegExp.lit_i "gif"].

(** [/\b([a-z0-9]([a-z0-9-]*[a-z0-9])?\.)+[a-z]{2,}\/[^\s,;]+\.(pdf|png|jpe?g|avif|webp|gif)\b/gi] *)
Definition domainPattern : RegExp.regex :=
  RegExp.seqs [RegExp.WordB; RegExp.plus (RegExp.Seq label_re (RegExp.chr "."));
               RegExp.two_or_more (RegExp.Chr is_alpha); RegExp.chr "/";
               RegExp.plus (RegExp.Chr is_url_char); RegExp.chr ".";
               RegExp.alts (RegExp.lit_i "pdf" :: image_ext_re); RegExp.WordB].

Definition hasMultipleUrls (input : string) : bool :=
  let fullUrlMatches := RegExp.matchAll fullUrlPattern input in
  let remainingInput := RegExp.removeAll fullUrlPattern input in
  let wwwMatches := RegExp.matchAll wwwPattern remainingInput in
  let remainingInput := RegExp.removeAll wwwPattern remainingInput in
  let domainMatches := RegExp.matchAll domainPattern remainingInput in
  let totalMatches :=
    (List.length fullUrlMatches + List.length wwwMatches + List.length domainMatches)%nat in
  (1 <? totalMatches)%nat.

(** [/\.(png|jpe?g|avif|webp|gif)(\?|$)/i] *)
Definition image_url_re : RegExp.regex :=
  RegExp.seqs [RegExp.chr "."; RegExp.alts image_ext_re;
               RegExp.Alt (RegExp.chr "?") RegExp.Eol].

Definition detectInputType `{Platform} (input : string) : DetectedInput :=
  let trimmedInput := trim input in
  if validateUrl trimmedInput then
    let urlLower := toLowerCase trimmedInput in
    if endsWith urlLower ".pdf" || includes urlLower ".pdf?" then
      {| inputType := InputUrl; contentType := ContentPdf; value := trimmedInput |}
    else if RegExp.test image_url_re urlLower then
      {| inputType := InputUrl; contentType := ContentImage; value := trimmedInput |}
    else
      {| inputType := InputUrl; contentType := ContentUnknown; value := trimmedInput |}
  else
    match (if isDataUrl trimmedInput then extractBase64FromDataUrl trimmedInput
           else None) with
    | Some extracted =>
        let contentType :=
          if startsWith (mimeType extracted) "image/" then ContentImage
          else if String.eqb (mimeType extracted) "application/pdf" then ContentPdf
          else ContentUnknown in
        {| inputType := InputBase64; contentType := contentType;
           value := base64 extracted |}
    | None =>
        if (50 <? String.length trimmedInput)%nat && RegExp.test base64_re trimmedInput then
          if startsWith trimmedInput "JVBERi0" then
            {| inputType := InputBase64; contentType := ContentPdf; value := trimmedInput |}
          else if startsWith trimmedInput "iVBORw0KGgo"
                  || startsWith trimmedInput "/9j/"
                  || startsWith trimmedInput "R0lGOD" then
            {| inputType := InputBase64; contentType := ContentImage; value := trimmedInput |}
          else
            {| inputType := InputBase64; contentType := ContentUnknown; value := trimmedInput |}
        else
          {| inputType := InputUnknown; contentType := ContentUnknown; value := trimmedInput |}
    end.

(** ** The external OCR endpoint and the query cache *)

(** An image object of the SDK; the code only moves these around. *)
Record OCRImageObject : Type := { id : string; imageBase64 : option string }.

Module Page.
Record t : Type := { markdown : string; images : option (list OCRImageObject) }.
End Page.

Module OCRResponse.
Record t : Type := { pages : option (list Page.t); model : string }.
End OCRResponse.

Module OCRResult.
Record t : Type := {
  text : string;
  pages : option Z;
  processingTime : Z;
  images : list OCRImageObject
}.
End OCRResult.

Inductive Document : Type :=
| document_url (documentUrl : string)
| image_url (imageUrl : string).

Record OCRRequest : Type := {
  model : string;
  document : Document;
  includeImageBase64 : bool
}.

(** The outcome of [await client.ocr.process(request)]: a response, together
    with the milliseconds [Date.now()] advanced by during the call, or a
    rejection. *)
Inductive Reply : Type :=
| Resolved (response : OCRResponse.t) (elapsed : Z)
| Rejected (reason : string).

(** The SDK client built from an API key. *)
Class OCRClient : Type := {
  ocr_process : string -> OCRRequest -> Reply
}.

Inductive Error : Type :=
| ZodError (message : string)      (* thrown by [schema.parse] *)
| ExternalCallError (reason : string).   (* rejection of the OCR call *)

Inductive Completion (A : Type) : Type :=
| Return (a : A)
| Throw (e : Error).
Arguments Return {A} a.
Arguments Throw {A} e.

(** The state an invocation works on: the query cache and the log of the
    requests sent to the endpoint. *)
Record World : Type := {
  cache : gmap (list KeyPart) OCRResult.t;
  calls : list OCRRequest
}.

(** State and exceptions. *)
Definition M (A : Type) : Type := World -> Completion A * World.

Definition ret {A : Type} (a : A) : M A := fun w => (Return a, w).
Definition throw {A : Type} (e : Error) : M A := fun w => (Throw e, w).
Definition bind {A B : Type} (m : M A) (f : A -> M B) : M B :=
  fun w => match m w with
           | (Return a, w') => f a w'
           | (Throw e, w') => (Throw e, w')
           end.

Declare Scope ocr_scope.
Delimit Scope ocr_scope with ocr.
Notation "x <- m ;; k" := (bind m (fun x => k))
  (at level 100, m at next level, right associativity) : ocr_scope.
Notation "m ;;; k" := (bind m (fun _ => k))
  (at level 100, right associativity) : ocr_scope.
Local Open Scope ocr_scope.

(** [queryClient.getQueryData(key)]; [None] is [undefined]. *)
Definition getQueryData (key : list KeyPart) : M (option OCRResult.t) :=
  fun w => (Return (cache w !! key), w).

(** [queryClient.setQueryData(key, data)]. *)
Definition setQueryData (key : list KeyPart) (data : OCRResult.t) : M unit :=
  fun w => (Return tt, {| cache := <[key := data]> (cache w); calls := calls w |}).

(** [await this.client.ocr.process(request)]: the request is logged and the
    reply of the endpoint is delivered, a rejection as an exception. *)
Definition process_request `{OCRClient} (apiKey : string) (request : OCRRequest)
    : M (OCRResponse.t * Z) :=
  fun w =>
    let w' := {| cache := cache w; calls := (calls w ++ [request])%list |} in
    match ocr_process apiKey request with
    | Resolved response elapsed => (Return (response, elapsed), w')
    | Rejected reason => (Throw (ExternalCallError reason), w')
    end.

(** ** ocr-service.ts *)

Definition ocrResultSchema (result : OCRResult.t) : bool :=
  match OCRResult.pages result with
  | Some n => 0 <? n
  | None => true
  end
  && (0 <? OCRResult.processingTime result).

Definition parse_result (result : OCRResult.t) : M OCRResult.t :=
  if ocrResultSchema result then ret result
  else throw (ZodError "invalid OCR result").

Record OCROptions : Type := { opt_includeImageBase64 : option bool }.

Definition no_options : OCROptions := {| opt_includeImageBase64 := None |}.

Module OCRService.

Definition LF : string := String (ascii_of_N 10) EmptyString.

(** ['\n\n---\n\n'] *)
Definition divider : string := LF +:+ LF +:+ "---" +:+ LF +:+ LF.

Definition nonblank (s : string) : bool := (0 <? String.length (trim s))%nat.

Definition extractText (response : OCRResponse.t) : string :=
  match OCRResponse.pages response with
  | None | Some [] => "No text extracted from document"
  | Some pages =>
      let extractedText :=
        String.concat divider
          (List.filter nonblank
             (List.map (fun page =>
                          if negb (String.eqb (Page.markdown page) EmptyString)
                             && nonblank (Page.markdown page)
                          then Page.markdown page else EmptyString) pages)) in
      if nonblank extractedText then extractedText
      else "No text found in document pages"
  end.

Definition extractImages (response : OCRResponse.t) : list OCRImageObject :=
  match OCRResponse.pages response with
  | None => []
  | Some pages =>
      List.fold_left (fun allImages page =>
                        match Page.images page with
                        | Some images => (allImages ++ images)%list
                        | None => allImages
                        end) pages []
  end.

(** The service object holds the client, which is determined by the
    validated key. *)
Record t : Type := { client : string }.

Definition new (apiKey : string) : M t :=
  if apiKeySchema apiKey then ret {| client := apiKey |}
  else throw (ZodError "invalid API key").

(** The part the four entry points share: send the request, time it,
    normalise the response and check the result. *)
Definition submit `{OCRClient} (this : t) (doc : Document) (options : OCROptions)
    : M OCRResult.t :=
  reply <- process_request (client this)
             {| model := "mistral-ocr-latest"; document := doc;
                includeImageBase64 := default true (opt_includeImageBase64 options) |} ;;
  let '(response, processingTime) := reply in
  parse_result
    {| OCRResult.text := extractText response;
       OCRResult.pages := (fun l => Z.of_nat (List.length l)) <$> OCRResponse.pages response;
       OCRResult.processingTime := processingTime;
       OCRResult.images := extractImages response |}.

Definition processDocumentUrl `{Platform} `{OCRClient} (this : t)
    (documentUrl : string) (options : OCROptions) : M OCRResult.t :=
  if pdfUrlSchema documentUrl then submit this (document_url documentUrl) options
  else throw (ZodError "URL must point to a PDF file (.pdf extension required)").

Definition processImageUrl `{Platform} `{OCRClient} (this : t)
    (imageUrl : string) (options : OCROptions) : M OCRResult.t :=
  if imageUrlSchema imageUrl then submit this (image_url imageUrl) options
  else throw (ZodError "URL must point to an image file").

Definition processBase64Document `{OCRClient} (this : t)
    (base64Data mimeType : string) (options : OCROptions) : M OCRResult.t :=
  if base64Schema base64Data then
    submit this (document_url ("data:" +:+ mimeType +:+ ";base64," +:+ base64Data)) options
  else throw (ZodError "Invalid base64 format").

Definition processBase64Image `{OCRClient} (this : t)
    (base64Data mimeType : string) (options : OCROptions) : M OCRResult.t :=
  if base64Schema base64Data then
    submit this (image_url ("data:" +:+ mimeType +:+ ";base64," +:+ base64Data)) options
  else throw (ZodError "Invalid base64 format").

End OCRService.

(** ** use-ocr.ts *)

Inductive OCRInputType : Type :=
| UrlDocument (url : string)
| UrlImage (url : string)
| Base64Document (base64 mimeType : string)
| Base64Image (base64 mimeType : string)
| FileInput (file : File.t).

Definition getCacheKey (input : OCRInputType) : list KeyPart :=
  match input with
  | UrlDocument url => ocrKeys.urlDocument url
  | UrlImage url => ocrKeys.urlImage url
  | Base64Document base64 _ => ocrKeys.base64Document (generateBase64Hash base64)
  | Base64Image base64 _ => ocrKeys.base64Image (generateBase64Hash base64)
  | FileInput file =>
      let fileHash := generateFileHash file in
      if isValidPdfFile file
      then ocrKeys.fileDocument fileHash (File.size file) 0
      else ocrKeys.fileImage fileHash (File.size file) 0
  end.

(** The [mutationFn] of [useOCRMutation]: the operation [process] of the
    orchestrator. *)
Definition mutationFn `{Platform} `{OCRClient} (apiKey : string) (input : OCRInputType)
    : M OCRResult.t :=
  let cacheKey := getCacheKey input in
  cachedData <- getQueryData cacheKey ;;
  match cachedData with
  | Some cachedData => ret cachedData
  | None =>
      ocrService <- OCRService.new apiKey ;;
      result <-
        match input with
        | UrlDocument url => OCRService.processDocumentUrl ocrService url no_options
        | UrlImage url => OCRService.processImageUrl ocrService url no_options
        | Base64Document base64 mimeType =>
            OCRService.processBase64Document ocrService base64 mimeType no_options
        | Base64Image base64 mimeType =>
            OCRService.processBase64Image ocrService base64 mimeType no_options
        | FileInput file =>
            match fileToBase64 file with
            | Some base64Data =>
                let mimeType := getMimeType file in
                if isValidPdfFile file
                then OCRService.processBase64Document ocrService base64Data mimeType no_options
                else OCRService.processBase64Image ocrService base64Data mimeType no_options
            | None => throw (ZodError "Invalid base64 format")
            end
        end ;;
      setQueryData cacheKey result ;;;
      ret result
  end.

(** ** Reference instances of the platform and of the OCR endpoint *)

Module Reference.

(** A conservative parser for what follows the scheme of an http or https
    URL: any number of slashes and backslashes, then an authority made of a
    plain host name (labels of letters, digits and hyphens separated by
    dots, the last one starting with a letter, none starting with [xn--])
    and an optional decimal port up to 65535.  Every conforming URL parser
    accepts these; credentials, IP addresses, internationalised and
    percent-encoded hosts are not covered and are refused here. *)
Definition is_slash (c : ascii) : bool := (code c =? 47)%N || (code c =? 92)%N.

Definition ends_authority (c : ascii) : bool :=
  is_slash c || (code c =? 63)%N || (code c =? 35)%N.

Fixpoint skip_slashes (s : string) : string :=
  match s with
  | EmptyString => EmptyString
  | String c s' => if is_slash c then skip_slashes s' else s
  end.

Fixpoint authority (s : string) : string :=
  match s with
  | EmptyString => EmptyString
  | String c s' => if ends_authority c then EmptyString else String c (authority s')
  end.

Fixpoint all_chars (p : ascii -> bool) (s : string) : bool :=
  match s with
  | EmptyString => true
  | String c s' => p c && all_chars p s'
  end.

Definition label_ok (l : string) : bool :=
  negb (String.eqb l EmptyString) && all_chars is_label_char l
  && negb (startsWith (toLowerCase l) "xn--").

Definition host_ok (host : string) : bool :=
  let labels := split "." host in
  forallb label_ok labels
  && match List.last labels EmptyString with
     | String c _ => is_alpha c
     | EmptyString => false
     end.

Fixpoint port_value (acc : N) (s : string) : N :=
  match s with
  | EmptyString => acc
  | String c s' => port_value (N.min 65536 (acc * 10 + (code c - 48))) s'
  end.

Definition port_ok (port : string) : bool :=
  all_chars is_digit port && (port_value 0 port <=? 65535)%N.

Definition plain_host_parser (scheme rest : string) : bool :=
  (String.eqb scheme "http" || String.eqb scheme "https")
  && match split ":" (authority (skip_slashes rest)) with
     | [host] => host_ok host
     | [host; port] => host_ok host && port_ok port
     | _ => false
     end.

Definition platform : Platform := {| parses_after_scheme := plain_host_parser |}.

Definition one_page : OCRResponse.t :=
  {| OCRResponse.pages := Some [ {| Page.markdown := "Invoice 42"; Page.images := None |} ];
     OCRResponse.model := "mistral-ocr-latest" |}.

(** An endpoint that answers every request within 120 ms. *)
Definition answering : OCRClient :=
  {| ocr_process := fun _ _ => Resolved one_page 120 |}.

(** An endpoint, such as a stub, that answers within the same millisecond. *)
Definition instant : OCRClient :=
  {| ocr_process := fun _ _ => Resolved one_page 0 |}.

(** An endpoint that is down. *)
Definition failing : OCRClient :=
  {| ocr_process := fun _ _ => Rejected "503 Service Unavailable" |}.

Definition empty_world : World := {| cache := ∅; calls := [] |}.

End Reference.

(** ** Vocabulary of the specification *)

(** The Result the adapter builds from a response and the elapsed time. *)
Definition normalise (response : OCRResponse.t) (elapsed : Z) : OCRResult.t :=
  {| OCRResult.text := OCRService.extractText response;
     OCRResult.pages := (fun l => Z.of_nat (List.length l)) <$> OCRResponse.pages response;
     OCRResult.processingTime := elapsed;
     OCRResult.images := OCRService.extractImages response |}.

Definition ocr_request (doc : Document) : OCRRequest :=
  {| model := "mistral-ocr-latest"; document := doc; includeImageBase64 := true |}.

Definition data_url (mimeType base64Data : string) : string :=
  "data:" +:+ mimeType +:+ ";base64," +:+ base64Data.

(** The validation of the adapter: the request [process] sends for an API key
    and an input once the key and the payload pass their schemas, or the
    validation error. *)
Definition prepare `{Platform} (apiKey : string) (input : OCRInputType)
    : Completion OCRRequest :=
  if negb (apiKeySchema apiKey) then Throw (ZodError "invalid API key")
  else
    match input with
    | UrlDocument url =>
        if pdfUrlSchema url then Return (ocr_request (document_url url))
        else Throw (ZodError "URL must point to a PDF file (.pdf extension required)")
    | UrlImage url =>
        if imageUrlSchema url then Return (ocr_request (image_url url))
        else Throw (ZodError "URL must point to an image file")
    | Base64Document base64 mimeType =>
        if base64Schema base64
        then Return (ocr_request (document_url (data_url mimeType base64)))
        else Throw (ZodError "Invalid base64 format")
    | Base64Image base64 mimeType =>
        if base64Schema base64
        then Return (ocr_request (image_url (data_url mimeType base64)))
        else Throw (ZodError "Invalid base64 format")
    | FileInput file =>
        match fileToBase64 file with
        | Some base64Data =>
            if base64Schema base64Data then
              Return (ocr_request
                        (if isValidPdfFile file
                         then document_url (data_url (getMimeType file) base64Data)
                         else image_url (data_url (getMimeType file) base64Data)))
            else Throw (ZodError "Invalid base64 format")
        | None => Throw (ZodError "Invalid base64 format")
        end
    end.

(** The world after one more request. *)
Definition logged (w : World) (request : OCRRequest) : World :=
  {| cache := cache w; calls := (calls w ++ [request])%list |}.

(** The world after one more request and the storing of its result. *)
Definition stored (w : World) (key : list KeyPart) (request : OCRRequest)
    (result : OCRResult.t) : World :=
  {| cache := <[key := result]> (cache w); calls := (calls w ++ [request])%list |}.

(** The 32-bit rolling hash [h = h * 31 + byte]. *)
Definition rolling_hash (bytes : list byte) : Z :=
  fold_left (fun h b => toInt32 (h * 31 + Z.of_N (Byte.to_N b))) bytes 0.

(** The first 8192 bytes of a file. *)
Definition sample (file : File.t) : list byte :=
  firstn (N.to_nat SAMPLE_SIZE) (File.content file).

(** [<fileName>-<fileSize>-<abs(h) in base 36>] *)
Definition content_hash (file : File.t) : string :=
  File.name file +:+ "-" +:+ toString 10 (File.size file) +:+ "-"
  +:+ toString 36 (Z.to_N (Z.abs (rolling_hash (sample file)))).

(** A URL ends, case-insensitively, in an extension, a trailing query string
    allowed: the lower-cased URL ends in the extension or contains the
    extension followed by a question mark. *)
Definition ends_in (ext url : string) : bool :=
  endsWith (toLowerCase url) ext || includes (toLowerCase url) (ext +:+ "?").

Definition ends_in_image (url : string) : bool :=
  existsb (fun ext => ends_in ext url) VALID_IMAGE_EXTENSIONS.

(** Only code units of the base64 alphabet, at least one, then any number of
    [=]. *)
Fixpoint all_padding (s : string) : bool :=
  match s with
  | EmptyString => true
  | String c s' => Ascii.eqb "=" c && all_padding s'
  end.

Fixpoint base64_tail (s : string) : bool :=
  match s with
  | EmptyString => true
  | String c s' => if is_base64_char c then base64_tail s' else all_padding s
  end.

Definition base64_text (s : string) : bool :=
  match s with
  | EmptyString => false
  | String c s' => is_base64_char c && base64_tail s'
  end.

Fixpoint whitespace_only (s : string) : bool :=
  match s with
  | EmptyString => true
  | String c s' => is_white c && whitespace_only s'
  end.

(** The pieces of a scan, put back together. *)
Fixpoint text_of_segments (l : list RegExp.segment) : string :=
  match l with
  | [] => EmptyString
  | g :: l' => RegExp.text_of g +:+ text_of_segments l'
  end.

(** The signature sniffing of the classifier on raw base64 text. *)
Definition sniff (text : string) : ContentType :=
  if startsWith text "JVBERi0" then ContentPdf
  else if startsWith text "iVBORw0KGgo" || startsWith text "/9j/"
          || startsWith text "R0lGOD" then ContentImage
  else ContentUnknown.

(** ** Auxiliary notions for reasoning about the matcher *)

(** Whether a match attempt succeeded. *)
Definition ok {A : Type} (o : option A) : bool :=
  match o with Some _ => true | None => false end.

(** Whether some suffix of a string satisfies a test. *)
Fixpoint anywhere (f : string -> bool) (s : string) : bool :=
  f s || match s with
         | EmptyString => false
         | String _ s' => anywhere f s'
         end.

(** Whether a string splits into code units of a class followed by a rest
    that satisfies a test; the test also sees the code unit before the
    rest. *)
Fixpoint chars_then (p : ascii -> bool) (f : option ascii -> string -> bool)
    (prev : option ascii) (s : string) : bool :=
  match s with
  | EmptyString => f prev EmptyString
  | String c s' => (p c && chars_then p f (Some c) s') || f prev s
  end.

(** A successful run has called its continuation on a suffix of the input. *)
Definition reaches {A : Type} (k : RegExp.cont A) (s : string) (a : A) : Prop :=
  exists cs' prev' u s', s = u +:+ s' /\ k cs' prev' s' = Some a.

(** Two continuations agree on the suffixes of a text. *)
Definition agree {A : Type} (k1 k2 : RegExp.cont A) (s : string) : Prop :=
  forall cs prev u s', s = u +:+ s' -> k1 cs prev s' = k2 cs prev s'.

(** The number a numeral denotes in a radix. *)
Definition digit_value (c : ascii) : N :=
  if is_digit c then (code c - 48)%N else (code c - 87)%N.

Fixpoint digits_value (radix acc : N) (s : string) : N :=
  match s with
  | EmptyString => acc
  | String c s' => digits_value radix (acc * radix + digit_value c) s'
  end.

(** No capital ASCII letter occurs. *)
Fixpoint no_upper (s : string) : bool :=
  match s with
  | EmptyString => true
  | String c s' => negb (is_upper c) && no_upper s'
  end.

(** ** Worlds and inputs used as examples *)

Module Examples.
Import Reference.

Definition invoice_url : string := "https://a.com/x.pdf".

Definition invoice_result : OCRResult.t := normalise one_page 120.

Definition invoice_request : OCRRequest := ocr_request (document_url invoice_url).

(** A cache that already holds the result for [invoice_url]. *)
Definition warm_world : World :=
  {| cache := {[ getCacheKey (UrlDocument invoice_url) := invoice_result ]};
     calls := [] |}.

Definition valid_key : string := "0123456789".

(** Forty code units. *)
Definition forty : string := "AAAAAAAAAAAAAAAAAAAAAAAAAAAAAAAAAAAAAAAA".

(** Two files of the same name and bytes, declared with different media
    types and modified at different times. *)
Definition scan_as_pdf : File.t :=
  File.make "scan" "application/pdf" 1700000000000 [x25; x50; x44; x46].
Definition scan_as_png : File.t :=
  File.make "scan" "image/png" 1800000000000 [x25; x50; x44; x46].
Definition scan_later : File.t :=
  File.make "scan" "application/pdf" 1800000000000 [x25; x50; x44; x46].

(** The first bytes of a PDF, in base64: 56 code units. *)
Definition pdf_base64 : string :=
  "JVBERi0xLjQKJeLjz9MKMyAwIG9iago8PC9UeXBlIC9QYWdlCi9QYXJlbnQ".

(** A URL whose path ends in [.png] and whose query string ends in
    [.pdf]. *)
Definition png_with_pdf_query : string := "https://a.com/x.png?y.pdf".

(** A PDF without bytes. *)
Definition empty_pdf : File.t := File.make "a.pdf" "application/pdf" 0 [].

End Examples.

(** * Further parts of the code *)

(** ** query-client.ts: retry delay *)

(** [retryDelay: (attemptIndex) => Math.min(1000 * 2 ** attemptIndex, 30000)]
    for a non-negative integer attempt index. *)
Definition retryDelay (attemptIndex : N) : N :=
  N.min (1000 * 2 ^ attemptIndex) 30000.

(** ** use-ocr.ts: reading and clearing the cache *)

(** [useCachedOCRResult(input)]; [None] stands for both [null] and
    [undefined]. *)
Definition useCachedOCRResult (input : option OCRInputType) (w : World)
    : option OCRResult.t :=
  match input with
  | None => None
  | Some (FileInput _) => None
  | Some (UrlDocument url) => cache w !! ocrKeys.urlDocument url
  | Some (UrlImage url) => cache w !! ocrKeys.urlImage url
  | Some (Base64Document base64 _) =>
      cache w !! ocrKeys.base64Document (generateBase64Hash base64)
  | Some (Base64Image base64 _) =>
      cache w !! ocrKeys.base64Image (generateBase64Hash base64)
  end.

(** [queryClient.removeQueries({ queryKey })]: the query client removes
    every query whose key starts with the elements of [queryKey]. *)
Definition removeQueries (queryKey : list KeyPart) (w : World) : World :=
  {| cache := filter (fun entry => ¬ queryKey `prefix_of` entry.1) (cache w);
     calls := calls w |}.

(** [useClearOCRCache()] *)
Definition clearAll (w : World) : World := removeQueries ocrKeys.all w.
Definition clearResults (w : World) : World := removeQueries ocrKeys.results w.

(** ** ocr-processor.tsx *)

(** [handleProcessText]: the input handed to [ocrMutation.mutate], or [None]
    when the handler returns without submitting. *)
Definition handleProcessText `{Platform} (textInput : string) : option OCRInputType :=
  if String.eqb (trim textInput) EmptyString then None
  else
    let detected := detectInputType textInput in
    match inputType detected with
    | InputUnknown => None
    | InputUrl =>
        match contentType detected with
        | ContentPdf => Some (UrlDocument (value detected))
        | ContentImage => Some (UrlImage (value detected))
        | ContentUnknown => None
        end
    | InputBase64 =>
        match contentType detected with
        | ContentPdf => Some (Base64Document (value detected) "application/pdf")
        | ContentImage => Some (Base64Image (value detected) "image/jpeg")
        | ContentUnknown => Some (Base64Image (value detected) "image/jpeg")
        end
    end.

(** The [disabled] attribute of the button that runs [handleProcessText]. *)
Definition processTextDisabled `{Platform} (isPending : bool) (textInput : string) : bool :=
  isPending
  || String.eqb (trim textInput) EmptyString
  || hasMultipleUrls textInput
  || (match inputType (detectInputType textInput) with InputUrl => true | _ => false end
      && match contentType (detectInputType textInput) with
         | ContentUnknown => true
         | _ => false
         end).

(** [handleFileSelect]: the selected file after a change event that carries
    [file] ([None]: no file in the event). *)
Definition handleFileSelect (file : option File.t) (selectedFile : option File.t)
    : option File.t :=
  match file with
  | None => selectedFile
  | Some file =>
      let isPdf := isValidPdfFile file in
      let isImage := isValidImageFile file in
      if negb isPdf && negb isImage then selectedFile else Some file
  end.

(** [fileValidationError] *)
Definition fileValidationError (selectedFile : option File.t) : option string :=
  match selectedFile with
  | Some file =>
      if negb (isValidPdfFile file) && negb (isValidImageFile file)
      then Some "Please select a valid PDF or image file (PNG, JPEG, AVIF, WebP, GIF)"
      else None
  | None => None
  end.

(** [handleProcessFile] *)
Definition handleProcessFile (selectedFile : option File.t) : option OCRInputType :=
  match selectedFile with
  | Some file => Some (FileInput file)
  | None => None
  end.

(** ** use-api-key.ts (src/unnamed/part_000) *)

Module ApiKey.

Definition API_KEY_STORAGE_KEY : string := "mistral-api-key".
Definition API_KEY_CLEARED_FLAG : string := "mistral-api-key-cleared".

(** [localStorage]: its items, whether access to it is denied (every
    operation throws) and whether its quota is used up ([setItem] throws). *)
Record Storage : Type := {
  items : gmap string string;
  denied : bool;
  full : bool
}.

(** The operations return [None] when they throw. *)
Definition getItem (key : string) (s : Storage) : option (option string) :=
  if denied s then None else Some (items s !! key).

Definition setItem (key value : string) (s : Storage) : option Storage :=
  if denied s || full s then None
  else Some {| items := <[key := value]> (items s); denied := denied s; full := full s |}.

Definition removeItem (key : string) (s : Storage) : option Storage :=
  if denied s then None
  else Some {| items := delete key (items s); denied := denied s; full := full s |}.

(** The module state: the storage, the variable [apiKeyState] and the number
    of times [emitChange] has run. *)
Record State : Type := {
  localStorage : Storage;
  apiKeyState : string;
  emitted : nat
}.

Inductive Outcome : Type :=
| Done
| Failed (message : string).

(** [getStoredApiKey()], for the value [envApiKey] of
    [import.meta.env.VITE_MISTRAL_API_KEY || '']. *)
Definition getStoredApiKey (envApiKey : string) (s : Storage) : string :=
  match getItem API_KEY_CLEARED_FLAG s with
  | None => envApiKey
  | Some flag =>
      if bool_decide (flag = Some "true") then EmptyString
      else
        match getItem API_KEY_STORAGE_KEY s with
        | None => envApiKey
        | Some (Some storedKey) =>
            if String.eqb storedKey EmptyString then envApiKey else storedKey
        | Some None => envApiKey
        end
  end.

(** The state after the module is loaded. *)
Definition load (envApiKey : string) (s : Storage) : State :=
  {| localStorage := s; apiKeyState := getStoredApiKey envApiKey s; emitted := 0 |}.

Definition setApiKey (key : string) (st : State) : State :=
  {| localStorage := localStorage st; apiKeyState := key; emitted := S (emitted st) |}.

Definition save_failed : string :=
  "Failed to save API key. Please check your browser storage settings.".

Definition saveApiKey (key : string) (st : State) : Outcome * State :=
  match setItem API_KEY_STORAGE_KEY key (localStorage st) with
  | None => (Failed save_failed, st)
  | Some s1 =>
      match removeItem API_KEY_CLEARED_FLAG s1 with
      | None =>
          (Failed save_failed,
           {| localStorage := s1; apiKeyState := apiKeyState st; emitted := emitted st |})
      | Some s2 =>
          (Done, {| localStorage := s2; apiKeyState := key; emitted := S (emitted st) |})
      end
  end.

Definition clearApiKey (st : State) : State :=
  match removeItem API_KEY_STORAGE_KEY (localStorage st) with
  | None => st
  | Some s1 =>
      match setItem API_KEY_CLEARED_FLAG "true" s1 with
      | None => {| localStorage := s1; apiKeyState := apiKeyState st; emitted := emitted st |}
      | Some s2 =>
          {| localStorage := s2; apiKeyState := EmptyString; emitted := S (emitted st) |}
      end
  end.

(** [isApiKeySet = !!apiKey] *)
Definition isApiKeySet (st : State) : bool := negb (String.eqb (apiKeyState st) EmptyString).

(** routes/index.tsx, [handleSetApiKey]: the state and the error shown
    under the field. *)
Definition handleSetApiKey (apiKeyInput : string) (st : State) : State * string :=
  if apiKeySchema apiKeyInput then
    match saveApiKey apiKeyInput st with
    | (Done, st') => (st', EmptyString)
    | (Failed _, st') => (st', "Invalid API key format")
    end
  else if (String.length apiKeyInput <? 10)%nat then (st, "API key is too short")
  else (st, "API key cannot be empty or whitespace").

End ApiKey.

(** ** Notions used in the further properties *)

(** Every code unit of a string is of a class. *)
Fixpoint all_of (p : ascii -> bool) (s : string) : bool :=
  match s with
  | EmptyString => true
  | String c s' => p c && all_of p s'
  end.

(** Some code unit of a string is of a class. *)
Fixpoint some_of (p : ascii -> bool) (s : string) : bool :=
  match s with
  | EmptyString => false
  | String c s' => p c || some_of p s'
  end.

(** A string is empty or starts with a code unit outside a class. *)
Definition stops (p : ascii -> bool) (tail : string) : bool :=
  match tail with
  | EmptyString => true
  | String c _ => negb (p c)
  end.

Definition not_comma (c : ascii) : bool := negb (Ascii.eqb c ",").

Definition not_semicolon (c : ascii) : bool := negb (Ascii.eqb c ";").

(** The two schemes of the full-URL pattern, with the slashes. *)
Definition url_scheme (secure : bool) : string :=
  if secure then "https://" else "http://".

(** The variant of an input. *)
Definition variant (input : OCRInputType) : nat :=
  match input with
  | UrlDocument _ => 0
  | UrlImage _ => 1
  | Base64Document _ _ => 2
  | Base64Image _ _ => 3
  | FileInput _ => 4
  end.

(** The images of the pages, page after page. *)
Definition page_images (pages : list Page.t) : list OCRImageObject :=
  List.concat (List.map (fun page => default [] (Page.images page)) pages).

(** The markdown of the pages that are not blank. *)
Definition page_texts (pages : list Page.t) : list string :=
  List.filter OCRService.nonblank (List.map Page.markdown pages).

(** Every Result of a cache passes the result schema. *)
Definition cache_valid (w : World) : Prop :=
  forall key r, cache w !! key = Some r -> ocrResultSchema r = true.

(** The selected file, if any, is accepted by a validator. *)
Definition selection_valid (selectedFile : option File.t) : Prop :=
  match selectedFile with
  | Some file => isValidPdfFile file || isValidImageFile file = true
  | None => True
  end.

(** ** The multi-URL detector in plain terms

    What the detector counts, written without regular expressions: the
    occurrences of full URLs, of [www.] domains and of bare domains with a
    path to a file, cut out of the text from left to right. *)

(** Whitespace, comma and semicolon end an occurrence. *)
Definition is_separator (c : ascii) : bool :=
  is_white c || Ascii.eqb c "," || Ascii.eqb c ";".

Definition non_separator (c : ascii) : bool := negb (is_separator c).

Definition not_slash (c : ascii) : bool := negb (Ascii.eqb c "/").

(** The longest prefix of code units of a class, and what follows it. *)
Fixpoint take_while (p : ascii -> bool) (s : string) : string :=
  match s with
  | EmptyString => EmptyString
  | String c s' => if p c then String c (take_while p s') else EmptyString
  end.

Fixpoint drop_while (p : ascii -> bool) (s : string) : string :=
  match s with
  | EmptyString => EmptyString
  | String c s' => if p c then drop_while p s' else s
  end.

(** The rest of [s] after the lower-case text [l], compared without regard
    to case; [None] when [s] does not start with [l]. *)
Fixpoint starts_ci (l s : string) : option string :=
  match l with
  | EmptyString => Some s
  | String a l' =>
      match s with
      | String c s' => if Ascii.eqb (lower_char c) a then starts_ci l' s' else None
      | EmptyString => None
      end
  end.

(** [f] at the end of the longest run of code units of a class after which
    [f] succeeds; [f] also sees the code unit before that end. *)
Fixpoint after_longest_run {A : Type} (p : ascii -> bool)
    (f : option ascii -> string -> option A) (prev : option ascii) (s : string)
    : option A :=
  match s with
  | EmptyString => f prev EmptyString
  | String c s' =>
      match (if p c then after_longest_run p f (Some c) s' else None) with
      | Some a => Some a
      | None => f prev s
      end
  end.

(** The prefixes of a string, the shortest first. *)
Fixpoint prefixes (s : string) : list string :=
  match s with
  | EmptyString => [EmptyString]
  | String c s' => EmptyString :: List.map (String c) (prefixes s')
  end.

(** The text after one or more code units that are no separators. *)
Definition after_run (s : string) : option string :=
  match s with
  | String c _ => if non_separator c then Some (drop_while non_separator s) else None
  | EmptyString => None
  end.

(** A full URL: [http://] or [https://] in any case, then one or more code
    units up to the next separator.  The result is the text after the
    URL. *)
Definition full_url_rest (s : string) : option string :=
  match starts_ci "https://" s with
  | Some rest => after_run rest
  | None =>
      match starts_ci "http://" s with
      | Some rest => after_run rest
      | None => None
      end
  end.

(** The last code unit of [String c s]. *)
Fixpoint last_unit (c : ascii) (s : string) : ascii :=
  match s with
  | EmptyString => c
  | String c' s' => last_unit c' s'
  end.

(** A label of a domain name: letters, digits and hyphens, a letter or digit
    at both ends. *)
Definition is_label (l : string) : bool :=
  match l with
  | EmptyString => false
  | String c l' => is_alnum c && all_of is_label_char l' && is_alnum (last_unit c l')
  end.

(** A top-level domain: two or more letters. *)
Definition is_tld (t : string) : bool :=
  (2 <=? String.length t)%nat && all_of is_alpha t.

(** The components of a domain name: one or more labels, then a top-level
    domain. *)
Fixpoint is_domain (components : list string) : bool :=
  match components with
  | l :: (_ :: _) as rest =>
      is_label l && match rest with
                    | [t] => is_tld t
                    | _ => is_domain rest
                    end
  | _ => false
  end.

Definition is_domain_name (d : string) : bool := is_domain (split "." d).

(** [www.] in any case, then a domain name. *)
Definition is_www_domain (d : string) : bool :=
  match starts_ci "www." d with
  | Some name => is_domain_name name
  | None => false
  end.

(** A [www.] domain: at a word boundary, a run of code units up to the next
    separator that starts with [www.] and a domain name. *)
Definition www_rest (prev : option ascii) (s : string) : option string :=
  if negb (RegExp.word_at prev)
     && existsb is_www_domain (prefixes (take_while non_separator s))
  then Some (drop_while non_separator s)
  else None.

(** The file extensions of the bare-domain pattern. *)
Definition extensions : list string :=
  ["pdf"; "png"; "jpeg"; "jpg"; "avif"; "webp"; "gif"].

(** The text after the extension [x] when [t] starts with it, in any case,
    and it ends at a word boundary. *)
Definition extension_end (x t : string) : option string :=
  match starts_ci x t with
  | Some rest => if RegExp.word_at (RegExp.head rest) then None else Some rest
  | None => None
  end.

(** The text after the first of the extensions that ends so. *)
Fixpoint first_extension (exts : list string) (t : string) : option string :=
  match exts with
  | [] => None
  | x :: exts' =>
      match extension_end x t with
      | Some rest => Some rest
      | None => first_extension exts' t
      end
  end.

(** The text after a dot and an extension. *)
Definition extension_rest (s : string) : option string :=
  match s with
  | String c t => if Ascii.eqb c "." then first_extension extensions t else None
  | EmptyString => None
  end.

(** A bare domain with a path to a file: at a word boundary, a domain name,
    a slash, and the longest run of one or more code units up to the next
    separator that is followed by a dot and an extension. *)
Definition bare_rest (prev : option ascii) (s : string) : option string :=
  match drop_while not_slash s with
  | String _ (String c path) =>
      if negb (RegExp.word_at prev)
         && is_domain_name (take_while not_slash s)
         && non_separator c
      then after_longest_run non_separator (fun _ => extension_rest) (Some c) path
      else None
  | _ => None
  end.

(** Cutting a text from left to right: [here prev s] is the text after the
    occurrence that starts at the current position, if there is one.  The
    result is the number of occurrences and the text without them; [skip]
    counts the code units of the current occurrence still to pass over. *)
Fixpoint cut (here : option ascii -> string -> option string)
    (prev : option ascii) (s : string) (skip : nat) : nat * string :=
  match s with
  | EmptyString => (O, EmptyString)
  | String c s' =>
      match skip with
      | S n => cut here (Some c) s' n
      | O =>
          match here prev s with
          | Some rest =>
              let (n, kept) := cut here (Some c) s' (String.length s' - String.length rest) in
              (S n, kept)
          | None =>
              let (n, kept) := cut here (Some c) s' 0 in
              (n, String c kept)
          end
      end
  end.

(** The number of URL-like occurrences: full URLs, then [www.] domains in
    the text without the full URLs, then bare domains in the text without
    either. *)
Definition url_occurrences (input : string) : nat :=
  let (full, without_full) := cut (fun _ => full_url_rest) None input 0 in
  let (www, without_www) := cut www_rest None without_full 0 in
  let (bare, _) := cut bare_rest None without_www 0 in
  (full + www + bare)%nat.

(** ** What a pattern denotes

    [denotes r prev s prev' s']: the pattern [r] can match from the text
    [s], with the code unit [prev] before it, up to the rest [s'], with
    the code unit [prev'] before it. *)
Inductive iter (R : option ascii -> string -> option ascii -> string -> Prop)
    : option ascii -> string -> option ascii -> string -> Prop :=
| iter_stop (prev : option ascii) (s : string) : iter R prev s prev s
| iter_step (prev : option ascii) (s : string) (p1 : option ascii) (s1 : string)
    (p2 : option ascii) (s2 : string) :
    R prev s p1 s1 -> (String.length s1 < String.length s)%nat ->
    iter R p1 s1 p2 s2 -> iter R prev s p2 s2.

Fixpoint denotes (r : RegExp.regex) (prev : option ascii) (s : string)
    (prev' : option ascii) (s' : string) : Prop :=
  match r with
  | RegExp.Eps => prev' = prev /\ s' = s
  | RegExp.Chr p => exists c, s = String c s' /\ p c = true /\ prev' = Some c
  | RegExp.Seq r1 r2 =>
      exists p1 s1, denotes r1 prev s p1 s1 /\ denotes r2 p1 s1 prev' s'
  | RegExp.Alt r1 r2 => denotes r1 prev s prev' s' \/ denotes r2 prev s prev' s'
  | RegExp.Star r0 => iter (denotes r0) prev s prev' s'
  | RegExp.Group _ r0 => denotes r0 prev s prev' s'
  | RegExp.WordB =>
      xorb (RegExp.word_at prev) (RegExp.word_at (RegExp.head s)) = true
      /\ prev' = prev /\ s' = s
  | RegExp.Bol => prev = None /\ prev' = prev /\ s' = s
  | RegExp.Eol => s = EmptyString /\ prev' = prev /\ s' = s
  end.

(** The text after the match of a pattern at the current position. *)
Definition rest_after (r : RegExp.regex) (prev : option ascii) (s : string)
    : option string :=
  RegExp.run r [] prev s (fun _ _ s' => Some s').

Definition not_dot (c : ascii) : bool := negb (Ascii.eqb c ".").

(** The [www.] pattern and the bare-domain pattern up to the end of the
    domain name. *)
Definition www_head : RegExp.regex :=
  RegExp.seqs [RegExp.WordB; RegExp.lit_i "www"; RegExp.chr "."; label_re;
               RegExp.Star (RegExp.Seq (RegExp.chr ".") label_re);
               RegExp.chr "."; RegExp.two_or_more (RegExp.Chr is_alpha)].

Definition bare_head : RegExp.regex :=
  RegExp.seqs [RegExp.WordB; RegExp.plus (RegExp.Seq label_re (RegExp.chr "."));
               RegExp.two_or_more (RegExp.Chr is_alpha); RegExp.chr "/"].

Module Samples.

(** The world after the invoice has been processed by an endpoint that
    answers. *)
Definition after_invoice : World :=
  snd (@mutationFn Reference.platform Reference.answering Examples.valid_key
         (UrlDocument Examples.invoice_url) Reference.empty_world).

(** An endpoint that answers with an empty list of pages. *)
Definition no_pages : OCRResponse.t :=
  {| OCRResponse.pages := Some []; OCRResponse.model := "mistral-ocr-latest" |}.

Definition answering_empty : OCRClient :=
  {| ocr_process := fun _ _ => Resolved no_pages 120 |}.

Definition head20 : string := "JVBERi0xLjQKJeLjz9MK".
Definition tail20 : string := "MyAwIG9iago8PC9UeXBl".

(** Two base64 texts that differ in the middle only, and a cache that holds
    a Result for the first one. *)
Definition report_a : string := head20 +:+ "AAAAAAAA" +:+ tail20.
Definition report_b : string := head20 +:+ "BBBBBBBB" +:+ tail20.

Definition report_world : World :=
  {| cache := {[ getCacheKey (Base64Document report_a "application/pdf")
                 := Examples.invoice_result ]};
     calls := [] |}.

(** A storage that holds a key, and a storage to which access is denied. *)
Definition storage_with_key : ApiKey.Storage :=
  {| ApiKey.items := {[ ApiKey.API_KEY_STORAGE_KEY := "sk-0123456789" ]};
     ApiKey.denied := false; ApiKey.full := false |}.

Definition storage_denied : ApiKey.Storage :=
  {| ApiKey.items := ∅; ApiKey.denied := true; ApiKey.full := false |}.

Definition state_with_key : ApiKey.State := ApiKey.load "env-key-000" storage_with_key.
Definition state_denied : ApiKey.State := ApiKey.load "env-key-000" storage_denied.

(** A file of 36 bytes and a file of 37 bytes. *)
Definition bytes36 : list byte := List.repeat x25 36.
Definition tiny_pdf : File.t := File.make "tiny.pdf" "application/pdf" 0 bytes36.
Definition small_pdf : File.t := File.make "small.pdf" "application/pdf" 0 (x25 :: bytes36).

(** A data URL that declares a PNG image, with a payload of 60 code
    units. *)
Definition png_payload_tail : string :=
  "VBORw0KGgoAAAANSUhEUgAAAAEAAAABCAYAAAAfFcSJAAAADUlEQVR42mNk".
Definition png_payload : string := String "i" png_payload_tail.
Definition png_data_url : string := data_url "image/png" png_payload.

End Samples.

(** * Properties *)

(** ** Strings *)

Section Strings.

Lemma append_cons (c : ascii) (u v : string) : String c u +:+ v = String c (u +:+ v).
Proof. reflexivity. Qed.

Lemma append_assoc (u v w : string) : (u +:+ v) +:+ w = u +:+ (v +:+ w).
Proof.
  induction u as [|c u IH]; [reflexivity | rewrite !append_cons, IH; reflexivity].
Qed.

Lemma length_append (u v : string) :
  String.length (u +:+ v) = (String.length u + String.length v)%nat.
Proof.
  induction u as [|c u IH]; [reflexivity | rewrite append_cons; simpl; rewrite IH; reflexivity].
Qed.

Lemma append_empty_r (u : string) : u +:+ EmptyString = u.
Proof. induction u as [|c u IH]; [reflexivity | rewrite append_cons, IH; reflexivity]. Qed.

Lemma substring_prefix (u v : string) : substring 0 (String.length u) (u +:+ v) = u.
Proof.
  induction u as [|c u IH].
  - destruct v; reflexivity.
  - rewrite append_cons. simpl. rewrite IH. reflexivity.
Qed.

End Strings.

(** ** The cache-first orchestrator *)

Section Orchestrator.
Context {platform : Platform} {client : OCRClient}.

Lemma submit_run (this : OCRService.t) (doc : Document) (w : World) :
  OCRService.submit this doc no_options w =
  match ocr_process (OCRService.client this) (ocr_request doc) with
  | Rejected reason => (Throw (ExternalCallError reason), logged w (ocr_request doc))
  | Resolved response elapsed =>
      if ocrResultSchema (normalise response elapsed)
      then (Return (normalise response elapsed), logged w (ocr_request doc))
      else (Throw (ZodError "invalid OCR result"), logged w (ocr_request doc))
  end.
Proof.
  unfold OCRService.submit, bind, process_request, ocr_request, logged; simpl.
  destruct (ocr_process _ _) as [response elapsed | reason]; [|reflexivity].
  unfold parse_result. fold (normalise response elapsed).
  destruct (ocrResultSchema _); reflexivity.
Qed.

(** The mutation function, one case per path of the state machine
    start, key computed, cache checked, then hit, or miss with validation,
    external call and store. *)
Lemma mutationFn_run (apiKey : string) (input : OCRInputType) (w : World) :
  mutationFn apiKey input w =
  match cache w !! getCacheKey input with
  | Some cachedData => (Return cachedData, w)
  | None =>
      match prepare apiKey input with
      | Throw e => (Throw e, w)
      | Return request =>
          match ocr_process apiKey request with
          | Rejected reason => (Throw (ExternalCallError reason), logged w request)
          | Resolved response elapsed =>
              if ocrResultSchema (normalise response elapsed)
              then (Return (normalise response elapsed),
                    stored w (getCacheKey input) request (normalise response elapsed))
              else (Throw (ZodError "invalid OCR result"), logged w request)
          end
      end
  end.
Proof.
  unfold mutationFn, bind at 1, getQueryData.
  generalize (getCacheKey input); intros key.
  destruct (cache w !! key) as [cached|]; [reflexivity|].
  unfold prepare, bind at 1, OCRService.new.
  destruct (apiKeySchema apiKey); simpl; [|reflexivity].
  unfold bind at 1.
  assert (Hsub : forall doc,
    match OCRService.submit {| OCRService.client := apiKey |} doc no_options w with
    | (Return a, w') => (result <- ret a ;; setQueryData key result ;;; ret result) w'
    | (Throw e, w') => (Throw e, w')
    end =
    match ocr_process apiKey (ocr_request doc) with
    | Rejected reason => (Throw (ExternalCallError reason), logged w (ocr_request doc))
    | Resolved response elapsed =>
        if ocrResultSchema (normalise response elapsed)
        then (Return (normalise response elapsed),
              stored w key (ocr_request doc) (normalise response elapsed))
        else (Throw (ZodError "invalid OCR result"), logged w (ocr_request doc))
    end).
  { intros doc. rewrite submit_run. simpl.
    destruct (ocr_process apiKey (ocr_request doc)) as [response elapsed | reason];
      [|reflexivity].
    destruct (ocrResultSchema _); reflexivity. }
  destruct input as [url | url | b64 mt | b64 mt | file]; simpl.
  - unfold OCRService.processDocumentUrl.
    destruct (pdfUrlSchema url); [apply (Hsub (document_url url)) | reflexivity].
  - unfold OCRService.processImageUrl.
    destruct (imageUrlSchema url); [apply (Hsub (image_url url)) | reflexivity].
  - unfold OCRService.processBase64Document.
    destruct (base64Schema b64); [apply (Hsub (document_url _)) | reflexivity].
  - unfold OCRService.processBase64Image.
    destruct (base64Schema b64); [apply (Hsub (image_url _)) | reflexivity].
  - destruct (fileToBase64 file) as [b64|]; [|reflexivity].
    unfold OCRService.processBase64Document, OCRService.processBase64Image.
    destruct (isValidPdfFile file), (base64Schema b64);
      first [apply (Hsub (document_url _)) | apply (Hsub (image_url _)) | reflexivity].
Qed.

(** A miss with an API key or a payload that fails the validation of the
    adapter throws the validation error and changes nothing. *)
Lemma process_invalid (apiKey : string) (input : OCRInputType) (w : World) (e : Error) :
  cache w !! getCacheKey input = None ->
  prepare apiKey input = Throw e ->
  mutationFn apiKey input w = (Throw e, w).
Proof.
  intros Hmiss Hprep. rewrite mutationFn_run, Hmiss, Hprep. reflexivity.
Qed.

(** Whatever happens, at most one request is sent. *)
Lemma process_at_most_one_call (apiKey : string) (input : OCRInputType) (w : World) :
  calls (snd (mutationFn apiKey input w)) = calls w
  \/ exists request, calls (snd (mutationFn apiKey input w)) = (calls w ++ [request])%list.
Proof.
  rewrite mutationFn_run.
  destruct (cache w !! getCacheKey input); [left; reflexivity|].
  destruct (prepare apiKey input) as [request | e]; [|left; reflexivity].
  right. exists request.
  destruct (ocr_process apiKey request) as [response elapsed | reason]; [|reflexivity].
  destruct (ocrResultSchema _); reflexivity.
Qed.

(** A thrown error leaves the cache as it was. *)
Lemma process_error_atomic (apiKey : string) (input : OCRInputType) (w w' : World)
    (e : Error) :
  mutationFn apiKey input w = (Throw e, w') -> cache w' = cache w.
Proof.
  rewrite mutationFn_run.
  destruct (cache w !! getCacheKey input); [discriminate|].
  destruct (prepare apiKey input) as [request | e0]; [|intros [= _ <-]; reflexivity].
  destruct (ocr_process apiKey request) as [response elapsed | reason];
    [|intros [= _ <-]; reflexivity].
  destruct (ocrResultSchema _); [discriminate | intros [= _ <-]; reflexivity].
Qed.

(** C1. When the cache holds a Result under the key of the input, [process]
    returns exactly that Result and leaves the world as it was: the cache is
    untouched and no request is sent to the OCR endpoint. *)
Theorem process_cache_hit (apiKey : string) (input : OCRInputType) (w : World)
    (r : OCRResult.t) :
  cache w !! getCacheKey input = Some r ->
  mutationFn apiKey input w = (Return r, w)
  /\ calls (snd (mutationFn apiKey input w)) = calls w.
Proof.
  intros Hhit. rewrite mutationFn_run, Hhit. split; reflexivity.
Qed.

(** C2, amended.  When the cache holds nothing under the key of the input,
    the API key and the payload pass the validation of the adapter, the
    external call succeeds and the normalised Result passes the result
    schema, [process] sends exactly one request, stores the Result under
    the key and returns the Result it stored. *)
Theorem process_cache_miss (apiKey : string) (input : OCRInputType) (w : World)
    (request : OCRRequest) (response : OCRResponse.t) (elapsed : Z) :
  cache w !! getCacheKey input = None ->
  prepare apiKey input = Return request ->
  ocr_process apiKey request = Resolved response elapsed ->
  ocrResultSchema (normalise response elapsed) = true ->
  let result := normalise response elapsed in
  let w' := snd (mutationFn apiKey input w) in
  fst (mutationFn apiKey input w) = Return result
  /\ calls w' = (calls w ++ [request])%list
  /\ cache w' = <[getCacheKey input := result]> (cache w)
  /\ cache w' !! getCacheKey input = Some result.
Proof.
  intros Hmiss Hprep Hreply Hok result w'. subst result w'.
  rewrite mutationFn_run, Hmiss, Hprep, Hreply, Hok. simpl.
  repeat split. apply lookup_insert_eq.
Qed.

(** C3. When the request [process] sends is rejected by the endpoint, the
    rejection is what [process] throws, and the cache is as before the
    invocation: it holds nothing under the key of the input. *)
Theorem process_external_failure (apiKey : string) (input : OCRInputType)
    (w w' : World) (out : Completion OCRResult.t) (request : OCRRequest)
    (reason : string) :
  mutationFn apiKey input w = (out, w') ->
  calls w' = (calls w ++ [request])%list ->
  ocr_process apiKey request = Rejected reason ->
  out = Throw (ExternalCallError reason)
  /\ cache w' = cache w
  /\ cache w' !! getCacheKey input = None.
Proof.
  intros Hrun Hcalls Hreply. rewrite mutationFn_run in Hrun.
  assert (Hfresh : forall l : list OCRRequest, l <> (l ++ [request])%list).
  { intros l Hl. apply (f_equal (@List.length _)) in Hl.
    rewrite length_app in Hl. simpl in Hl. lia. }
  destruct (cache w !! getCacheKey input) as [cached|] eqn:Hlook.
  { inversion Hrun; subst. exfalso. exact (Hfresh _ Hcalls). }
  destruct (prepare apiKey input) as [request0 | e].
  2:{ inversion Hrun; subst. exfalso. exact (Hfresh _ Hcalls). }
  assert (Hsame : calls w' = (calls w ++ [request0])%list).
  { destruct (ocr_process apiKey request0) as [response elapsed | reason0].
    - destruct (ocrResultSchema _); inversion Hrun; reflexivity.
    - inversion Hrun; reflexivity. }
  rewrite Hcalls in Hsame. apply app_inj_tail in Hsame as [_ Heq]. subst request0.
  rewrite Hreply in Hrun. inversion Hrun; subst. simpl. auto.
Qed.

End Orchestrator.


Lemma process_cache_hit_witness :
  @mutationFn Reference.platform Reference.failing Examples.valid_key
    (UrlDocument Examples.invoice_url) Examples.warm_world
  = (Return Examples.invoice_result, Examples.warm_world)
  /\ calls (snd (@mutationFn Reference.platform Reference.failing Examples.valid_key
                  (UrlDocument Examples.invoice_url) Examples.warm_world))
     = calls Examples.warm_world.
Proof.
  apply (@process_cache_hit Reference.platform Reference.failing).
  vm_compute. reflexivity.
Defined.

(** A miss does not always end in one call and a stored Result.  With an
    API key that is too short it ends in a validation error and no request
    is sent.  With an endpoint that answers within the same millisecond the
    request is sent, the elapsed time 0 is refused by the result schema, and
    nothing is stored. *)
Lemma process_cache_miss_invalid_key :
  cache Reference.empty_world !! getCacheKey (UrlDocument Examples.invoice_url) = None
  /\ @mutationFn Reference.platform Reference.answering "short"
       (UrlDocument Examples.invoice_url) Reference.empty_world
     = (Throw (ZodError "invalid API key"), Reference.empty_world)
  /\ calls (snd (@mutationFn Reference.platform Reference.answering "short"
                  (UrlDocument Examples.invoice_url) Reference.empty_world)) = []
  /\ @mutationFn Reference.platform Reference.instant Examples.valid_key
       (UrlDocument Examples.invoice_url) Reference.empty_world
     = (Throw (ZodError "invalid OCR result"),
        logged Reference.empty_world Examples.invoice_request).
Proof.
  vm_compute. repeat split.
Qed.

Lemma process_cache_miss_witness :
  let run := @mutationFn Reference.platform Reference.answering Examples.valid_key
               (UrlDocument Examples.invoice_url) Reference.empty_world in
  fst run = Return Examples.invoice_result
  /\ calls (snd run) = [Examples.invoice_request]
  /\ cache (snd run)
     = <[getCacheKey (UrlDocument Examples.invoice_url) := Examples.invoice_result]> ∅
  /\ cache (snd run) !! getCacheKey (UrlDocument Examples.invoice_url)
     = Some Examples.invoice_result.
Proof.
  apply (@process_cache_miss Reference.platform Reference.answering Examples.valid_key
           (UrlDocument Examples.invoice_url) Reference.empty_world
           Examples.invoice_request Reference.one_page 120);
    vm_compute; reflexivity.
Defined.

Lemma process_external_failure_witness :
  let run := @mutationFn Reference.platform Reference.failing Examples.valid_key
               (UrlDocument Examples.invoice_url) Reference.empty_world in
  fst run = Throw (ExternalCallError "503 Service Unavailable")
  /\ cache (snd run) = cache Reference.empty_world
  /\ cache (snd run) !! getCacheKey (UrlDocument Examples.invoice_url) = None.
Proof.
  intros run.
  apply (@process_external_failure Reference.platform Reference.failing
           Examples.valid_key (UrlDocument Examples.invoice_url) Reference.empty_world
           (snd run) (fst run) Examples.invoice_request "503 Service Unavailable").
  - apply surjective_pairing.
  - vm_compute. reflexivity.
  - reflexivity.
Defined.

(** ** The cache-key generator *)

(** C4, amended. The digest of a string of fewer than 40 code units is the
    string itself. *)
Theorem generateBase64Hash_short (s : string) :
  (String.length s < 40)%nat -> generateBase64Hash s = s.
Proof.
  intros Hlen. unfold generateBase64Hash.
  destruct (Nat.ltb_spec (String.length s) 40) as [_ | Hge]; [reflexivity | lia].
Qed.

Lemma generateBase64Hash_short_witness :
  generateBase64Hash "JVBERi0xLjQK" = "JVBERi0xLjQK".
Proof.
  apply (generateBase64Hash_short "JVBERi0xLjQK"). simpl. lia.
Defined.

(** At exactly 40 code units the digest is no longer the string: it is the
    first 20 code units, the length and the last 20 code units. *)
Lemma generateBase64Hash_forty :
  (String.length Examples.forty <= 40)%nat
  /\ generateBase64Hash Examples.forty
     = "AAAAAAAAAAAAAAAAAAAA-40-AAAAAAAAAAAAAAAAAAAA"
  /\ generateBase64Hash Examples.forty <> Examples.forty.
Proof.
  split; [vm_compute; lia|]. split; [reflexivity|]. vm_compute. discriminate.
Qed.

(** *** Numerals *)

Section Numerals.

Lemma digit_value_char (d : N) : (d < 36)%N -> digit_value (digit_char d) = d.
Proof.
  intros Hd.
  assert (Hall : forallb (fun k => (digit_value (digit_char (N.of_nat k)) =? N.of_nat k)%N)
                   (seq 0 36) = true) by (vm_compute; reflexivity).
  rewrite forallb_forall in Hall.
  specialize (Hall (N.to_nat d)). rewrite N2Nat.id in Hall.
  apply N.eqb_eq, Hall, in_seq. lia.
Qed.

Lemma to_digits_value (radix : N) :
  (2 <= radix <= 36)%N ->
  forall fuel n acc,
    (n < 2 ^ N.of_nat fuel)%N ->
    exists d,
      to_digits fuel radix n acc = d +:+ acc
      /\ forall a rest,
           digits_value radix a (d +:+ rest)
           = digits_value radix (a * radix ^ N.of_nat (String.length d) + n)%N rest.
Proof.
  intros Hradix. induction fuel as [|fuel IH]; intros n acc Hn.
  - exists EmptyString. split; [reflexivity|]. intros a rest.
    change (2 ^ N.of_nat 0)%N with 1%N in Hn.
    replace n with 0%N by lia. simpl. f_equal. lia.
  - cbn [to_digits].
    assert (Hmod : (n mod radix < radix)%N) by (apply N.mod_lt; lia).
    assert (Hdiv : (n = radix * (n / radix) + n mod radix)%N)
      by (apply N.div_mod; lia).
    destruct (N.eqb_spec (n / radix) 0) as [Hz | Hnz].
    + exists (String (digit_char (n mod radix)) EmptyString).
      split; [reflexivity|]. intros a rest.
      change (String (digit_char (n mod radix)) EmptyString +:+ rest)
        with (String (digit_char (n mod radix)) rest).
      cbn [digits_value String.length].
      rewrite digit_value_char by lia. f_equal.
      change (N.of_nat 1) with 1%N. rewrite N.pow_1_r. nia.
    + assert (Hsmall : (n / radix < 2 ^ N.of_nat fuel)%N).
      { apply N.Div0.div_lt_upper_bound.
        rewrite Nat2N.inj_succ, N.pow_succ_r' in Hn. nia. }
      destruct (IH (n / radix)%N (String (digit_char (n mod radix)) acc) Hsmall)
        as (d & Hd & Hval).
      exists (d +:+ String (digit_char (n mod radix)) EmptyString).
      split.
      * rewrite Hd, append_assoc. reflexivity.
      * intros a rest.
        rewrite append_assoc, Hval, length_append, append_cons.
        cbn [digits_value String.length].
        rewrite digit_value_char by lia. f_equal.
        replace (N.of_nat (String.length d + 1)) with (N.succ (N.of_nat (String.length d)))
          by lia.
        rewrite N.pow_succ_r'. nia.
Qed.

(** The numeral [toString] produces denotes the number. *)
Lemma toString_value (radix n : N) :
  (2 <= radix <= 36)%N -> digits_value radix 0 (toString radix n) = n.
Proof.
  intros Hradix. unfold toString.
  assert (Hn : (n < 2 ^ N.of_nat (S (N.to_nat (N.log2 n))))%N).
  { rewrite Nat2N.inj_succ, N2Nat.id.
    destruct (N.eq_dec n 0%N) as [-> | Hpos]; [reflexivity|].
    apply N.log2_spec. lia. }
  destruct (to_digits_value radix Hradix _ n EmptyString Hn) as (d & Hd & Hval).
  rewrite Hd, Hval. reflexivity.
Qed.

End Numerals.

(** *** The file hash *)

Section Hash.

Lemma toInt32_shift (z k : Z) : toInt32 (z + k * 2 ^ 32) = toInt32 z.
Proof.
  unfold toInt32.
  replace (z + k * 2 ^ 32 + 2 ^ 31) with (z + 2 ^ 31 + k * 2 ^ 32) by ring.
  rewrite Z_mod_plus_full. reflexivity.
Qed.

Lemma toInt32_repr (z : Z) : exists k, toInt32 z = z + k * 2 ^ 32.
Proof.
  exists (- ((z + 2 ^ 31) / 2 ^ 32)). unfold toInt32.
  rewrite Z.mod_eq by (compute; discriminate). ring.
Qed.

Lemma toInt32_range (z : Z) : - 2 ^ 31 <= toInt32 z < 2 ^ 31.
Proof.
  unfold toInt32.
  assert (0 <= (z + 2 ^ 31) mod 2 ^ 32 < 2 ^ 32) by (apply Z.mod_pos_bound; reflexivity).
  change (2 ^ 32) with (2 * 2 ^ 31) in *. lia.
Qed.

Lemma toInt32_idem (z : Z) : toInt32 (toInt32 z) = toInt32 z.
Proof.
  destruct (toInt32_repr z) as [k Hk]. rewrite Hk at 1. apply toInt32_shift.
Qed.

(** One round of the loop is [hash * 31 + byte], wrapped to 32 bits. *)
Lemma hash_step_rolling (hash : Z) (b : byte) :
  hash_step hash b = toInt32 (hash * 31 + Z.of_N (Byte.to_N b)).
Proof.
  unfold hash_step, band, shl. rewrite Z.land_diag, toInt32_idem.
  change (5 mod 32) with 5. rewrite Z.shiftl_mul_pow2 by lia.
  destruct (toInt32_repr hash) as [k1 H1].
  destruct (toInt32_repr (toInt32 hash * 2 ^ 5)) as [k2 H2].
  rewrite H2, H1.
  replace ((hash + k1 * 2 ^ 32) * 2 ^ 5 + k2 * 2 ^ 32 - hash + Z.of_N (Byte.to_N b))
    with (hash * 31 + Z.of_N (Byte.to_N b) + (k1 * 2 ^ 5 + k2) * 2 ^ 32) by ring.
  apply toInt32_shift.
Qed.

Lemma sample_hash_rolling (bytes : list byte) : sample_hash bytes = rolling_hash bytes.
Proof.
  unfold sample_hash, rolling_hash. generalize 0.
  induction bytes as [|b bytes IH]; intros h; simpl; [reflexivity|].
  rewrite hash_step_rolling. apply IH.
Qed.

(** The bytes that are hashed are the first 8192 bytes of the file. *)
Lemma hashed_sample (file : File.t) :
  File.slice0 file (N.min SAMPLE_SIZE (File.size file)) = sample file.
Proof.
  unfold File.slice0, sample, File.size.
  rewrite N2Nat.inj_min, Nat2N.id.
  generalize (N.to_nat SAMPLE_SIZE) as n; intros n.
  destruct (Nat.le_ge_cases n (List.length (File.content file))) as [Hle | Hge].
  - rewrite Nat.min_l by exact Hle. reflexivity.
  - rewrite Nat.min_r by exact Hge.
    rewrite !firstn_all2 by lia. reflexivity.
Qed.

Lemma generateFileHash_content (file : File.t) :
  generateFileHash file = content_hash file.
Proof.
  unfold generateFileHash, content_hash.
  rewrite hashed_sample, sample_hash_rolling. reflexivity.
Qed.

(** The hash fits the signed 32-bit range. *)
Lemma rolling_hash_range (bytes : list byte) :
  - 2 ^ 31 <= rolling_hash bytes < 2 ^ 31.
Proof.
  unfold rolling_hash.
  assert (Hgen : forall h, - 2 ^ 31 <= h < 2 ^ 31 ->
            - 2 ^ 31 <= fold_left (fun h b => toInt32 (h * 31 + Z.of_N (Byte.to_N b))) bytes h
            < 2 ^ 31).
  { induction bytes as [|b bytes IH]; intros h Hh; simpl; [exact Hh|].
    apply IH, toInt32_range. }
  apply Hgen. split; [compute; discriminate | reflexivity].
Qed.

End Hash.

(** The key of a file: namespace, kind, content hash, size and the literal 0. *)
Lemma file_key_shape (file : File.t) :
  getCacheKey (FileInput file)
  = [KStr "ocr";
     KStr (if isValidPdfFile file then "file-document" else "file-image");
     KStr (content_hash file); KNum (Z.of_N (File.size file)); KNum 0].
Proof.
  unfold getCacheKey. rewrite generateFileHash_content.
  destruct (isValidPdfFile file); reflexivity.
Qed.

(** C5, amended. Two files with the same name, the same size, the same
    declared media type and the same first 8192 bytes get the same cache
    key, whatever their modification times.  The key holds the literal 0 in
    its last position, and its content hash is
    [<fileName>-<fileSize>-<abs(h) in base 36>] for the 32-bit rolling hash
    [h = h * 31 + byte] of at most the first 8192 bytes. *)
Theorem file_key_content_addressed (f1 f2 : File.t) :
  File.name f1 = File.name f2 ->
  File.size f1 = File.size f2 ->
  File.type f1 = File.type f2 ->
  sample f1 = sample f2 ->
  getCacheKey (FileInput f1) = getCacheKey (FileInput f2)
  /\ exists kind,
       (kind = "file-document" \/ kind = "file-image")
       /\ getCacheKey (FileInput f1)
          = [KStr "ocr"; KStr kind; KStr (content_hash f1);
             KNum (Z.of_N (File.size f1)); KNum 0]
       /\ content_hash f1
          = File.name f1 +:+ "-" +:+ toString 10 (File.size f1) +:+ "-"
            +:+ toString 36 (Z.to_N (Z.abs (rolling_hash (sample f1))))
       /\ digits_value 10 0 (toString 10 (File.size f1)) = File.size f1
       /\ Z.of_N (digits_value 36 0
                    (toString 36 (Z.to_N (Z.abs (rolling_hash (sample f1))))))
          = Z.abs (rolling_hash (sample f1)).
Proof.
  intros Hname Hsize Htype Hsample. split.
  - rewrite !file_key_shape.
    assert (Hhash : content_hash f1 = content_hash f2).
    { unfold content_hash. rewrite Hname, Hsize, Hsample. reflexivity. }
    assert (Hpdf : isValidPdfFile f1 = isValidPdfFile f2).
    { unfold isValidPdfFile, pdfFileSchema. rewrite Hname, Hsize, Htype. reflexivity. }
    rewrite Hhash, Hpdf, Hsize. reflexivity.
  - exists (if isValidPdfFile f1 then "file-document" else "file-image").
    split; [destruct (isValidPdfFile f1); auto|].
    split; [apply file_key_shape|]. split; [reflexivity|].
    rewrite !toString_value by lia. split; [reflexivity | lia].
Qed.

Lemma file_key_content_addressed_witness :
  getCacheKey (FileInput Examples.scan_as_pdf) = getCacheKey (FileInput Examples.scan_later)
  /\ exists kind,
       (kind = "file-document" \/ kind = "file-image")
       /\ getCacheKey (FileInput Examples.scan_as_pdf)
          = [KStr "ocr"; KStr kind; KStr (content_hash Examples.scan_as_pdf);
             KNum (Z.of_N (File.size Examples.scan_as_pdf)); KNum 0]
       /\ content_hash Examples.scan_as_pdf
          = File.name Examples.scan_as_pdf +:+ "-"
            +:+ toString 10 (File.size Examples.scan_as_pdf) +:+ "-"
            +:+ toString 36 (Z.to_N (Z.abs (rolling_hash (sample Examples.scan_as_pdf))))
       /\ digits_value 10 0 (toString 10 (File.size Examples.scan_as_pdf))
          = File.size Examples.scan_as_pdf
       /\ Z.of_N (digits_value 36 0
                    (toString 36
                       (Z.to_N (Z.abs (rolling_hash (sample Examples.scan_as_pdf))))))
          = Z.abs (rolling_hash (sample Examples.scan_as_pdf)).
Proof.
  apply (file_key_content_addressed Examples.scan_as_pdf Examples.scan_later);
    reflexivity.
Defined.

(** Two files with the same name, size and bytes whose declared media types
    differ get different keys: the kind of the key follows the PDF
    validator. *)
Lemma file_key_depends_on_type :
  File.name Examples.scan_as_pdf = File.name Examples.scan_as_png
  /\ File.size Examples.scan_as_pdf = File.size Examples.scan_as_png
  /\ sample Examples.scan_as_pdf = sample Examples.scan_as_png
  /\ getCacheKey (FileInput Examples.scan_as_pdf)
     = [KStr "ocr"; KStr "file-document"; KStr "scan-4-pbil"; KNum 4; KNum 0]
  /\ getCacheKey (FileInput Examples.scan_as_png)
     = [KStr "ocr"; KStr "file-image"; KStr "scan-4-pbil"; KNum 4; KNum 0]
  /\ getCacheKey (FileInput Examples.scan_as_pdf)
     <> getCacheKey (FileInput Examples.scan_as_png).
Proof.
  repeat split; try reflexivity. vm_compute. discriminate.
Qed.

(** ** File validation *)

(** C10. A file of 0 bytes or of more than 10485760 bytes is refused by the
    PDF validator and by the image validator, whatever its media type and
    name, and its cache key is therefore of the kind file-image. *)
Theorem validators_reject_by_size (file : File.t) :
  File.size file = 0%N \/ (10485760 < File.size file)%N ->
  isValidPdfFile file = false
  /\ isValidImageFile file = false
  /\ getCacheKey (FileInput file)
     = ocrKeys.fileImage (generateFileHash file) (File.size file) 0.
Proof.
  intros Hsize.
  assert (Hgate : (0 <? File.size file)%N && (File.size file <=? MAX_FILE_SIZE)%N = false).
  { change MAX_FILE_SIZE with 10485760%N. destruct Hsize as [H0 | Hbig].
    - rewrite H0. reflexivity.
    - apply andb_false_iff. right. apply N.leb_gt. exact Hbig. }
  assert (Hpdf : isValidPdfFile file = false).
  { unfold isValidPdfFile, pdfFileSchema. rewrite Hgate. reflexivity. }
  split; [exact Hpdf|]. split.
  - unfold isValidImageFile, imageFileSchema. rewrite Hgate. reflexivity.
  - unfold getCacheKey. rewrite Hpdf. reflexivity.
Qed.

Lemma validators_reject_by_size_witness :
  isValidPdfFile Examples.empty_pdf = false
  /\ isValidImageFile Examples.empty_pdf = false
  /\ getCacheKey (FileInput Examples.empty_pdf)
     = ocrKeys.fileImage (generateFileHash Examples.empty_pdf)
         (File.size Examples.empty_pdf) 0.
Proof.
  apply (validators_reject_by_size Examples.empty_pdf). left. reflexivity.
Defined.

(** ** The matcher *)

Section Matcher.

Lemma test_ok (r : RegExp.regex) (s : string) :
  RegExp.test r s = ok (RegExp.exec r s).
Proof.
  unfold RegExp.test. destruct (RegExp.exec r s); reflexivity.
Qed.

(** [p*] followed by a continuation. *)
Lemma star_chars {A : Type} (p : ascii -> bool) (k : RegExp.cont A)
    (cs : RegExp.captures) (fuel : nat) (prev : option ascii) (s : string) :
  (String.length s <= fuel)%nat ->
  ok (RegExp.star_iter (RegExp.run (RegExp.Chr p)) fuel cs prev s k)
  = chars_then p (fun prev' s' => ok (k cs prev' s')) prev s.
Proof.
  revert prev s. induction fuel as [|fuel IH]; intros prev s Hlen.
  - destruct s; [reflexivity | simpl in Hlen; lia].
  - destruct s as [|c s]; simpl.
    + destruct (k cs prev EmptyString); reflexivity.
    + destruct (p c); simpl.
      * destruct (Nat.ltb_spec (String.length s) (S (String.length s))) as [_|Hbad];
          [|lia].
        rewrite <- IH by (simpl in Hlen; lia).
        destruct (RegExp.star_iter _ _ _ _ _ _); reflexivity.
      * reflexivity.
Qed.

Lemma run_star_chars {A : Type} (p : ascii -> bool) (k : RegExp.cont A)
    (cs : RegExp.captures) (prev : option ascii) (s : string) :
  ok (RegExp.run (RegExp.Star (RegExp.Chr p)) cs prev s k)
  = chars_then p (fun prev' s' => ok (k cs prev' s')) prev s.
Proof.
  change (RegExp.run (RegExp.Star (RegExp.Chr p)) cs prev s k)
    with (RegExp.star_iter (RegExp.run (RegExp.Chr p)) (String.length s) cs prev s k).
  apply star_chars. lia.
Qed.

Lemma chars_then_ext (p : ascii -> bool) (f g : option ascii -> string -> bool)
    (prev : option ascii) (s : string) :
  (forall prev' s', f prev' s' = g prev' s') ->
  chars_then p f prev s = chars_then p g prev s.
Proof.
  intros Hfg. revert prev. induction s as [|c s IH]; intros prev; simpl.
  - apply Hfg.
  - rewrite IH, Hfg. reflexivity.
Qed.

(** A pattern anchored by [^] matches at the start of the input only. *)
Lemma search_anchored (r : RegExp.regex) (c : ascii) (s : string) :
  RegExp.search (RegExp.Seq RegExp.Bol r) (Some c) s = None.
Proof.
  revert c. induction s as [|c' s IH]; intros c; simpl; [reflexivity | apply IH].
Qed.

Lemma exec_anchored (r : RegExp.regex) (s : string) :
  RegExp.exec (RegExp.Seq RegExp.Bol r) s
  = RegExp.exec_at (RegExp.Seq RegExp.Bol r) None s.
Proof.
  unfold RegExp.exec. destruct s as [|c s]; simpl.
  - destruct (RegExp.exec_at _ _ _); reflexivity.
  - destruct (RegExp.exec_at _ _ _); [reflexivity | apply search_anchored].
Qed.

(** A pattern that does not look at the code unit before a position is
    found by trying every suffix. *)
Lemma search_anywhere_lower (r : RegExp.regex) (f : string -> bool) (s : string) :
  (forall prev t, no_upper t = true -> ok (RegExp.exec_at r prev t) = f t) ->
  no_upper s = true ->
  forall prev, ok (RegExp.search r prev s) = anywhere f s.
Proof.
  intros Hf. induction s as [|c s IH]; intros Hno prev; simpl.
  - rewrite <- (Hf prev) by exact Hno.
    destruct (RegExp.exec_at r prev EmptyString); reflexivity.
  - rewrite <- (Hf prev) by exact Hno.
    simpl in Hno. apply andb_true_iff in Hno as [_ Hno].
    rewrite <- (IH Hno (Some c)).
    destruct (RegExp.exec_at r prev (String c s)); reflexivity.
Qed.

Lemma anywhere_orb (f g : string -> bool) (s : string) :
  anywhere (fun t => f t || g t) s = anywhere f s || anywhere g s.
Proof.
  induction s as [|c s IH]; simpl.
  - destruct (f EmptyString), (g EmptyString); reflexivity.
  - rewrite IH. destruct (f (String c s)), (g (String c s)), (anywhere f s); reflexivity.
Qed.

Lemma anywhere_false (s : string) : anywhere (fun _ => false) s = false.
Proof. induction s as [|c s IH]; simpl; [reflexivity | exact IH]. Qed.

Lemma includes_anywhere (s p : string) :
  includes s p = anywhere (fun t => startsWith t p) s.
Proof. induction s as [|c s IH]; simpl; [reflexivity | rewrite IH; reflexivity]. Qed.

Lemma anywhere_too_short (p s : string) :
  (String.length s < String.length p)%nat ->
  anywhere (fun t => String.eqb t p) s = false.
Proof.
  induction s as [|c s IH]; intros Hlen.
  - cbn [anywhere]. destruct (String.eqb_spec EmptyString p) as [<- | _];
      [simpl in Hlen; lia | reflexivity].
  - cbn [anywhere]. rewrite IH by (simpl in Hlen; lia).
    destruct (String.eqb_spec (String c s) p) as [<- | _]; [lia | reflexivity].
Qed.

Lemma endsWith_anywhere (s p : string) :
  endsWith s p = anywhere (fun t => String.eqb t p) s.
Proof.
  induction s as [|c s IH].
  - cbn [endsWith anywhere]. rewrite orb_false_r. apply String.eqb_sym.
  - cbn [endsWith anywhere].
    destruct (Nat.ltb_spec (String.length p) (String.length (String c s))) as [Hlt | Hge].
    + rewrite IH. destruct (String.eqb_spec (String c s) p) as [<- | _]; [lia | reflexivity].
    + rewrite anywhere_too_short by (simpl in Hge; lia). rewrite orb_false_r. reflexivity.
Qed.

(** Letters and case. *)
Lemma lower_char_not_upper (c : ascii) : is_upper (lower_char c) = false.
Proof. destruct c as [[] [] [] [] [] [] [] []]; reflexivity. Qed.

Lemma lower_char_lower (c : ascii) : is_lower c = true -> lower_char c = c.
Proof.
  destruct c as [[] [] [] [] [] [] [] []]; intros Hc; try discriminate Hc; reflexivity.
Qed.

Lemma toLowerCase_no_upper (s : string) : no_upper (toLowerCase s) = true.
Proof.
  induction s as [|c s IH]; simpl; [reflexivity|].
  rewrite lower_char_not_upper, IH. reflexivity.
Qed.

(** Under the i flag a lower-case letter of a pattern matches, among the
    code units that are not capital letters, itself only. *)
Lemma chr_i_pred (l c : ascii) :
  is_lower l = true -> is_upper c = false ->
  Ascii.eqb (lower_char l) (lower_char c) && is_alpha c = Ascii.eqb l c.
Proof.
  intros Hl Hc. rewrite (lower_char_lower l Hl). unfold is_alpha. rewrite Hc. cbn [orb].
  destruct (is_lower c) eqn:Hlc.
  - rewrite (lower_char_lower c Hlc). apply andb_true_r.
  - rewrite andb_false_r. symmetry. apply Ascii.eqb_neq. intros <-. congruence.
Qed.

End Matcher.

(** ** Raw base64 text *)

Section Base64_text.

Lemma padding_then_end (prev : option ascii) (s : string) :
  chars_then (Ascii.eqb "=")
    (fun _ s' => match s' with EmptyString => true | String _ _ => false end) prev s
  = all_padding s.
Proof.
  revert prev. induction s as [|c s IH]; intros prev; simpl; [reflexivity|].
  rewrite IH. apply orb_false_r.
Qed.

Lemma base64_char_not_padding (c : ascii) :
  is_base64_char c = true -> Ascii.eqb "=" c = false.
Proof.
  intros Hc. destruct (Ascii.eqb_spec "=" c) as [<-|]; [discriminate Hc | reflexivity].
Qed.

Lemma alphabet_then_padding (prev : option ascii) (s : string) :
  chars_then is_base64_char (fun _ s' => all_padding s') prev s = base64_tail s.
Proof.
  revert prev. induction s as [|c s IH]; intros prev; [reflexivity|].
  cbn [chars_then base64_tail]. rewrite IH.
  destruct (is_base64_char c) eqn:Hc; [|reflexivity].
  cbn [all_padding]. rewrite (base64_char_not_padding c Hc). apply orb_false_r.
Qed.

(** The pattern [/^[A-Za-z0-9+/]+=*$/] accepts exactly the texts made of
    code units of the base64 alphabet, at least one, then padding. *)
Lemma base64_re_text (s : string) : RegExp.test base64_re s = base64_text s.
Proof.
  rewrite test_ok. unfold base64_re. cbn [RegExp.seqs]. rewrite exec_anchored.
  destruct s as [|c s]; [reflexivity|].
  unfold RegExp.exec_at, RegExp.plus.
  set (k0 := fun (cs : RegExp.captures) (_ : option ascii) (s' : string) =>
               Some (RegExp.MatchResult (RegExp.consumed (String c s) s') cs s')).
  change (RegExp.run _ [] None (String c s) k0)
    with (if is_base64_char c
          then RegExp.run (RegExp.Star (RegExp.Chr is_base64_char)) [] (Some c) s
                 (fun cs' prev' s' =>
                    RegExp.run (RegExp.Star (RegExp.Chr (Ascii.eqb "="))) cs' prev' s'
                      (fun cs'' prev'' s'' => RegExp.run RegExp.Eol cs'' prev'' s'' k0))
          else None).
  cbn [base64_text]. destruct (is_base64_char c); [|reflexivity].
  rewrite run_star_chars. cbn [andb].
  rewrite <- alphabet_then_padding with (prev := Some c).
  apply chars_then_ext. intros prev' s'.
  rewrite run_star_chars, <- padding_then_end with (prev := prev').
  apply chars_then_ext. intros prev'' s''. destruct s''; reflexivity.
Qed.

End Base64_text.

(** ** The input classifier *)

Section Classifier.
Context {platform : Platform}.

Lemma trimStart_blank (s : string) : whitespace_only s = true -> trimStart s = EmptyString.
Proof.
  induction s as [|c s IH]; simpl; [reflexivity|].
  destruct (is_white c); [exact IH | discriminate].
Qed.

Lemma trim_blank (s : string) : whitespace_only s = true -> trim s = EmptyString.
Proof.
  intros Hs. unfold trim. rewrite trimStart_blank by exact Hs. reflexivity.
Qed.

(** The [URL] constructor throws on the empty string, whatever the
    platform does after a scheme. *)
Lemma validateUrl_empty : validateUrl EmptyString = false.
Proof. reflexivity. Qed.

(** The branch of the classifier for raw base64 text. *)
Lemma detect_raw (input : string) :
  validateUrl (trim input) = false ->
  isDataUrl (trim input) = false ->
  detectInputType input =
  if (50 <? String.length (trim input))%nat && base64_text (trim input)
  then {| inputType := InputBase64; contentType := sniff (trim input);
          value := trim input |}
  else {| inputType := InputUnknown; contentType := ContentUnknown;
          value := trim input |}.
Proof.
  intros Hurl Hdata. unfold detectInputType. cbv zeta.
  rewrite Hurl, Hdata, base64_re_text.
  destruct ((50 <? String.length (trim input))%nat && base64_text (trim input));
    [|reflexivity].
  unfold sniff. destruct (startsWith (trim input) "JVBERi0"); [reflexivity|].
  destruct (startsWith (trim input) "iVBORw0KGgo" || startsWith (trim input) "/9j/"
            || startsWith (trim input) "R0lGOD"); reflexivity.
Qed.

(** A text with an image signature does not have the PDF signature. *)
Lemma image_signature_not_pdf (text : string) :
  startsWith text "iVBORw0KGgo" = true \/ startsWith text "/9j/" = true
  \/ startsWith text "R0lGOD" = true ->
  startsWith text "JVBERi0" = false.
Proof.
  destruct text as [|c text]; [reflexivity|].
  intros [Hsig | [Hsig | Hsig]]; cbn [startsWith] in Hsig |- *;
    apply andb_true_iff in Hsig as [Hc _];
    apply Ascii.eqb_eq in Hc; subst c; reflexivity.
Qed.

(** C7. A trimmed input that is neither a URL nor a data URL, is longer
    than 50 code units and consists of code units of the base64 alphabet
    followed by optional [=] padding is classified as base64; its content
    type is pdf when it starts with JVBERi0, image when it starts with
    iVBORw0KGgo, /9j/ or R0lGOD, and unknown otherwise. *)
Theorem classify_raw_base64 (input : string) :
  validateUrl (trim input) = false ->
  isDataUrl (trim input) = false ->
  (50 < String.length (trim input))%nat ->
  base64_text (trim input) = true ->
  let text := trim input in
  let detected := detectInputType input in
  inputType detected = InputBase64
  /\ value detected = text
  /\ (startsWith text "JVBERi0" = true -> contentType detected = ContentPdf)
  /\ (startsWith text "iVBORw0KGgo" = true \/ startsWith text "/9j/" = true
      \/ startsWith text "R0lGOD" = true -> contentType detected = ContentImage)
  /\ (startsWith text "JVBERi0" = false -> startsWith text "iVBORw0KGgo" = false ->
      startsWith text "/9j/" = false -> startsWith text "R0lGOD" = false ->
      contentType detected = ContentUnknown).
Proof.
  intros Hurl Hdata Hlen Htext text detected. subst detected.
  rewrite (detect_raw input Hurl Hdata). fold text in Htext, Hlen |- *.
  apply Nat.ltb_lt in Hlen. rewrite Hlen, Htext. cbn [andb inputType value contentType].
  split; [reflexivity|]. split; [reflexivity|]. unfold sniff.
  split; [intros ->; reflexivity|]. split.
  - intros Hsig. rewrite (image_signature_not_pdf text Hsig).
    destruct Hsig as [-> | [-> | ->]]; rewrite ?orb_true_r; reflexivity.
  - intros -> -> -> ->. reflexivity.
Qed.

(** C8. An input that is empty or made of whitespace only is classified
    as unknown/unknown.  The classifier is a total function: the only
    operation of it that can throw, the [URL] constructor, is caught by the
    URL schema, and every string has a classification. *)
Theorem classify_blank (input : string) :
  whitespace_only input = true ->
  detectInputType input
  = {| inputType := InputUnknown; contentType := ContentUnknown; value := EmptyString |}
  /\ (forall s : string, exists d : DetectedInput, detectInputType s = d).
Proof.
  intros Hblank. split; [|intros s; eexists; reflexivity].
  rewrite detect_raw; rewrite (trim_blank input Hblank); reflexivity.
Qed.

End Classifier.

Lemma classify_raw_base64_witness :
  let detected := @detectInputType Reference.platform Examples.pdf_base64 in
  inputType detected = InputBase64
  /\ value detected = Examples.pdf_base64
  /\ contentType detected = ContentPdf.
Proof.
  intros detected.
  destruct (@classify_raw_base64 Reference.platform Examples.pdf_base64)
    as (Htype & Hvalue & Hpdf & _); try (vm_compute; reflexivity).
  - vm_compute. lia.
  - split; [exact Htype|]. split; [exact Hvalue|]. apply Hpdf. reflexivity.
Defined.

Lemma classify_blank_witness :
  @detectInputType Reference.platform "   "
  = {| inputType := InputUnknown; contentType := ContentUnknown; value := EmptyString |}
  /\ (forall s : string, exists d : DetectedInput, @detectInputType Reference.platform s = d).
Proof.
  apply (@classify_blank Reference.platform "   "). reflexivity.
Defined.

(** ** URLs by extension *)

(** Symbolic evaluation of a match attempt on a text that is taken apart one
    code unit at a time. *)
Ltac split_string t :=
  let c := fresh "c" in
  let Hc := fresh "Hc" in
  match goal with
  | H : no_upper t = true |- _ =>
      destruct t as [|c t];
      [ clear H
      | cbn [no_upper] in H; apply andb_true_iff in H as [Hc H];
        apply negb_true_iff in Hc ]
  end.

Ltac orient_tests :=
  repeat match goal with
         | |- context [Ascii.eqb ?c ?l] => is_var c; rewrite (Ascii.eqb_sym c l)
         end.

Ltac eval_literal_tests :=
  repeat match goal with
         | |- context [Ascii.eqb (Ascii ?a0 ?a1 ?a2 ?a3 ?a4 ?a5 ?a6 ?a7)
                                 (Ascii ?b0 ?b1 ?b2 ?b3 ?b4 ?b5 ?b6 ?b7)] =>
             let v := eval vm_compute in
                        (Ascii.eqb (Ascii a0 a1 a2 a3 a4 a5 a6 a7)
                                   (Ascii b0 b1 b2 b3 b4 b5 b6 b7)) in
             change (Ascii.eqb (Ascii a0 a1 a2 a3 a4 a5 a6 a7)
                               (Ascii b0 b1 b2 b3 b4 b5 b6 b7)) with v
         end.

Ltac reduce_match :=
  eval_literal_tests;
  cbn [RegExp.seqs RegExp.alts RegExp.lit_i RegExp.chr_i RegExp.chr RegExp.opt
       RegExp.run existsb String.eqb startsWith ok andb orb].

Ltac match_step :=
  first
    [ progress (rewrite ?chr_i_pred by (reflexivity || assumption))
    | progress orient_tests
    | match goal with
      | |- context [Ascii.eqb ?l ?c] =>
          is_var c; destruct (Ascii.eqb_spec l c) as [<- | ?]
      end
    | match goal with
      | |- context [match ?t with EmptyString => _ | String _ _ => _ end] =>
          is_var t; split_string t
      end ];
  reduce_match.

(** A match attempt of the image pattern at one position of a lower-cased
    text. *)
Lemma image_at (prev : option ascii) (t : string) :
  no_upper t = true ->
  ok (RegExp.exec_at image_url_re prev t)
  = existsb (fun ext => String.eqb t ext || startsWith t (ext +:+ "?")) VALID_IMAGE_EXTENSIONS.
Proof.
  intros Hno. unfold RegExp.exec_at, image_url_re, image_ext_re, VALID_IMAGE_EXTENSIONS.
  cbn [existsb].
  repeat match goal with
         | |- context [String.append ?a ?b] =>
             let v := eval vm_compute in (String.append a b) in
             change (String.append a b) with v
         end.
  split_string t; [reflexivity|]. reduce_match.
  repeat match_step.
  all: try reflexivity.
  all: destruct t; reflexivity.
Qed.

(** On a lower-cased URL, [/\.(png|jpe?g|avif|webp|gif)(\?|$)/i] finds a match
    exactly when the URL ends in one of the image extensions or contains one
    followed by a question mark. *)
Lemma image_url_re_lower (u : string) :
  no_upper u = true ->
  RegExp.test image_url_re u
  = existsb (fun ext => endsWith u ext || includes u (ext +:+ "?")) VALID_IMAGE_EXTENSIONS.
Proof.
  intros Hno. rewrite test_ok. unfold RegExp.exec.
  rewrite (search_anywhere_lower image_url_re _ u (fun prev t => image_at prev t) Hno).
  unfold VALID_IMAGE_EXTENSIONS. cbn [existsb].
  rewrite !anywhere_orb, anywhere_false, <- !endsWith_anywhere, <- !includes_anywhere.
  reflexivity.
Qed.

Section Classifier_urls.
Context {platform : Platform}.

Lemma validateUrl_https (url rest : string) :
  URL.scheme_start_state
    (URL.remove_tab_newline (URL.strip_end (URL.strip_start url)))
  = Some ("https", rest) ->
  parses_after_scheme "https" rest = true ->
  validateUrl url = true.
Proof.
  intros Hscheme Hrest. unfold validateUrl, urlSchema, URL.protocol.
  rewrite Hscheme, Hrest. reflexivity.
Qed.

(** The branch of the classifier for URLs. *)
Lemma detect_url (input : string) :
  validateUrl (trim input) = true ->
  detectInputType input =
  {| inputType := InputUrl;
     contentType := if ends_in ".pdf" (trim input) then ContentPdf
                    else if ends_in_image (trim input) then ContentImage
                    else ContentUnknown;
     value := trim input |}.
Proof.
  intros Hurl. unfold detectInputType. cbv zeta. rewrite Hurl.
  unfold ends_in_image, ends_in.
  rewrite (image_url_re_lower _ (toLowerCase_no_upper (trim input))).
  destruct (endsWith (toLowerCase (trim input)) ".pdf"
            || includes (toLowerCase (trim input)) ".pdf?") eqn:Hpdf.
  - change (".pdf" +:+ "?") with ".pdf?". rewrite Hpdf. reflexivity.
  - change (".pdf" +:+ "?") with ".pdf?". rewrite Hpdf.
    destruct (existsb _ VALID_IMAGE_EXTENSIONS); reflexivity.
Qed.

(** C6, amended. A trimmed input that parses as an absolute http or https
    URL is classified as a URL.  Its content type is pdf when the URL
    ends, case-insensitively, in .pdf (a trailing query string allowed);
    otherwise image when it ends in one of .png, .jpg, .jpeg, .avif, .webp,
    .gif (a trailing query string allowed); otherwise unknown.  In
    particular, on a platform whose URL parser accepts them,
    https://a.com/x.pdf is url/pdf, https://a.com/x.png?q=1 is url/image
    and https://a.com/x is url/unknown. *)
Theorem classify_url (input : string) :
  validateUrl (trim input) = true ->
  let url := trim input in
  let detected := detectInputType input in
  (inputType detected = InputUrl
   /\ value detected = url
   /\ (ends_in ".pdf" url = true -> contentType detected = ContentPdf)
   /\ (ends_in ".pdf" url = false -> ends_in_image url = true ->
       contentType detected = ContentImage)
   /\ (ends_in ".pdf" url = false -> ends_in_image url = false ->
       contentType detected = ContentUnknown))
  /\ (parses_after_scheme "https" "//a.com/x.pdf" = true ->
      detectInputType "https://a.com/x.pdf"
      = {| inputType := InputUrl; contentType := ContentPdf;
           value := "https://a.com/x.pdf" |})
  /\ (parses_after_scheme "https" "//a.com/x.png?q=1" = true ->
      detectInputType "https://a.com/x.png?q=1"
      = {| inputType := InputUrl; contentType := ContentImage;
           value := "https://a.com/x.png?q=1" |})
  /\ (parses_after_scheme "https" "//a.com/x" = true ->
      detectInputType "https://a.com/x"
      = {| inputType := InputUrl; contentType := ContentUnknown;
           value := "https://a.com/x" |}).
Proof.
  intros Hurl url detected. subst detected. split.
  - rewrite (detect_url input Hurl). fold url. cbn [inputType value contentType].
    split; [reflexivity|]. split; [reflexivity|].
    split; [intros ->; reflexivity|].
    split; intros -> ->; reflexivity.
  - repeat split; intros Hparses;
      (rewrite detect_url;
       [reflexivity | eapply validateUrl_https; [reflexivity | exact Hparses]]).
Qed.

End Classifier_urls.

Lemma classify_url_witness :
  @detectInputType Reference.platform "  https://a.com/Scan.PDF?page=2 "
  = {| inputType := InputUrl; contentType := ContentPdf;
       value := "https://a.com/Scan.PDF?page=2" |}
  /\ @detectInputType Reference.platform "https://a.com/x.pdf"
     = {| inputType := InputUrl; contentType := ContentPdf;
          value := "https://a.com/x.pdf" |}
  /\ @detectInputType Reference.platform "https://a.com/x.png?q=1"
     = {| inputType := InputUrl; contentType := ContentImage;
          value := "https://a.com/x.png?q=1" |}
  /\ @detectInputType Reference.platform "https://a.com/x"
     = {| inputType := InputUrl; contentType := ContentUnknown;
          value := "https://a.com/x" |}.
Proof.
  destruct (@classify_url Reference.platform "  https://a.com/Scan.PDF?page=2 " eq_refl)
    as [(Htype & Hvalue & Hpdf & _) (Hex1 & Hex2 & Hex3)].
  split.
  - specialize (Hpdf eq_refl).
    destruct (@detectInputType Reference.platform "  https://a.com/Scan.PDF?page=2 ")
      as [it ct v].
    cbn [inputType value contentType] in Htype, Hvalue, Hpdf.
    rewrite Htype, Hvalue, Hpdf. reflexivity.
  - split; [exact (Hex1 eq_refl)|]. split; [exact (Hex2 eq_refl) | exact (Hex3 eq_refl)].
Defined.

(** A URL that ends in .png with a trailing query string and is classified
    as a PDF, because the query string ends in .pdf. *)
Lemma classify_url_png_as_pdf :
  @validateUrl Reference.platform (trim Examples.png_with_pdf_query) = true
  /\ ends_in_image (trim Examples.png_with_pdf_query) = true
  /\ includes (toLowerCase (trim Examples.png_with_pdf_query)) ".png?" = true
  /\ contentType (@detectInputType Reference.platform Examples.png_with_pdf_query)
     = ContentPdf
  /\ contentType (@detectInputType Reference.platform Examples.png_with_pdf_query)
     <> ContentImage.
Proof.
  repeat split; try reflexivity. vm_compute. discriminate.
Qed.

(** ** The multi-URL detector *)

Section Scan.

Lemma consumed_prefix (u v : string) : RegExp.consumed (u +:+ v) v = u.
Proof.
  unfold RegExp.consumed. rewrite length_append.
  replace (String.length u + String.length v - String.length v)%nat
    with (String.length u) by lia.
  apply substring_prefix.
Qed.

Lemma star_iter_inv {A : Type}
    (body : RegExp.captures -> option ascii -> string -> RegExp.cont A -> option A) :
  (forall cs prev s k a, body cs prev s k = Some a -> reaches k s a) ->
  forall fuel cs prev s k a,
    RegExp.star_iter body fuel cs prev s k = Some a -> reaches k s a.
Proof.
  intros Hbody. induction fuel as [|fuel IH]; intros cs prev s k a Hrun; simpl in Hrun.
  - exists cs, prev, EmptyString, s. split; [reflexivity | exact Hrun].
  - destruct (body cs prev s _) as [a'|] eqn:Hb.
    + injection Hrun as ->. apply Hbody in Hb as (cs1 & p1 & u1 & s1 & Hs & Hk).
      destruct (String.length s1 <? String.length s)%nat; [|discriminate].
      apply IH in Hk as (cs2 & p2 & u2 & s2 & Hs2 & Hk2).
      exists cs2, p2, (u1 +:+ u2), s2. split; [|exact Hk2].
      rewrite Hs, Hs2. symmetry. apply append_assoc.
    + exists cs, prev, EmptyString, s. split; [reflexivity | exact Hrun].
Qed.

Lemma run_inv {A : Type} (r : RegExp.regex) :
  forall cs prev s (k : RegExp.cont A) a,
    RegExp.run r cs prev s k = Some a -> reaches k s a.
Proof.
  induction r as [|p|r1 IH1 r2 IH2|r1 IH1 r2 IH2|r IH|i r IH| | |];
    intros cs prev s k a Hrun; cbn [RegExp.run] in Hrun.
  - exists cs, prev, EmptyString, s. split; [reflexivity | exact Hrun].
  - destruct s as [|c s]; [discriminate|]. destruct (p c); [|discriminate].
    exists cs, (Some c), (String c EmptyString), s. split; [reflexivity | exact Hrun].
  - apply IH1 in Hrun as (cs1 & p1 & u1 & s1 & Hs & Hk).
    apply IH2 in Hk as (cs2 & p2 & u2 & s2 & Hs2 & Hk2).
    exists cs2, p2, (u1 +:+ u2), s2. split; [|exact Hk2].
    rewrite Hs, Hs2. symmetry. apply append_assoc.
  - destruct (RegExp.run r1 cs prev s k) as [a'|] eqn:H1.
    + injection Hrun as ->. exact (IH1 _ _ _ _ _ H1).
    + exact (IH2 _ _ _ _ _ Hrun).
  - exact (star_iter_inv (RegExp.run r) IH _ _ _ _ _ _ Hrun).
  - apply IH in Hrun as (cs1 & p1 & u1 & s1 & Hs & Hk).
    exists ((i, RegExp.consumed s s1) :: cs1), p1, u1, s1. split; assumption.
  - destruct (xorb _ _); [|discriminate].
    exists cs, prev, EmptyString, s. split; [reflexivity | exact Hrun].
  - destruct prev; [discriminate|].
    exists cs, None, EmptyString, s. split; [reflexivity | exact Hrun].
  - destruct s; [|discriminate].
    exists cs, prev, EmptyString, EmptyString. split; [reflexivity | exact Hrun].
Qed.

(** A match and the rest after it make up the input. *)
Lemma exec_at_split (r : RegExp.regex) (prev : option ascii) (s : string)
    (m : RegExp.match_result) :
  RegExp.exec_at r prev s = Some m -> s = RegExp.matched m +:+ RegExp.rest m.
Proof.
  intros Hexec. apply run_inv in Hexec as (cs & p & u & s' & Hs & Hk).
  injection Hk as <-. cbn [RegExp.matched RegExp.rest].
  rewrite Hs at 2. rewrite consumed_prefix. exact Hs.
Qed.

(** The pieces of a scan that has [skip] code units of a match still to
    pass over make up the input after these code units. *)
Lemma scan_text (r : RegExp.regex) (s : string) :
  forall prev skip u v,
    s = u +:+ v -> String.length u = skip ->
    text_of_segments (RegExp.scan r prev s skip) = v.
Proof.
  induction s as [|c s IH]; intros prev skip u v Hs Hskip.
  - destruct u; [|discriminate]. change (EmptyString +:+ v) with v in Hs. subst v.
    simpl in Hskip. subst skip. simpl.
    destruct (RegExp.exec_at r prev EmptyString); reflexivity.
  - destruct u as [|c' u].
    + change (EmptyString +:+ v) with v in Hs. subst v. simpl in Hskip. subst skip.
      cbn [RegExp.scan].
      destruct (RegExp.exec_at r prev (String c s)) as [m|] eqn:Hexec.
      * apply exec_at_split in Hexec.
        destruct (RegExp.matched m) as [|c1 u1] eqn:Hm; cbn [String.length].
        -- cbn [text_of_segments RegExp.text_of].
           rewrite (IH (Some c) 0%nat EmptyString s eq_refl eq_refl). reflexivity.
        -- rewrite append_cons in Hexec. injection Hexec as <- Hs.
           cbn [text_of_segments RegExp.text_of].
           rewrite (IH (Some c) (String.length u1) u1 (RegExp.rest m) Hs eq_refl).
           rewrite append_cons. rewrite <- Hs. reflexivity.
      * cbn [text_of_segments RegExp.text_of].
        rewrite (IH (Some c) 0%nat EmptyString s eq_refl eq_refl). reflexivity.
    + rewrite append_cons in Hs. injection Hs as <- Hs.
      simpl in Hskip. subst skip. cbn [RegExp.scan].
      exact (IH (Some c) (String.length u) u v Hs eq_refl).
Qed.

Lemma scan_partition (r : RegExp.regex) (s : string) :
  text_of_segments (RegExp.scan r None s 0) = s.
Proof. exact (scan_text r s None 0%nat EmptyString s eq_refl eq_refl). Qed.

End Scan.

(** *** Fuel *)

Section Fuel.

Lemma agree_suffix {A : Type} (k1 k2 : RegExp.cont A) (s u s' : string) :
  agree k1 k2 s -> s = u +:+ s' -> agree k1 k2 s'.
Proof.
  intros Hk Hs cs prev u' s'' Hs'. apply (Hk cs prev (u +:+ u') s'').
  rewrite Hs, Hs'. symmetry. apply append_assoc.
Qed.

Lemma agree_here {A : Type} (k1 k2 : RegExp.cont A) (s : string) :
  agree k1 k2 s -> forall cs prev, k1 cs prev s = k2 cs prev s.
Proof. intros Hk cs prev. exact (Hk cs prev EmptyString s eq_refl). Qed.

Lemma star_iter_ext {A : Type}
    (body : RegExp.captures -> option ascii -> string -> RegExp.cont A -> option A) :
  (forall cs prev s k1 k2, agree k1 k2 s -> body cs prev s k1 = body cs prev s k2) ->
  forall fuel cs prev s k1 k2,
    agree k1 k2 s ->
    RegExp.star_iter body fuel cs prev s k1 = RegExp.star_iter body fuel cs prev s k2.
Proof.
  intros Hbody. induction fuel as [|fuel IH]; intros cs prev s k1 k2 Hk; simpl.
  - apply agree_here, Hk.
  - rewrite (agree_here k1 k2 s Hk cs prev).
    erewrite Hbody; [reflexivity|].
    intros cs' prev' u s' Hs.
    destruct (String.length s' <? String.length s)%nat; [|reflexivity].
    apply IH. exact (agree_suffix k1 k2 s u s' Hk Hs).
Qed.

(** A run depends on its continuation through the suffixes of the input
    only. *)
Lemma run_ext {A : Type} (r : RegExp.regex) :
  forall cs prev s (k1 k2 : RegExp.cont A),
    agree k1 k2 s -> RegExp.run r cs prev s k1 = RegExp.run r cs prev s k2.
Proof.
  induction r as [|p|r1 IH1 r2 IH2|r1 IH1 r2 IH2|r IH|i r IH| | |];
    intros cs prev s k1 k2 Hk; cbn [RegExp.run].
  - apply agree_here, Hk.
  - destruct s as [|c s]; [reflexivity|]. destruct (p c); [|reflexivity].
    exact (Hk cs (Some c) (String c EmptyString) s eq_refl).
  - apply IH1. intros cs' prev' u s' Hs. apply IH2.
    exact (agree_suffix k1 k2 s u s' Hk Hs).
  - rewrite (IH1 cs prev s k1 k2 Hk), (IH2 cs prev s k1 k2 Hk). reflexivity.
  - apply star_iter_ext; [exact IH | exact Hk].
  - apply IH. intros cs' prev' u s' Hs. exact (Hk _ prev' u s' Hs).
  - rewrite (agree_here k1 k2 s Hk). reflexivity.
  - rewrite (agree_here k1 k2 s Hk). reflexivity.
  - rewrite (agree_here k1 k2 s Hk). reflexivity.
Qed.

(** One more unit of fuel than the length of the text changes nothing. *)
Lemma star_iter_succ {A : Type} (r : RegExp.regex) (k : RegExp.cont A) :
  forall fuel cs prev s,
    (String.length s <= fuel)%nat ->
    RegExp.star_iter (RegExp.run r) (S fuel) cs prev s k
    = RegExp.star_iter (RegExp.run r) fuel cs prev s k.
Proof.
  induction fuel as [|fuel IH]; intros cs prev s Hlen.
  - destruct s; [|simpl in Hlen; lia]. cbn [RegExp.star_iter].
    destruct (RegExp.run r cs prev EmptyString _) as [a|] eqn:Hrun; [|reflexivity].
    apply run_inv in Hrun as (cs' & prev' & u & s' & _ & Hk).
    destruct (String.length s' <? String.length EmptyString)%nat eqn:Hlt;
      [apply Nat.ltb_lt in Hlt; simpl in Hlt; lia | discriminate].
  - change (RegExp.star_iter (RegExp.run r) (S (S fuel)) cs prev s k)
      with (match RegExp.run r cs prev s
                    (fun cs' prev' s' =>
                       if (String.length s' <? String.length s)%nat
                       then RegExp.star_iter (RegExp.run r) (S fuel) cs' prev' s' k
                       else None) with
            | Some a => Some a
            | None => k cs prev s
            end).
    change (RegExp.star_iter (RegExp.run r) (S fuel) cs prev s k)
      with (match RegExp.run r cs prev s
                    (fun cs' prev' s' =>
                       if (String.length s' <? String.length s)%nat
                       then RegExp.star_iter (RegExp.run r) fuel cs' prev' s' k
                       else None) with
            | Some a => Some a
            | None => k cs prev s
            end).
    erewrite run_ext; [reflexivity|].
    intros cs' prev' u s' Hs.
    destruct (Nat.ltb_spec (String.length s') (String.length s)) as [Hlt|]; [|reflexivity].
    apply IH. lia.
Qed.

(** [r*] does not depend on the fuel, once there is as much of it as the
    text is long. *)
Lemma star_iter_fuel {A : Type} (r : RegExp.regex) (k : RegExp.cont A)
    (cs : RegExp.captures) (prev : option ascii) (s : string) (extra : nat) :
  RegExp.star_iter (RegExp.run r) (String.length s + extra) cs prev s k
  = RegExp.run (RegExp.Star r) cs prev s k.
Proof.
  cbn [RegExp.run]. induction extra as [|extra IH].
  - rewrite Nat.add_0_r. reflexivity.
  - rewrite Nat.add_succ_r, star_iter_succ by lia. exact IH.
Qed.

End Fuel.

(** * Further properties *)

(** ** The cache after [process] *)

Section Cache_after_process.
Context {platform : Platform} {client : OCRClient}.

(** A Result that [process] returns is in the cache under the key of the
    input afterwards. *)
Lemma process_result_cached (apiKey : string) (input : OCRInputType) (w w' : World)
    (r : OCRResult.t) :
  mutationFn apiKey input w = (Return r, w') ->
  cache w' !! getCacheKey input = Some r.
Proof.
  rewrite mutationFn_run.
  destruct (cache w !! getCacheKey input) as [cached|] eqn:Hlook.
  { intros [= <- <-]. exact Hlook. }
  destruct (prepare apiKey input) as [request | e]; [|discriminate].
  destruct (ocr_process apiKey request) as [response elapsed | reason]; [|discriminate].
  destruct (ocrResultSchema _); [|discriminate].
  intros [= <- <-]. apply lookup_insert_eq.
Qed.

(** X1. Once [process] has returned a Result for an input, processing the
    same input again, with any API key, returns the same Result, sends no
    request and leaves the cache as it is. *)
Theorem process_twice (apiKey apiKey' : string) (input : OCRInputType)
    (w w' : World) (r : OCRResult.t) :
  mutationFn apiKey input w = (Return r, w') ->
  mutationFn apiKey' input w' = (Return r, w').
Proof.
  intros Hrun. apply process_result_cached in Hrun.
  rewrite mutationFn_run, Hrun. reflexivity.
Qed.

(** For an input that is not a file, [useCachedOCRResult] reads the cache
    under the key of the input. *)
Lemma useCachedOCRResult_key (input : OCRInputType) (w : World) :
  variant input <> 4%nat ->
  useCachedOCRResult (Some input) w = cache w !! getCacheKey input.
Proof.
  destruct input; intros Hv; try reflexivity. exfalso. apply Hv. reflexivity.
Qed.

(** X2. After [process] has returned a Result for a URL or base64 input,
    [useCachedOCRResult] finds that Result; for a file input it finds
    nothing, even just after the file has been processed. *)
Theorem useCachedOCRResult_after_process (apiKey : string) (input : OCRInputType)
    (w w' : World) (r : OCRResult.t) :
  mutationFn apiKey input w = (Return r, w') ->
  useCachedOCRResult (Some input) w'
  = if Nat.eqb (variant input) 4 then None else Some r.
Proof.
  intros Hrun. apply process_result_cached in Hrun.
  destruct input; cbn [variant Nat.eqb]; try exact Hrun. reflexivity.
Qed.

(** Every key of an input starts with the namespace. *)
Lemma getCacheKey_namespace (input : OCRInputType) :
  ocrKeys.all `prefix_of` getCacheKey input.
Proof.
  destruct input as [url | url | b64 mt | b64 mt | file]; cbn [getCacheKey];
    try (eexists; reflexivity).
  destruct (isValidPdfFile file); eexists; reflexivity.
Qed.

(** No key of an input starts with the key of the results. *)
Lemma getCacheKey_not_results (input : OCRInputType) :
  ¬ ocrKeys.results `prefix_of` getCacheKey input.
Proof.
  intros [rest Hrest].
  destruct input as [url | url | b64 mt | b64 mt | file]; cbn [getCacheKey] in Hrest;
    try discriminate Hrest.
  destruct (isValidPdfFile file); discriminate Hrest.
Qed.

(** X3. After [clearAll] the cache holds nothing under the key of any
    input, so the next [process] of any input is a miss; the log of requests
    is untouched. *)
Theorem clearAll_forgets (input : OCRInputType) (w : World) :
  cache (clearAll w) !! getCacheKey input = None
  /\ calls (clearAll w) = calls w.
Proof.
  split; [|reflexivity]. unfold clearAll, removeQueries. cbn [cache].
  apply map_lookup_filter_None. right. intros r _ Hnot. apply Hnot.
  apply getCacheKey_namespace.
Qed.

(** X4. [clearResults] removes none of the Results that [process] stores:
    under the key of every input the cache holds what it held before. *)
Theorem clearResults_keeps (input : OCRInputType) (w : World) :
  cache (clearResults w) !! getCacheKey input = cache w !! getCacheKey input.
Proof.
  unfold clearResults, removeQueries. cbn [cache].
  destruct (cache w !! getCacheKey input) as [r|] eqn:Hlook.
  - apply map_lookup_filter_Some. split; [exact Hlook|]. apply getCacheKey_not_results.
  - apply map_lookup_filter_None. left. exact Hlook.
Qed.

(** X5. Inputs of different variants never share a cache key, and the key
    of a URL input determines the URL. *)
Theorem getCacheKey_separates (input1 input2 : OCRInputType) :
  getCacheKey input1 = getCacheKey input2 ->
  variant input1 = variant input2
  /\ (forall url1 url2,
        input1 = UrlDocument url1 \/ input1 = UrlImage url1 ->
        input2 = UrlDocument url2 \/ input2 = UrlImage url2 -> input1 = input2).
Proof.
  intros Hkey.
  assert (Hvariant : variant input1 = variant input2).
  { destruct input1 as [u1 | u1 | b1 m1 | b1 m1 | f1],
             input2 as [u2 | u2 | b2 m2 | b2 m2 | f2];
      cbn [getCacheKey] in Hkey; try reflexivity; try discriminate Hkey;
      try (destruct (isValidPdfFile f1); discriminate Hkey);
      try (destruct (isValidPdfFile f2); discriminate Hkey). }
  split; [exact Hvariant|].
  intros url1 url2 [-> | ->] [-> | ->]; try discriminate Hvariant;
    cbn [getCacheKey] in Hkey; injection Hkey as ->; reflexivity.
Qed.

(** The Result of a miss passes the result schema and has a text that is not
    blank. *)
Lemma nonblank_extractText (response : OCRResponse.t) :
  OCRService.nonblank (OCRService.extractText response) = true.
Proof.
  unfold OCRService.extractText.
  destruct (OCRResponse.pages response) as [[|page pages]|]; try reflexivity.
  destruct (OCRService.nonblank (String.concat _ _)) eqn:Hn; [exact Hn | reflexivity].
Qed.

(** X6. If every Result of the cache passes the result schema, so does every
    Result of the cache after [process], whatever its outcome; and a Result
    that [process] returns from such a cache passes the schema: its
    processing time is positive and its page count, if any, is positive. *)
Theorem process_keeps_cache_valid (apiKey : string) (input : OCRInputType) (w : World) :
  cache_valid w ->
  cache_valid (snd (mutationFn apiKey input w))
  /\ (forall r, fst (mutationFn apiKey input w) = Return r ->
        0 < OCRResult.processingTime r
        /\ (forall n, OCRResult.pages r = Some n -> 0 < n)).
Proof.
  intros Hvalid.
  assert (Hschema : forall r, ocrResultSchema r = true ->
            0 < OCRResult.processingTime r
            /\ (forall n, OCRResult.pages r = Some n -> 0 < n)).
  { intros r Hr. unfold ocrResultSchema in Hr. apply andb_true_iff in Hr as [Hp Ht].
    split; [apply Z.ltb_lt, Ht|]. intros n Hn. rewrite Hn in Hp. apply Z.ltb_lt, Hp. }
  rewrite mutationFn_run.
  destruct (cache w !! getCacheKey input) as [cached|] eqn:Hlook.
  { split; [exact Hvalid|]. intros r [= <-]. apply Hschema, (Hvalid _ _ Hlook). }
  destruct (prepare apiKey input) as [request | e];
    [|split; [exact Hvalid | discriminate]].
  destruct (ocr_process apiKey request) as [response elapsed | reason];
    [|split; [exact Hvalid | discriminate]].
  destruct (ocrResultSchema (normalise response elapsed)) eqn:Hok;
    [|split; [exact Hvalid | discriminate]].
  split.
  - intros key r. cbn [snd stored cache]. rewrite lookup_insert.
    case_decide as Hkey; [intros [= <-]; exact Hok | apply Hvalid].
  - intros r [= <-]. apply Hschema, Hok.
Qed.

End Cache_after_process.

Lemma process_twice_witness :
  @mutationFn Reference.platform Reference.answering EmptyString
    (UrlDocument Examples.invoice_url) Samples.after_invoice
  = (Return Examples.invoice_result, Samples.after_invoice).
Proof.
  apply (@process_twice Reference.platform Reference.answering Examples.valid_key
           EmptyString (UrlDocument Examples.invoice_url) Reference.empty_world).
  vm_compute. reflexivity.
Defined.

Lemma useCachedOCRResult_after_process_witness :
  useCachedOCRResult (Some (UrlDocument Examples.invoice_url)) Samples.after_invoice
  = Some Examples.invoice_result.
Proof.
  apply (@useCachedOCRResult_after_process Reference.platform Reference.answering
           Examples.valid_key (UrlDocument Examples.invoice_url) Reference.empty_world).
  vm_compute. reflexivity.
Defined.

Lemma getCacheKey_separates_witness :
  variant (Base64Document Samples.report_a "application/pdf")
  = variant (Base64Document Samples.report_b "text/plain").
Proof.
  apply (getCacheKey_separates (Base64Document Samples.report_a "application/pdf")
           (Base64Document Samples.report_b "text/plain")).
  vm_compute. reflexivity.
Defined.

Lemma process_keeps_cache_valid_witness : cache_valid Samples.after_invoice.
Proof.
  apply (@process_keeps_cache_valid Reference.platform Reference.answering
           Examples.valid_key (UrlDocument Examples.invoice_url) Reference.empty_world).
  intros key r Hlook. vm_compute in Hlook. discriminate Hlook.
Defined.

(** ** The text and the images of a Result *)

Section Result_text.

Lemma some_of_app (p : ascii -> bool) (u v : string) :
  some_of p (u +:+ v) = some_of p u || some_of p v.
Proof.
  induction u as [|c u IH]; [reflexivity|].
  rewrite append_cons. cbn [some_of]. rewrite IH. apply orb_assoc.
Qed.

Lemma trimStart_spec (s : string) :
  match trimStart s with
  | EmptyString => some_of (fun c => negb (is_white c)) s = false
  | String c _ => is_white c = false /\ some_of (fun c => negb (is_white c)) s = true
  end.
Proof.
  induction s as [|c s IH]; [reflexivity|]. cbn [trimStart some_of].
  destruct (is_white c) eqn:Hc; cbn [negb orb].
  - destruct (trimStart s); exact IH.
  - split; [exact Hc | reflexivity].
Qed.

Lemma trimEnd_keeps_head (c : ascii) (s : string) :
  is_white c = false -> trimEnd (String c s) <> EmptyString.
Proof.
  intros Hc. cbn [trimEnd]. destruct (trimEnd s); [rewrite Hc|]; discriminate.
Qed.

(** A text is not blank exactly when one of its code units is not
    whitespace. *)
Lemma nonblank_some (s : string) :
  OCRService.nonblank s = some_of (fun c => negb (is_white c)) s.
Proof.
  unfold OCRService.nonblank, trim. pose proof (trimStart_spec s) as Hs.
  destruct (trimStart s) as [|c t].
  - rewrite Hs. reflexivity.
  - destruct Hs as [Hc ->]. pose proof (trimEnd_keeps_head c t Hc) as Hne.
    destruct (trimEnd (String c t)); [contradiction | reflexivity].
Qed.

Lemma nonblank_concat (texts : list string) :
  Forall (fun t => OCRService.nonblank t = true) texts ->
  texts <> [] ->
  OCRService.nonblank (String.concat OCRService.divider texts) = true.
Proof.
  intros Hall Hne. destruct texts as [|t texts]; [contradiction|].
  apply Forall_cons in Hall as [Ht _]. rewrite nonblank_some in Ht |- *.
  destruct texts as [|t' texts]; [exact Ht|].
  change (String.concat OCRService.divider (t :: t' :: texts))
    with (t +:+ OCRService.divider +:+ String.concat OCRService.divider (t' :: texts)).
  rewrite some_of_app, Ht. reflexivity.
Qed.

Lemma filter_nonblank_pages (pages : list Page.t) :
  List.filter OCRService.nonblank
    (List.map (fun page =>
                 if negb (String.eqb (Page.markdown page) EmptyString)
                    && OCRService.nonblank (Page.markdown page)
                 then Page.markdown page else EmptyString) pages)
  = page_texts pages.
Proof.
  unfold page_texts. induction pages as [|page pages IH]; [reflexivity|].
  cbn [List.map List.filter]. rewrite IH.
  destruct (OCRService.nonblank (Page.markdown page)) eqn:Hn.
  - destruct (String.eqb_spec (Page.markdown page) EmptyString) as [He | _].
    + rewrite He in Hn. discriminate Hn.
    + cbn [negb andb]. rewrite Hn. reflexivity.
  - rewrite andb_false_r. reflexivity.
Qed.

(** X7. The text of a Result is never blank.  For a response with pages it
    is the markdown of the pages that are not blank, in page order and
    separated by the divider, or the notice that no text was found when all
    pages are blank; for a response without pages it is the notice that no
    text was extracted. *)
Theorem extractText_pages (response : OCRResponse.t) :
  OCRService.nonblank (OCRService.extractText response) = true
  /\ OCRService.extractText response
     = match OCRResponse.pages response with
       | None | Some [] => "No text extracted from document"
       | Some pages =>
           match page_texts pages with
           | [] => "No text found in document pages"
           | texts => String.concat OCRService.divider texts
           end
       end.
Proof.
  split; [apply nonblank_extractText|].
  unfold OCRService.extractText.
  destruct (OCRResponse.pages response) as [[|page pages]|]; try reflexivity.
  rewrite filter_nonblank_pages.
  destruct (page_texts (page :: pages)) as [|t texts] eqn:Htexts; [reflexivity|].
  rewrite nonblank_concat; [reflexivity | | discriminate].
  rewrite <- Htexts. unfold page_texts. apply List.Forall_forall.
  intros t' Hin. apply filter_In in Hin. apply Hin.
Qed.

Lemma fold_images (pages : list Page.t) (acc : list OCRImageObject) :
  List.fold_left (fun allImages page =>
                    match Page.images page with
                    | Some images => (allImages ++ images)%list
                    | None => allImages
                    end) pages acc
  = (acc ++ page_images pages)%list.
Proof.
  unfold page_images. revert acc.
  induction pages as [|page pages IH]; intros acc; cbn [List.fold_left List.map List.concat].
  - symmetry. apply app_nil_r.
  - rewrite IH. destruct (Page.images page) as [images|]; cbn [default].
    + symmetry. apply app_assoc.
    + reflexivity.
Qed.

(** X8. The images of a Result are the images of the pages, page after
    page: none is lost, duplicated or reordered. *)
Theorem extractImages_pages (response : OCRResponse.t) :
  OCRService.extractImages response
  = match OCRResponse.pages response with
    | Some pages => page_images pages
    | None => []
    end.
Proof.
  unfold OCRService.extractImages.
  destruct (OCRResponse.pages response) as [pages|]; [|reflexivity].
  apply (fold_images pages []).
Qed.

End Result_text.

Section Empty_response.
Context {platform : Platform} {client : OCRClient}.

(** X9. On a miss, a response with an empty list of pages never becomes a
    Result: the request is sent, the page count 0 is refused by the result
    schema, [process] throws and the cache is unchanged. *)
Theorem process_empty_response (apiKey : string) (input : OCRInputType) (w : World)
    (request : OCRRequest) (response : OCRResponse.t) (elapsed : Z) :
  cache w !! getCacheKey input = None ->
  prepare apiKey input = Return request ->
  ocr_process apiKey request = Resolved response elapsed ->
  OCRResponse.pages response = Some [] ->
  mutationFn apiKey input w = (Throw (ZodError "invalid OCR result"), logged w request)
  /\ cache (logged w request) = cache w.
Proof.
  intros Hmiss Hprep Hreply Hpages. split; [|reflexivity].
  rewrite mutationFn_run, Hmiss, Hprep, Hreply.
  unfold ocrResultSchema, normalise. cbn [OCRResult.pages]. rewrite Hpages. reflexivity.
Qed.

End Empty_response.

Lemma process_empty_response_witness :
  @mutationFn Reference.platform Samples.answering_empty Examples.valid_key
    (UrlDocument Examples.invoice_url) Reference.empty_world
  = (Throw (ZodError "invalid OCR result"),
     logged Reference.empty_world Examples.invoice_request)
  /\ cache (logged Reference.empty_world Examples.invoice_request)
     = cache Reference.empty_world.
Proof.
  apply (@process_empty_response Reference.platform Samples.answering_empty
           Examples.valid_key (UrlDocument Examples.invoice_url) Reference.empty_world
           Examples.invoice_request Samples.no_pages 120);
    vm_compute; reflexivity.
Defined.

(** ** The base64 digest *)

Section Digest.

Lemma substring_skip (u v : string) (m : nat) :
  substring (String.length u) m (u +:+ v) = substring 0 m v.
Proof.
  induction u as [|c u IH]; [reflexivity|]. rewrite append_cons. exact IH.
Qed.

Lemma substring_all (v : string) : substring 0 (String.length v) v = v.
Proof.
  rewrite <- (append_empty_r v) at 2. apply substring_prefix.
Qed.

Lemma slice_first (p rest : string) :
  slice (p +:+ rest) 0 (Some (Z.of_nat (String.length p))) = p.
Proof.
  unfold slice. cbv beta iota zeta delta [default from_option Datatypes.id].
  rewrite length_append.
  set (lp := String.length p). set (lr := String.length rest).
  replace (0 <? 0) with false by reflexivity.
  replace (Z.of_nat lp <? 0) with false by (symmetry; apply Z.ltb_ge; lia).
  replace (Z.to_nat (Z.min 0 (Z.of_nat (lp + lr)))) with 0%nat by lia.
  replace (Z.to_nat (Z.max (Z.min (Z.of_nat lp) (Z.of_nat (lp + lr))
                            - Z.min 0 (Z.of_nat (lp + lr))) 0)) with lp by lia.
  apply substring_prefix.
Qed.

Lemma slice_last (u q : string) :
  (0 < String.length q)%nat ->
  slice (u +:+ q) (- Z.of_nat (String.length q)) None = q.
Proof.
  intros Hq. unfold slice. cbv beta iota zeta delta [default from_option Datatypes.id].
  rewrite length_append.
  set (lu := String.length u). set (lq := String.length q) in *.
  replace (- Z.of_nat lq <? 0) with true by (symmetry; apply Z.ltb_lt; lia).
  replace (Z.of_nat (lu + lq) <? 0) with false by (symmetry; apply Z.ltb_ge; lia).
  replace (Z.to_nat (Z.max (Z.of_nat (lu + lq) + - Z.of_nat lq) 0)) with lu by lia.
  replace (Z.to_nat
             (Z.max (Z.min (Z.of_nat (lu + lq)) (Z.of_nat (lu + lq))
                     - Z.max (Z.of_nat (lu + lq) + - Z.of_nat lq) 0) 0)) with lq by lia.
  subst lu lq. rewrite substring_skip. apply substring_all.
Qed.

(** The digest of a text of at least 40 code units: its first 20 code
    units, its length and its last 20 code units. *)
Lemma generateBase64Hash_long (p m q : string) :
  String.length p = 20%nat -> String.length q = 20%nat ->
  generateBase64Hash (p +:+ m +:+ q)
  = p +:+ "-" +:+ toString 10 (N.of_nat (40 + String.length m)) +:+ "-" +:+ q.
Proof.
  intros Hp Hq. unfold generateBase64Hash. cbv zeta.
  assert (Hlen : String.length (p +:+ m +:+ q) = (40 + String.length m)%nat).
  { rewrite !length_append, Hp, Hq. lia. }
  rewrite Hlen.
  destruct (Nat.ltb_spec (40 + String.length m) 40) as [Hlt | _]; [lia|].
  assert (Hfirst : slice (p +:+ m +:+ q) 0 (Some 20) = p).
  { replace (Some 20) with (Some (Z.of_nat (String.length p)))
      by (rewrite Hp; reflexivity).
    apply slice_first. }
  assert (Hlast : slice (p +:+ m +:+ q) (-20) None = q).
  { rewrite <- append_assoc.
    replace (-20) with (- Z.of_nat (String.length q)) by (rewrite Hq; reflexivity).
    apply slice_last. lia. }
  rewrite Hfirst, Hlast. reflexivity.
Qed.

End Digest.

Section Digest_collision.
Context {platform : Platform} {client : OCRClient}.

(** X10. Two base64 documents of the same length that agree on their first
    20 and last 20 code units have the same cache key, whatever lies in
    between and whatever their media types: once one of them has a cached
    Result, [process] answers the other with that Result and sends no
    request. *)
Theorem digest_collision (p q m1 m2 mimeType1 mimeType2 apiKey : string) (w : World)
    (r : OCRResult.t) :
  String.length p = 20%nat -> String.length q = 20%nat ->
  String.length m1 = String.length m2 ->
  cache w !! getCacheKey (Base64Document (p +:+ m1 +:+ q) mimeType1) = Some r ->
  getCacheKey (Base64Document (p +:+ m1 +:+ q) mimeType1)
  = getCacheKey (Base64Document (p +:+ m2 +:+ q) mimeType2)
  /\ mutationFn apiKey (Base64Document (p +:+ m2 +:+ q) mimeType2) w = (Return r, w).
Proof.
  intros Hp Hq Hm Hhit.
  assert (Hkey : getCacheKey (Base64Document (p +:+ m1 +:+ q) mimeType1)
                 = getCacheKey (Base64Document (p +:+ m2 +:+ q) mimeType2)).
  { cbn [getCacheKey]. rewrite !generateBase64Hash_long by assumption.
    rewrite Hm. reflexivity. }
  split; [exact Hkey|]. rewrite mutationFn_run, <- Hkey, Hhit. reflexivity.
Qed.

End Digest_collision.

Lemma digest_collision_witness :
  getCacheKey (Base64Document Samples.report_a "application/pdf")
  = getCacheKey (Base64Document Samples.report_b "text/plain")
  /\ @mutationFn Reference.platform Reference.failing Examples.valid_key
       (Base64Document Samples.report_b "text/plain") Samples.report_world
     = (Return Examples.invoice_result, Samples.report_world).
Proof.
  apply (@digest_collision Reference.platform Reference.failing
           Samples.head20 Samples.tail20 "AAAAAAAA" "BBBBBBBB"
           "application/pdf" "text/plain" Examples.valid_key
           Samples.report_world Examples.invoice_result);
    vm_compute; reflexivity.
Defined.

(** ** Files as base64 *)

Section File_base64.

Lemma list3_ind (P : list byte -> Prop) :
  P [] -> (forall a, P [a]) -> (forall a b, P [a; b]) ->
  (forall a b c l, P l -> P (a :: b :: c :: l)) ->
  forall l, P l.
Proof.
  intros H0 H1 H2 H3.
  refine (fix IH (l : list byte) : P l :=
            match l with
            | [] => H0
            | [a] => H1 a
            | [a; b] => H2 a b
            | a :: b :: c :: l' => H3 a b c l' (IH l')
            end).
Qed.

Lemma base64_digit_alphabet (n : N) : is_base64_char (base64_digit n) = true.
Proof.
  unfold base64_digit.
  assert (Hall : forallb (fun k => is_base64_char
                            (default "A"%char (String.get k base64_alphabet)))
                   (seq 0 64) = true) by (vm_compute; reflexivity).
  rewrite forallb_forall in Hall. apply Hall, in_seq.
  assert (Hk : (n mod 64 < 64)%N) by (apply N.mod_lt; discriminate).
  revert Hk. generalize (n mod 64)%N. intros k Hk. lia.
Qed.

(** The encoding has four code units for every three bytes, the last group
    padded. *)
Lemma base64_encode_length (bs : list byte) :
  String.length (base64_encode bs) = (4 * ((List.length bs + 2) / 3))%nat.
Proof.
  induction bs as [| a | a b | a b c bs IH] using list3_ind; try reflexivity.
  cbn [base64_encode String.length List.length]. rewrite IH.
  replace (S (S (S (List.length bs))) + 2)%nat with (1 * 3 + (List.length bs + 2))%nat by lia.
  rewrite Nat.div_add_l by discriminate. lia.
Qed.

Lemma base64_encode_tail (bs : list byte) : base64_tail (base64_encode bs) = true.
Proof.
  induction bs as [| a | a b | a b c bs IH] using list3_ind;
    cbn [base64_encode base64_tail]; rewrite ?base64_digit_alphabet; try reflexivity.
  exact IH.
Qed.

(** The encoding of at least one byte is base64 text. *)
Lemma base64_encode_text (bs : list byte) :
  bs <> [] -> base64_text (base64_encode bs) = true.
Proof.
  intros Hne. pose proof (base64_encode_tail bs) as Htail.
  destruct bs as [|a [|b [|c bs]]]; [contradiction | | |];
    cbn [base64_encode base64_text base64_tail] in Htail |- *;
    rewrite ?base64_digit_alphabet in Htail |- *; exact Htail.
Qed.

Lemma base64_char_not_comma (c : ascii) : is_base64_char c = true -> not_comma c = true.
Proof.
  intros Hc. unfold not_comma.
  destruct (Ascii.eqb_spec c ",") as [-> | _]; [discriminate Hc | reflexivity].
Qed.

Lemma base64_encode_no_comma (bs : list byte) : all_of not_comma (base64_encode bs) = true.
Proof.
  induction bs as [| a | a b | a b c bs IH] using list3_ind;
    cbn [base64_encode all_of];
    rewrite ?(base64_char_not_comma _ (base64_digit_alphabet _)); try reflexivity.
  exact IH.
Qed.

Lemma split_whole (v : string) : all_of not_comma v = true -> split "," v = [v].
Proof.
  induction v as [|c v IH]; [reflexivity|]. cbn [all_of split]. unfold not_comma at 1.
  intros Hv. apply andb_true_iff in Hv as [Hc Hv]. apply negb_true_iff in Hc.
  rewrite Hc, (IH Hv). reflexivity.
Qed.

Lemma split_first (u v : string) :
  all_of not_comma u = true ->
  split "," (u +:+ String "," v) = u :: split "," v.
Proof.
  induction u as [|c u IH]; [reflexivity|]. rewrite append_cons. cbn [all_of split].
  unfold not_comma at 1.
  intros Hu. apply andb_true_iff in Hu as [Hc Hu]. apply negb_true_iff in Hc.
  rewrite Hc, (IH Hu). reflexivity.
Qed.

Lemma all_of_app (p : ascii -> bool) (u v : string) :
  all_of p (u +:+ v) = all_of p u && all_of p v.
Proof.
  induction u as [|c u IH]; [reflexivity|].
  rewrite append_cons. cbn [all_of]. rewrite IH. apply andb_assoc.
Qed.

(** For a file whose declared media type holds no comma, [fileToBase64]
    yields what follows the comma of the data URL: the encoding of the
    bytes. *)
Lemma fileToBase64_ok (file : File.t) :
  all_of not_comma (File.type file) = true ->
  fileToBase64 file = Some (base64_encode (File.content file)).
Proof.
  intros Htype. unfold fileToBase64, readAsDataURL.
  change (";base64," +:+ base64_encode (File.content file))
    with (";base64" +:+ String "," (base64_encode (File.content file))).
  rewrite <- !append_assoc, split_first.
  - rewrite split_whole by apply base64_encode_no_comma. reflexivity.
  - rewrite !all_of_app, Htype. reflexivity.
Qed.

(** X11. For a file whose declared media type holds no comma,
    [fileToBase64] yields the base64 encoding of all the bytes of the file:
    four code units for every three bytes, code units of the base64 alphabet
    followed by padding only. *)
Theorem fileToBase64_encoding (file : File.t) :
  all_of not_comma (File.type file) = true ->
  fileToBase64 file = Some (base64_encode (File.content file))
  /\ String.length (base64_encode (File.content file))
     = (4 * ((List.length (File.content file) + 2) / 3))%nat
  /\ (File.content file <> [] -> base64_text (base64_encode (File.content file)) = true).
Proof.
  intros Htype. split; [apply fileToBase64_ok, Htype|].
  split; [apply base64_encode_length | apply base64_encode_text].
Qed.

End File_base64.

Lemma fileToBase64_encoding_witness :
  fileToBase64 Samples.small_pdf = Some (base64_encode (File.content Samples.small_pdf))
  /\ String.length (base64_encode (File.content Samples.small_pdf))
     = (4 * ((List.length (File.content Samples.small_pdf) + 2) / 3))%nat
  /\ (File.content Samples.small_pdf <> [] ->
      base64_text (base64_encode (File.content Samples.small_pdf)) = true).
Proof.
  apply (fileToBase64_encoding Samples.small_pdf). reflexivity.
Defined.

Section File_upload.
Context {platform : Platform}.

(** X12. With a valid API key and a media type without comma, a file of at
    least 37 bytes passes the validation of the adapter and is sent as a
    data URL of its base64 encoding, as a document when the PDF validator
    accepts it and as an image otherwise; a file of fewer than 37 bytes is
    refused by the adapter, because its encoding has fewer than 50 code
    units, also when a validator has accepted the file. *)
Theorem file_upload_threshold (apiKey : string) (file : File.t) :
  apiKeySchema apiKey = true ->
  all_of not_comma (File.type file) = true ->
  let payload := data_url (getMimeType file) (base64_encode (File.content file)) in
  ((37 <= List.length (File.content file))%nat ->
   prepare apiKey (FileInput file)
   = Return (ocr_request (if isValidPdfFile file then document_url payload
                          else image_url payload)))
  /\ ((List.length (File.content file) < 37)%nat ->
      exists e, prepare apiKey (FileInput file) = Throw e).
Proof.
  intros Hkey Htype payload. subst payload.
  pose proof (fileToBase64_ok file Htype) as Hb64.
  pose proof (base64_encode_length (File.content file)) as Hlen.
  pose proof (base64_encode_text (File.content file)) as Htext.
  unfold prepare. rewrite Hkey, Hb64. cbn [negb]. unfold base64Schema.
  rewrite Hlen, base64_re_text. split; intros Hsize.
  - rewrite Htext by (intros Hnil; rewrite Hnil in Hsize; simpl in Hsize; lia).
    destruct (Nat.leb_spec 50 (4 * ((List.length (File.content file) + 2) / 3))) as [_ | Hlt].
    + reflexivity.
    + exfalso.
      assert (13 <= (List.length (File.content file) + 2) / 3)%nat
        by (apply Nat.div_le_lower_bound; lia).
      lia.
  - destruct (Nat.leb_spec 50 (4 * ((List.length (File.content file) + 2) / 3))) as [Hge | _].
    + exfalso.
      assert ((List.length (File.content file) + 2) / 3 < 13)%nat
        by (apply Nat.Div0.div_lt_upper_bound; lia).
      lia.
    + eexists. reflexivity.
Qed.

End File_upload.

Lemma file_upload_threshold_witness :
  @prepare Reference.platform Examples.valid_key (FileInput Samples.small_pdf)
  = Return (ocr_request
              (document_url
                 (data_url "application/pdf"
                    (base64_encode (File.content Samples.small_pdf)))))
  /\ exists e,
       @prepare Reference.platform Examples.valid_key (FileInput Samples.tiny_pdf) = Throw e.
Proof.
  split.
  - apply (proj1 (@file_upload_threshold Reference.platform Examples.valid_key
                    Samples.small_pdf eq_refl eq_refl)).
    vm_compute. lia.
  - apply (proj2 (@file_upload_threshold Reference.platform Examples.valid_key
                    Samples.tiny_pdf eq_refl eq_refl)).
    vm_compute. lia.
Defined.

(** ** Text submitted for processing *)

Section Text_submission.
Context {platform : Platform}.

Lemma detect_not_url (input : string) :
  validateUrl (trim input) = false ->
  inputType (detectInputType input) <> InputUrl.
Proof.
  intros Hurl. unfold detectInputType. cbv zeta. rewrite Hurl.
  destruct (if isDataUrl (trim input) then extractBase64FromDataUrl (trim input) else None);
    [discriminate|].
  destruct ((50 <? String.length (trim input))%nat && RegExp.test base64_re (trim input));
    [|discriminate].
  destruct (startsWith (trim input) "JVBERi0"); [discriminate|].
  destruct (startsWith (trim input) "iVBORw0KGgo" || startsWith (trim input) "/9j/"
            || startsWith (trim input) "R0lGOD"); discriminate.
Qed.

Lemma detect_blank (input : string) :
  trim input = EmptyString ->
  detectInputType input
  = {| inputType := InputUnknown; contentType := ContentUnknown; value := EmptyString |}.
Proof.
  intros Htrim. rewrite detect_raw; rewrite Htrim; reflexivity.
Qed.

(** X13. A URL input that [handleProcessText] submits carries the trimmed
    text and passes the URL validation of the adapter: the PDF URL schema for
    a document, the image URL schema for an image.  No text is submitted as
    a file. *)
Theorem text_url_submission (textInput : string) (input : OCRInputType) :
  handleProcessText textInput = Some input ->
  variant input <> 4%nat
  /\ (forall url, input = UrlDocument url ->
        url = trim textInput /\ pdfUrlSchema url = true)
  /\ (forall url, input = UrlImage url ->
        url = trim textInput /\ imageUrlSchema url = true).
Proof.
  unfold handleProcessText.
  destruct (String.eqb (trim textInput) EmptyString); [discriminate|]. cbv zeta.
  destruct (validateUrl (trim textInput)) eqn:Hurl.
  - rewrite (detect_url textInput Hurl). cbn [inputType contentType value].
    unfold validateUrl in Hurl.
    destruct (ends_in ".pdf" (trim textInput)) eqn:Hpdf.
    + intros [= <-]. split; [discriminate|]. split; [|discriminate].
      intros url [= <-]. split; [reflexivity|].
      unfold pdfUrlSchema. rewrite Hurl. exact Hpdf.
    + destruct (ends_in_image (trim textInput)) eqn:Himg; [|discriminate].
      intros [= <-]. split; [discriminate|]. split; [discriminate|].
      intros url [= <-]. split; [reflexivity|].
      unfold imageUrlSchema. rewrite Hurl. exact Himg.
  - pose proof (detect_not_url textInput Hurl) as Hnot.
    destruct (inputType (detectInputType textInput)); [contradiction | | discriminate].
    destruct (contentType (detectInputType textInput)); intros [= <-];
      (split; [discriminate | split; discriminate]).
Qed.

(** X14. A base64 input that [handleProcessText] submits is declared as
    application/pdf when it is a document and as image/jpeg when it is an
    image; and when the text is not a data URL, the payload is the trimmed
    text and passes the base64 schema of the adapter. *)
Theorem text_base64_submission (textInput : string) (input : OCRInputType) :
  handleProcessText textInput = Some input ->
  (forall payload mimeType, input = Base64Document payload mimeType ->
     mimeType = "application/pdf")
  /\ (forall payload mimeType, input = Base64Image payload mimeType ->
        mimeType = "image/jpeg")
  /\ (isDataUrl (trim textInput) = false ->
      forall payload mimeType,
        input = Base64Document payload mimeType \/ input = Base64Image payload mimeType ->
        payload = trim textInput /\ base64Schema payload = true).
Proof.
  unfold handleProcessText.
  destruct (String.eqb (trim textInput) EmptyString); [discriminate|]. cbv zeta.
  intros Hsubmit. split; [|split].
  - intros payload mimeType ->.
    destruct (inputType (detectInputType textInput)),
             (contentType (detectInputType textInput));
      try discriminate Hsubmit; injection Hsubmit as _ <-; reflexivity.
  - intros payload mimeType ->.
    destruct (inputType (detectInputType textInput)),
             (contentType (detectInputType textInput));
      try discriminate Hsubmit; injection Hsubmit as _ <-; reflexivity.
  - intros Hdata payload mimeType Hinput.
    destruct (validateUrl (trim textInput)) eqn:Hurl.
    { rewrite (detect_url textInput Hurl) in Hsubmit.
      cbn [inputType contentType value] in Hsubmit.
      destruct (ends_in ".pdf" (trim textInput)); [|destruct (ends_in_image (trim textInput))];
        try discriminate Hsubmit; injection Hsubmit as <-;
        destruct Hinput; discriminate. }
    rewrite (detect_raw textInput Hurl Hdata) in Hsubmit.
    destruct ((50 <? String.length (trim textInput))%nat && base64_text (trim textInput))
      eqn:Hraw; cbn [inputType contentType value] in Hsubmit; [|discriminate Hsubmit].
    apply andb_true_iff in Hraw as [Hlen Htext]. apply Nat.ltb_lt in Hlen.
    assert (Hschema : base64Schema (trim textInput) = true).
    { unfold base64Schema. rewrite base64_re_text, Htext.
      destruct (Nat.leb_spec 50 (String.length (trim textInput))); [reflexivity | lia]. }
    destruct (sniff (trim textInput)); injection Hsubmit as <-;
      destruct Hinput as [[= <- _] | [= <- _]]; split; first [reflexivity | exact Hschema].
Qed.

(** X15. [handleProcessText] submits nothing exactly when the text is
    classified as unknown, which includes blank text, or as a URL of unknown
    content; hence, while its button is enabled, a click that submits
    nothing means that the text was classified as unknown. *)
Theorem text_not_submitted (textInput : string) :
  (handleProcessText textInput = None <->
   inputType (detectInputType textInput) = InputUnknown
   \/ (inputType (detectInputType textInput) = InputUrl
       /\ contentType (detectInputType textInput) = ContentUnknown))
  /\ (processTextDisabled false textInput = false ->
      handleProcessText textInput = None ->
      inputType (detectInputType textInput) = InputUnknown).
Proof.
  assert (Hiff : handleProcessText textInput = None <->
                 inputType (detectInputType textInput) = InputUnknown
                 \/ (inputType (detectInputType textInput) = InputUrl
                     /\ contentType (detectInputType textInput) = ContentUnknown)).
  { unfold handleProcessText.
    destruct (String.eqb_spec (trim textInput) EmptyString) as [Hblank | _].
    - rewrite (detect_blank textInput Hblank). split; [left; reflexivity | reflexivity].
    - cbv zeta.
      destruct (inputType (detectInputType textInput)),
               (contentType (detectInputType textInput));
        split; intros H; try discriminate H; try reflexivity; auto;
        destruct H as [H | [H1 H2]]; discriminate. }
  split; [exact Hiff|]. intros Henabled Hnone. apply Hiff in Hnone.
  destruct Hnone as [Hunknown | [Hurl Hcontent]]; [exact Hunknown|].
  unfold processTextDisabled in Henabled. rewrite Hurl, Hcontent in Henabled.
  rewrite orb_true_r in Henabled. discriminate Henabled.
Qed.

End Text_submission.

Lemma text_url_submission_witness :
  @handleProcessText Reference.platform " https://a.com/x.pdf "
  = Some (UrlDocument Examples.invoice_url)
  /\ @pdfUrlSchema Reference.platform Examples.invoice_url = true.
Proof.
  assert (Hsubmit : @handleProcessText Reference.platform " https://a.com/x.pdf "
                    = Some (UrlDocument Examples.invoice_url))
    by (vm_compute; reflexivity).
  split; [exact Hsubmit|].
  destruct (@text_url_submission Reference.platform " https://a.com/x.pdf "
              (UrlDocument Examples.invoice_url) Hsubmit) as (_ & Hdocument & _).
  destruct (Hdocument Examples.invoice_url eq_refl) as [_ Hschema]. exact Hschema.
Defined.

Lemma text_base64_submission_witness :
  @handleProcessText Reference.platform Examples.pdf_base64
  = Some (Base64Document Examples.pdf_base64 "application/pdf")
  /\ base64Schema Examples.pdf_base64 = true.
Proof.
  assert (Hsubmit : @handleProcessText Reference.platform Examples.pdf_base64
                    = Some (Base64Document Examples.pdf_base64 "application/pdf"))
    by (vm_compute; reflexivity).
  split; [exact Hsubmit|].
  destruct (@text_base64_submission Reference.platform Examples.pdf_base64
              (Base64Document Examples.pdf_base64 "application/pdf") Hsubmit)
    as (_ & _ & Hraw).
  assert (Hdata : isDataUrl (trim Examples.pdf_base64) = false)
    by (vm_compute; reflexivity).
  destruct (Hraw Hdata Examples.pdf_base64 "application/pdf" (or_introl eq_refl))
    as [_ Hschema].
  exact Hschema.
Defined.

Lemma text_not_submitted_witness :
  inputType (@detectInputType Reference.platform "hello") = InputUnknown.
Proof.
  apply (proj2 (@text_not_submitted Reference.platform "hello")); vm_compute; reflexivity.
Defined.

(** ** The selected file *)

(** X16. A file that no validator accepts is never selected: the selection
    stays valid through every change event, so the notice for an invalid
    file is never produced. *)
Theorem selection_stays_valid (file selectedFile : option File.t) :
  selection_valid selectedFile ->
  selection_valid (handleFileSelect file selectedFile)
  /\ fileValidationError (handleFileSelect file selectedFile) = None.
Proof.
  intros Hvalid.
  assert (Hnone : forall sel, selection_valid sel -> fileValidationError sel = None).
  { intros [f|] Hsel; [|reflexivity]. cbn [selection_valid fileValidationError] in *.
    destruct (isValidPdfFile f), (isValidImageFile f); try reflexivity. discriminate Hsel. }
  assert (Hstep : selection_valid (handleFileSelect file selectedFile)).
  { destruct file as [f|]; [|exact Hvalid]. cbn [handleFileSelect]. cbv zeta.
    destruct (isValidPdfFile f) eqn:Hpdf, (isValidImageFile f) eqn:Himg;
      cbn [negb andb selection_valid]; rewrite ?Hpdf, ?Himg; try reflexivity.
    exact Hvalid. }
  split; [exact Hstep | apply Hnone, Hstep].
Qed.

Lemma selection_stays_valid_witness :
  selection_valid (handleFileSelect (Some Examples.empty_pdf) (Some Samples.small_pdf))
  /\ fileValidationError
       (handleFileSelect (Some Examples.empty_pdf) (Some Samples.small_pdf)) = None.
Proof.
  apply (selection_stays_valid (Some Examples.empty_pdf) (Some Samples.small_pdf)).
  vm_compute. reflexivity.
Defined.

(** ** The retry delay *)

(** X17. The delay before a retry starts at 1000 ms, doubles with every
    attempt up to the fifth and is 30000 ms from then on; it never shrinks
    from one attempt to the next. *)
Theorem retryDelay_backoff (attemptIndex : N) :
  ((attemptIndex <= 4 -> retryDelay attemptIndex = 1000 * 2 ^ attemptIndex)
   /\ (5 <= attemptIndex -> retryDelay attemptIndex = 30000)
   /\ 1000 <= retryDelay attemptIndex <= 30000
   /\ retryDelay attemptIndex <= retryDelay (attemptIndex + 1))%N.
Proof.
  unfold retryDelay.
  assert (Hpow : forall n m : N, (n <= m -> 2 ^ n <= 2 ^ m)%N)
    by (intros n m Hnm; apply N.pow_le_mono_r; [discriminate | exact Hnm]).
  assert (H0 : (1 <= 2 ^ attemptIndex)%N) by (apply (Hpow 0%N); lia).
  split; [|split; [|split]].
  - intros Hle. pose proof (Hpow attemptIndex 4%N Hle) as H4.
    change (2 ^ 4)%N with 16%N in H4. lia.
  - intros Hge. pose proof (Hpow 5%N attemptIndex Hge) as H5.
    change (2 ^ 5)%N with 32%N in H5. lia.
  - lia.
  - pose proof (Hpow attemptIndex (attemptIndex + 1)%N ltac:(lia)). lia.
Qed.

Lemma retryDelay_backoff_witness : retryDelay 3 = (1000 * 2 ^ 3)%N.
Proof. apply (proj1 (retryDelay_backoff 3)). lia. Defined.

(** ** The API key store *)

Section Api_key.
Import ApiKey.

Lemma usable_setItem (key value : string) (s : Storage) :
  denied s = false -> full s = false ->
  setItem key value s
  = Some {| items := <[key := value]> (items s); denied := false; full := false |}.
Proof. intros Hd Hf. unfold setItem. rewrite Hd, Hf. reflexivity. Qed.

Lemma flag_differs : API_KEY_CLEARED_FLAG <> API_KEY_STORAGE_KEY.
Proof. discriminate. Qed.

(** With a usable storage, [saveApiKey] stores the key and removes the
    flag. *)
Lemma saveApiKey_usable (key : string) (st : State) :
  denied (localStorage st) = false -> full (localStorage st) = false ->
  saveApiKey key st
  = (Done,
     {| localStorage :=
          {| items := delete API_KEY_CLEARED_FLAG
                        (<[API_KEY_STORAGE_KEY := key]> (items (localStorage st)));
             denied := false; full := false |};
        apiKeyState := key; emitted := S (emitted st) |}).
Proof.
  intros Hd Hf. unfold saveApiKey. rewrite (usable_setItem _ _ _ Hd Hf). reflexivity.
Qed.

(** What a load finds in a storage in which a key was saved last. *)
Lemma getStoredApiKey_saved (key envApiKey : string) (its : gmap string string) :
  getStoredApiKey envApiKey
    {| items := delete API_KEY_CLEARED_FLAG (<[API_KEY_STORAGE_KEY := key]> its);
       denied := false; full := false |}
  = (if String.eqb key EmptyString then envApiKey else key).
Proof.
  unfold getStoredApiKey, getItem. cbn [denied items].
  rewrite lookup_delete_eq.
  rewrite bool_decide_eq_false_2 by discriminate.
  rewrite lookup_delete_ne by exact flag_differs.
  rewrite lookup_insert_eq. reflexivity.
Qed.

(** X18. With a usable storage, [saveApiKey] succeeds, sets the key in
    memory, notifies the listeners once, and a later load of the module
    finds the saved key, whatever the key from the environment and whether
    or not the key had been cleared before; only an empty saved key lets the
    environment key through. *)
Theorem saveApiKey_round_trip (key envApiKey : string) (st : State) :
  denied (localStorage st) = false -> full (localStorage st) = false ->
  let st' := snd (saveApiKey key st) in
  fst (saveApiKey key st) = Done
  /\ apiKeyState st' = key
  /\ emitted st' = S (emitted st)
  /\ getStoredApiKey envApiKey (localStorage st')
     = (if String.eqb key EmptyString then envApiKey else key)
  /\ apiKeyState (load envApiKey (localStorage st'))
     = (if String.eqb key EmptyString then envApiKey else key).
Proof.
  intros Hd Hf st'. subst st'. rewrite (saveApiKey_usable key st Hd Hf).
  cbn [fst snd apiKeyState emitted localStorage load].
  split; [reflexivity|]. split; [reflexivity|]. split; [reflexivity|].
  split; apply getStoredApiKey_saved.
Qed.

(** X19. With a usable storage, [clearApiKey] empties the key in memory and
    a later load of the module finds no key, even when the environment
    provides one; saving a key afterwards brings it back. *)
Theorem clearApiKey_suppresses_fallback (key envApiKey : string) (st : State) :
  denied (localStorage st) = false -> full (localStorage st) = false ->
  let cleared := clearApiKey st in
  apiKeyState cleared = EmptyString
  /\ isApiKeySet cleared = false
  /\ emitted cleared = S (emitted st)
  /\ getStoredApiKey envApiKey (localStorage cleared) = EmptyString
  /\ (key <> EmptyString ->
      getStoredApiKey envApiKey (localStorage (snd (saveApiKey key cleared))) = key).
Proof.
  intros Hd Hf cleared. subst cleared. unfold clearApiKey, removeItem. rewrite Hd.
  rewrite usable_setItem by (cbn [denied full]; first [assumption | reflexivity]).
  cbn [apiKeyState emitted localStorage items].
  split; [reflexivity|]. split; [reflexivity|]. split; [reflexivity|]. split.
  - unfold getStoredApiKey, getItem. cbn [denied items].
    rewrite lookup_insert_eq. rewrite bool_decide_eq_true_2 by reflexivity. reflexivity.
  - intros Hkey. rewrite saveApiKey_usable by reflexivity.
    cbn [snd localStorage]. rewrite getStoredApiKey_saved.
    destruct (String.eqb_spec key EmptyString); [contradiction | reflexivity].
Qed.

(** X20. When the storage cannot be written, [saveApiKey] fails with its
    message and changes neither the key in memory nor the storage, and
    notifies nobody; when access to the storage is denied, [clearApiKey]
    returns normally and changes nothing, and a load of the module falls
    back to the environment key. *)
Theorem storage_failure (key envApiKey : string) (st : State) :
  (denied (localStorage st) || full (localStorage st) = true ->
   saveApiKey key st = (Failed save_failed, st))
  /\ (denied (localStorage st) = true ->
      clearApiKey st = st
      /\ getStoredApiKey envApiKey (localStorage st) = envApiKey).
Proof.
  split.
  - intros Hfail. unfold saveApiKey, setItem. rewrite Hfail. reflexivity.
  - intros Hd. unfold clearApiKey, removeItem, getStoredApiKey, getItem.
    rewrite Hd. split; reflexivity.
Qed.

(** X21. [handleSetApiKey] stores a key only when it passes the API key
    schema: a key that fails it leaves the state as it is and shows a
    message, and a key that passes it is, with a usable storage, the key in
    memory and the key a later load finds, shows no message and is accepted
    by the constructor of the OCR service. *)
Theorem handleSetApiKey_validates (apiKeyInput envApiKey : string) (st : State) (w : World) :
  denied (localStorage st) = false -> full (localStorage st) = false ->
  let st' := fst (handleSetApiKey apiKeyInput st) in
  let message := snd (handleSetApiKey apiKeyInput st) in
  (apiKeySchema apiKeyInput = false -> st' = st /\ message <> EmptyString)
  /\ (apiKeySchema apiKeyInput = true ->
      apiKeyState st' = apiKeyInput
      /\ getStoredApiKey envApiKey (localStorage st') = apiKeyInput
      /\ message = EmptyString
      /\ OCRService.new apiKeyInput w
         = (Return {| OCRService.client := apiKeyInput |}, w)).
Proof.
  intros Hd Hf st' message. subst st' message. unfold handleSetApiKey. split.
  - intros Hbad. rewrite Hbad.
    destruct (String.length apiKeyInput <? 10)%nat; split; try reflexivity; discriminate.
  - intros Hok. rewrite Hok, (saveApiKey_usable apiKeyInput st Hd Hf).
    cbn [fst snd apiKeyState localStorage].
    split; [reflexivity|]. split.
    + rewrite getStoredApiKey_saved.
      destruct (String.eqb_spec apiKeyInput EmptyString) as [-> | _]; [|reflexivity].
      discriminate Hok.
    + split; [reflexivity|]. unfold OCRService.new. rewrite Hok. reflexivity.
Qed.

End Api_key.

Lemma saveApiKey_round_trip_witness :
  let st' := snd (ApiKey.saveApiKey "sk-abcdefghij" Samples.state_with_key) in
  fst (ApiKey.saveApiKey "sk-abcdefghij" Samples.state_with_key) = ApiKey.Done
  /\ ApiKey.apiKeyState st' = "sk-abcdefghij"
  /\ ApiKey.emitted st' = S (ApiKey.emitted Samples.state_with_key)
  /\ ApiKey.getStoredApiKey "env-key-000" (ApiKey.localStorage st') = "sk-abcdefghij"
  /\ ApiKey.apiKeyState (ApiKey.load "env-key-000" (ApiKey.localStorage st'))
     = "sk-abcdefghij".
Proof.
  apply (saveApiKey_round_trip "sk-abcdefghij" "env-key-000" Samples.state_with_key);
    reflexivity.
Defined.

Lemma clearApiKey_suppresses_fallback_witness :
  let cleared := ApiKey.clearApiKey Samples.state_with_key in
  ApiKey.apiKeyState cleared = EmptyString
  /\ ApiKey.isApiKeySet cleared = false
  /\ ApiKey.emitted cleared = S (ApiKey.emitted Samples.state_with_key)
  /\ ApiKey.getStoredApiKey "env-key-000" (ApiKey.localStorage cleared) = EmptyString
  /\ ("sk-abcdefghij" <> EmptyString ->
      ApiKey.getStoredApiKey "env-key-000"
        (ApiKey.localStorage (snd (ApiKey.saveApiKey "sk-abcdefghij" cleared)))
      = "sk-abcdefghij").
Proof.
  apply (clearApiKey_suppresses_fallback "sk-abcdefghij" "env-key-000"
           Samples.state_with_key); reflexivity.
Defined.

Lemma storage_failure_witness :
  ApiKey.saveApiKey "sk-abcdefghij" Samples.state_denied
  = (ApiKey.Failed ApiKey.save_failed, Samples.state_denied).
Proof.
  apply (proj1 (storage_failure "sk-abcdefghij" "env-key-000" Samples.state_denied)).
  reflexivity.
Defined.

Lemma handleSetApiKey_validates_witness :
  ApiKey.apiKeyState (fst (ApiKey.handleSetApiKey "sk-abcdefghij" Samples.state_with_key))
  = "sk-abcdefghij"
  /\ ApiKey.getStoredApiKey "env-key-000"
       (ApiKey.localStorage
          (fst (ApiKey.handleSetApiKey "sk-abcdefghij" Samples.state_with_key)))
     = "sk-abcdefghij"
  /\ snd (ApiKey.handleSetApiKey "sk-abcdefghij" Samples.state_with_key) = EmptyString
  /\ OCRService.new "sk-abcdefghij" Reference.empty_world
     = (Return {| OCRService.client := "sk-abcdefghij" |}, Reference.empty_world).
Proof.
  apply (proj2 (handleSetApiKey_validates "sk-abcdefghij" "env-key-000"
                  Samples.state_with_key Reference.empty_world eq_refl eq_refl)).
  reflexivity.
Defined.

(** ** One URL and two URLs *)

Section Url_count.

Lemma run_chr_cons {A : Type} (p : ascii -> bool) (cs : RegExp.captures)
    (prev : option ascii) (c : ascii) (s : string) (k : RegExp.cont A) :
  RegExp.run (RegExp.Chr p) cs prev (String c s) k
  = if p c then k cs (Some c) s else None.
Proof. reflexivity. Qed.

(** A greedy [p*] runs over all the code units of the class when the
    continuation accepts what follows them. *)
Lemma star_greedy {A : Type} (p : ascii -> bool) (k : RegExp.cont A)
    (cs : RegExp.captures) (tail : string) :
  stops p tail = true ->
  (forall prev', k cs prev' tail <> None) ->
  forall u fuel prev,
    all_of p u = true ->
    (String.length (u +:+ tail) <= fuel)%nat ->
    exists prev',
      RegExp.star_iter (RegExp.run (RegExp.Chr p)) fuel cs prev (u +:+ tail) k
      = k cs prev' tail.
Proof.
  intros Hstop Hk. induction u as [|c u IH]; intros fuel prev Hall Hfuel.
  - exists prev. change (EmptyString +:+ tail) with tail.
    destruct fuel as [|fuel]; [reflexivity|]. cbn [RegExp.star_iter RegExp.run].
    destruct tail as [|c tail]; [reflexivity|].
    cbn [stops] in Hstop. apply negb_true_iff in Hstop. rewrite Hstop. reflexivity.
  - rewrite append_cons in Hfuel |- *. cbn [all_of] in Hall.
    apply andb_true_iff in Hall as [Hc Hall].
    destruct fuel as [|fuel]; [simpl in Hfuel; lia|].
    destruct (IH fuel (Some c) Hall ltac:(simpl in Hfuel; lia)) as [prev' Hrun].
    exists prev'. cbn [RegExp.star_iter]. rewrite run_chr_cons, Hc.
    destruct (Nat.ltb_spec (String.length (u +:+ tail))
                (String.length (String c (u +:+ tail)))) as [_ | Hbad];
      [|simpl in Hbad; lia].
    rewrite Hrun. destruct (k cs prev' tail) eqn:Hres; [reflexivity|].
    exfalso. exact (Hk prev' Hres).
Qed.

(** The full-URL pattern, tried on a text that starts with a scheme and at
    least one URL code unit, matches up to the first code unit that cannot
    be part of a URL. *)
Lemma fullUrl_at (secure : bool) (c : ascii) (u tail : string) (prev : option ascii) :
  is_url_char c = true -> all_of is_url_char u = true -> stops is_url_char tail = true ->
  RegExp.exec_at fullUrlPattern prev (url_scheme secure +:+ String c u +:+ tail)
  = Some {| RegExp.matched := url_scheme secure +:+ String c u;
            RegExp.groups := []; RegExp.rest := tail |}.
Proof.
  intros Hc Hu Htail. unfold RegExp.exec_at.
  destruct secure; cbn [url_scheme].
  - match goal with
    | |- RegExp.run _ _ _ _ ?k = _ =>
        destruct (star_greedy is_url_char k [] tail Htail ltac:(discriminate)
                    u (String.length (u +:+ tail)) (Some c) Hu ltac:(lia))
          as [prev' Hstar];
        change (match (if is_url_char c
                       then RegExp.star_iter (RegExp.run (RegExp.Chr is_url_char))
                              (String.length (u +:+ tail)) [] (Some c) (u +:+ tail) k
                       else None) with
                | Some a => Some a
                | None => None
                end
                = Some {| RegExp.matched := "https://" +:+ String c u;
                          RegExp.groups := []; RegExp.rest := tail |})
    end.
    rewrite Hc, Hstar. f_equal. f_equal.
    exact (consumed_prefix ("https://" +:+ String c u) tail).
  - match goal with
    | |- RegExp.run _ _ _ _ ?k = _ =>
        destruct (star_greedy is_url_char k [] tail Htail ltac:(discriminate)
                    u (String.length (u +:+ tail)) (Some c) Hu ltac:(lia))
          as [prev' Hstar];
        change ((if is_url_char c
                 then RegExp.star_iter (RegExp.run (RegExp.Chr is_url_char))
                        (String.length (u +:+ tail)) [] (Some c) (u +:+ tail) k
                 else None)
                = Some {| RegExp.matched := "http://" +:+ String c u;
                          RegExp.groups := []; RegExp.rest := tail |})
    end.
    rewrite Hc, Hstar. f_equal. f_equal.
    exact (consumed_prefix ("http://" +:+ String c u) tail).
Qed.

(** Where a match starts, the scan records it and passes over it. *)
Lemma scan_match (r : RegExp.regex) (prev : option ascii) (c : ascii) (m tail : string) :
  RegExp.exec_at r prev (String c m +:+ tail)
  = Some {| RegExp.matched := String c m; RegExp.groups := []; RegExp.rest := tail |} ->
  exists prev',
    RegExp.scan r prev (String c m +:+ tail) 0
    = RegExp.Matched (String c m) :: RegExp.scan r prev' tail 0.
Proof.
  intros Hexec. rewrite append_cons in Hexec |- *. cbn [RegExp.scan]. rewrite Hexec.
  cbn [RegExp.matched String.length]. clear Hexec.
  assert (Hskip : forall t prev0, exists prev',
            RegExp.scan r prev0 (t +:+ tail) (String.length t) = RegExp.scan r prev' tail 0).
  { induction t as [|c' t IH]; intros prev0; [exists prev0; reflexivity|].
    rewrite append_cons. cbn [String.length RegExp.scan]. apply IH. }
  destruct (Hskip m (Some c)) as [prev' Hprev']. exists prev'. rewrite Hprev'. reflexivity.
Qed.

Lemma url_scheme_cons (secure : bool) :
  exists rest, url_scheme secure = String "h" rest.
Proof. destruct secure; eexists; reflexivity. Qed.

Lemma separator_not_alpha (sep : ascii) : is_url_char sep = false -> is_alpha sep = false.
Proof.
  destruct sep as [[] [] [] [] [] [] [] []]; intros H; try discriminate H; reflexivity.
Qed.

(** The scan of a text that starts with a URL. *)
Lemma scan_url (secure : bool) (c : ascii) (u tail : string) :
  is_url_char c = true -> all_of is_url_char u = true -> stops is_url_char tail = true ->
  exists prev',
    RegExp.scan fullUrlPattern None (url_scheme secure +:+ String c u +:+ tail) 0
    = RegExp.Matched (url_scheme secure +:+ String c u)
      :: RegExp.scan fullUrlPattern prev' tail 0.
Proof.
  intros Hc Hu Htail.
  pose proof (fullUrl_at secure c u tail None Hc Hu Htail) as Hexec.
  destruct (url_scheme_cons secure) as [rest Hrest].
  rewrite <- append_assoc in Hexec |- *.
  rewrite Hrest, append_cons in Hexec |- *.
  rewrite <- append_cons. apply scan_match. rewrite append_cons. exact Hexec.
Qed.

(** X22. A text that is one http or https URL, without whitespace, comma or
    semicolon, is never reported as several URLs; two such URLs separated by
    one whitespace, comma or semicolon always are. *)
Theorem one_url_two_urls (secure1 secure2 : bool) (c1 c2 sep : ascii) (u1 u2 : string) :
  is_url_char c1 = true -> all_of is_url_char u1 = true ->
  is_url_char c2 = true -> all_of is_url_char u2 = true ->
  is_url_char sep = false ->
  hasMultipleUrls (url_scheme secure1 +:+ String c1 u1) = false
  /\ hasMultipleUrls (url_scheme secure1 +:+ String c1 u1
                      +:+ String sep (url_scheme secure2 +:+ String c2 u2)) = true.
Proof.
  intros Hc1 Hu1 Hc2 Hu2 Hsep. split.
  - destruct (scan_url secure1 c1 u1 EmptyString Hc1 Hu1 eq_refl) as [prev' Hscan].
    rewrite append_empty_r in Hscan.
    unfold hasMultipleUrls, RegExp.matchAll, RegExp.removeAll. cbv zeta.
    rewrite Hscan. reflexivity.
  - assert (Hstop : stops is_url_char
                      (String sep (url_scheme secure2 +:+ String c2 u2)) = true)
      by (cbn [stops]; rewrite Hsep; reflexivity).
    destruct (scan_url secure1 c1 u1 _ Hc1 Hu1 Hstop) as [prev1 Hscan1].
    destruct (scan_url secure2 c2 u2 EmptyString Hc2 Hu2 eq_refl) as [prev2 Hscan2].
    rewrite append_empty_r in Hscan2.
    assert (Hsepscan :
              RegExp.scan fullUrlPattern prev1
                (String sep (url_scheme secure2 +:+ String c2 u2)) 0
              = RegExp.Kept sep
                :: RegExp.scan fullUrlPattern (Some sep)
                     (url_scheme secure2 +:+ String c2 u2) 0).
    { cbn [RegExp.scan].
      assert (Hfail : RegExp.exec_at fullUrlPattern prev1
                        (String sep (url_scheme secure2 +:+ String c2 u2)) = None).
      { unfold RegExp.exec_at, fullUrlPattern.
        cbn [RegExp.seqs RegExp.lit_i RegExp.chr_i RegExp.run].
        rewrite (separator_not_alpha sep Hsep), andb_false_r. reflexivity. }
      rewrite Hfail. reflexivity. }
    assert (Hprev : forall prev,
              RegExp.scan fullUrlPattern prev (url_scheme secure2 +:+ String c2 u2) 0
              = RegExp.scan fullUrlPattern None (url_scheme secure2 +:+ String c2 u2) 0).
    { intros prev. destruct (url_scheme_cons secure2) as [rest Hrest].
      rewrite Hrest, append_cons. cbn [RegExp.scan].
      pose proof (fullUrl_at secure2 c2 u2 EmptyString prev Hc2 Hu2 eq_refl) as Hp.
      pose proof (fullUrl_at secure2 c2 u2 EmptyString None Hc2 Hu2 eq_refl) as Hn.
      rewrite append_empty_r, Hrest, append_cons in Hp, Hn. rewrite Hp, Hn. reflexivity. }
    unfold hasMultipleUrls, RegExp.matchAll. cbv zeta.
    rewrite Hscan1, Hsepscan, Hprev, Hscan2.
    reflexivity.
Qed.

End Url_count.

Lemma one_url_two_urls_witness :
  hasMultipleUrls "https://a.com/x.pdf" = false
  /\ hasMultipleUrls "https://a.com/x.pdf http://b.org/y.png" = true.
Proof.
  apply (one_url_two_urls true false "a" "b" " " ".com/x.pdf" ".org/y.png"); reflexivity.
Defined.

(** ** Data URLs *)

Section Data_urls.

Lemma strip_end_cons (c : ascii) (s : string) :
  URL.is_c0_or_space c = false ->
  URL.strip_end (String c s) = String c (URL.strip_end s).
Proof.
  intros Hc. cbn [URL.strip_end]. rewrite Hc. destruct (URL.strip_end s); reflexivity.
Qed.

Lemma remove_tab_newline_cons (c : ascii) (s : string) :
  URL.is_tab_or_newline c = false ->
  URL.remove_tab_newline (String c s) = String c (URL.remove_tab_newline s).
Proof. intros Hc. cbn [URL.remove_tab_newline]. rewrite Hc. reflexivity. Qed.

(** A greedy group [(p+)] captures all the code units of the class when the
    continuation accepts what follows them. *)
Lemma group_plus_greedy {A : Type} (i : nat) (p : ascii -> bool) (k : RegExp.cont A)
    (cs : RegExp.captures) (prev : option ascii) (c : ascii) (u tail : string) :
  p c = true -> all_of p u = true -> stops p tail = true ->
  (forall prev', k ((i, String c u) :: cs) prev' tail <> None) ->
  exists prev',
    RegExp.run (RegExp.Group i (RegExp.plus (RegExp.Chr p))) cs prev (String c u +:+ tail) k
    = k ((i, String c u) :: cs) prev' tail.
Proof.
  intros Hc Hu Htail Hk.
  set (s := String c u +:+ tail).
  set (k' := fun cs' prev' s' => k ((i, RegExp.consumed s s') :: cs') prev' s').
  assert (Hk' : forall prev', k' cs prev' tail <> None).
  { intros prev'. unfold k', s. rewrite consumed_prefix. apply Hk. }
  destruct (star_greedy p k' cs tail Htail Hk' u (String.length (u +:+ tail)) (Some c)
              Hu ltac:(lia)) as [prev' Hstar].
  exists prev'.
  change (RegExp.run _ cs prev s k)
    with (if p c
          then RegExp.star_iter (RegExp.run (RegExp.Chr p)) (String.length (u +:+ tail))
                 cs (Some c) (u +:+ tail) k'
          else None).
  rewrite Hc, Hstar. unfold k', s. rewrite consumed_prefix. reflexivity.
Qed.

Lemma search_here (r : RegExp.regex) (prev : option ascii) (s : string)
    (m : RegExp.match_result) :
  RegExp.exec_at r prev s = Some m -> RegExp.search r prev s = Some m.
Proof. intros Hm. destruct s; cbn [RegExp.search]; rewrite Hm; reflexivity. Qed.

Lemma consumed_all (s : string) : RegExp.consumed s EmptyString = s.
Proof.
  unfold RegExp.consumed. cbn [String.length]. rewrite Nat.sub_0_r. apply substring_all.
Qed.

(** The data-URL pattern on a data URL: the first group is the media type
    and the second group is the payload. *)
Lemma data_url_exec (m b : ascii) (mime payload : string) :
  all_of not_semicolon (String m mime) = true ->
  all_of is_dot (String b payload) = true ->
  RegExp.exec data_url_re (data_url (String m mime) (String b payload))
  = Some {| RegExp.matched := data_url (String m mime) (String b payload);
            RegExp.groups := [(2%nat, String b payload); (1%nat, String m mime)];
            RegExp.rest := EmptyString |}.
Proof.
  intros Hm Hb. cbn [all_of] in Hm, Hb.
  apply andb_true_iff in Hm as [Hm Hmime]. apply andb_true_iff in Hb as [Hb Hpayload].
  apply search_here. unfold RegExp.exec_at.
  set (whole := data_url (String m mime) (String b payload)).
  set (k0 := fun (cs : RegExp.captures) (_ : option ascii) (s' : string) =>
               Some (RegExp.MatchResult (RegExp.consumed whole s') cs s')).
  set (kE := fun cs prev s => RegExp.run RegExp.Eol cs prev s k0).
  set (G2 := RegExp.Group 2 (RegExp.plus (RegExp.Chr is_dot))).
  set (K1 := fun cs prev s =>
               RegExp.run (RegExp.lit ";base64,") cs prev s
                 (fun cs' prev' s' => RegExp.run G2 cs' prev' s' kE)).
  assert (H2 : forall cs prev, exists prev',
             RegExp.run G2 cs prev (String b payload) kE
             = kE ((2%nat, String b payload) :: cs) prev' EmptyString).
  { intros cs prev.
    destruct (group_plus_greedy 2 is_dot kE cs prev b payload EmptyString Hb Hpayload
                eq_refl ltac:(discriminate)) as [prev' H].
    rewrite append_empty_r in H. exists prev'. exact H. }
  assert (H1 : forall prev,
             K1 [(1%nat, String m mime)] prev (";base64," +:+ String b payload)
             = Some (RegExp.MatchResult whole
                       [(2%nat, String b payload); (1%nat, String m mime)] EmptyString)).
  { intros prev. destruct (H2 [(1%nat, String m mime)] (Some ","%char)) as [prev' H].
    change (K1 [(1%nat, String m mime)] prev (";base64," +:+ String b payload))
      with (RegExp.run G2 [(1%nat, String m mime)] (Some ","%char) (String b payload) kE).
    rewrite H. unfold kE, k0. cbn [RegExp.run]. rewrite consumed_all. reflexivity. }
  destruct (group_plus_greedy 1 not_semicolon K1 [] (Some ":"%char) m mime
              (";base64," +:+ String b payload) Hm Hmime eq_refl
              ltac:(intros prev'; rewrite H1; discriminate)) as [prev' H].
  change (RegExp.run data_url_re [] None whole k0)
    with (RegExp.run (RegExp.Group 1 (RegExp.plus (RegExp.Chr not_semicolon))) []
            (Some ":"%char) (String m mime +:+ ";base64," +:+ String b payload) K1).
  rewrite H. apply H1.
Qed.

End Data_urls.

Section Data_url_detection.
Context {platform : Platform}.

(** A text with the scheme [data] is no http or https URL, whatever the
    platform does after the scheme. *)
Lemma data_not_url (t : string) : validateUrl ("data:" +:+ t) = false.
Proof.
  unfold validateUrl, urlSchema, URL.protocol.
  change ("data:" +:+ t) with (String "d" (String "a" (String "t" (String "a" (String ":" t))))).
  change (URL.strip_start (String "d" ?x)) with (String "d" x).
  rewrite !strip_end_cons by reflexivity.
  rewrite !remove_tab_newline_cons by reflexivity.
  set (t' := URL.remove_tab_newline (URL.strip_end t)).
  change (URL.scheme_start_state _) with (Some ("data", t')).
  cbv beta iota. destruct (parses_after_scheme "data" t'); [|reflexivity].
  apply andb_false_iff. right. reflexivity.
Qed.

(** Taking a data URL apart gives back the media type and the payload it
    was built from. *)
Lemma extract_data_url (m b : ascii) (mime payload : string) :
  all_of not_semicolon (String m mime) = true ->
  all_of is_dot (String b payload) = true ->
  isDataUrl (data_url (String m mime) (String b payload)) = true
  /\ extractBase64FromDataUrl (data_url (String m mime) (String b payload))
     = Some {| base64 := String b payload; mimeType := String m mime |}.
Proof.
  intros Hm Hb. unfold isDataUrl, extractBase64FromDataUrl, dataUrlSchema.
  rewrite test_ok, (data_url_exec m b mime payload Hm Hb). split; reflexivity.
Qed.

(** The branch of the classifier for data URLs. *)
Lemma detect_data (input : string) (m b : ascii) (mime payload : string) :
  trim input = data_url (String m mime) (String b payload) ->
  all_of not_semicolon (String m mime) = true ->
  all_of is_dot (String b payload) = true ->
  detectInputType input
  = {| inputType := InputBase64;
       contentType := if startsWith (String m mime) "image/" then ContentImage
                      else if String.eqb (String m mime) "application/pdf" then ContentPdf
                      else ContentUnknown;
       value := String b payload |}.
Proof.
  intros Htrim Hm Hb. unfold detectInputType. cbv zeta. rewrite Htrim.
  unfold data_url at 1. rewrite data_not_url.
  fold (data_url (String m mime) (String b payload)).
  destruct (extract_data_url m b mime payload Hm Hb) as [-> ->]. reflexivity.
Qed.

(** X23. A data URL built from a media type without semicolon and a payload
    without line terminator is recognised as a data URL and taken apart
    into that media type and that payload; the classifier reports it as
    base64 whose value is the payload, not the whole text, with the content
    type the media type declares: an image for [image/...], a PDF for
    [application/pdf], unknown otherwise. *)
Theorem detect_data_url (input : string) (m b : ascii) (mime payload : string) :
  trim input = data_url (String m mime) (String b payload) ->
  all_of not_semicolon (String m mime) = true ->
  all_of is_dot (String b payload) = true ->
  extractBase64FromDataUrl (trim input)
  = Some {| base64 := String b payload; mimeType := String m mime |}
  /\ detectInputType input
     = {| inputType := InputBase64;
          contentType := if startsWith (String m mime) "image/" then ContentImage
                         else if String.eqb (String m mime) "application/pdf"
                              then ContentPdf
                         else ContentUnknown;
          value := String b payload |}.
Proof.
  intros Htrim Hm Hb. split.
  - rewrite Htrim. apply extract_data_url; assumption.
  - apply detect_data; assumption.
Qed.

(** X24. A data URL typed into the text field is submitted as base64 with
    its payload only, and the media type it declares is not passed on: it
    is submitted as a document of type application/pdf when it declares
    exactly that, and as an image of type image/jpeg in every other case;
    with a valid API key and a payload that passes the base64 schema, the
    request carries a data URL rebuilt with that media type. *)
Theorem data_url_submission (textInput apiKey : string) (m b : ascii)
    (mime payload : string) :
  trim textInput = data_url (String m mime) (String b payload) ->
  all_of not_semicolon (String m mime) = true ->
  all_of is_dot (String b payload) = true ->
  let submitted :=
    if String.eqb (String m mime) "application/pdf"
    then Base64Document (String b payload) "application/pdf"
    else Base64Image (String b payload) "image/jpeg" in
  handleProcessText textInput = Some submitted
  /\ (apiKeySchema apiKey = true -> base64Schema (String b payload) = true ->
      prepare apiKey submitted
      = Return (ocr_request
                  (if String.eqb (String m mime) "application/pdf"
                   then document_url (data_url "application/pdf" (String b payload))
                   else image_url (data_url "image/jpeg" (String b payload))))).
Proof.
  intros Htrim Hm Hb submitted. subst submitted. split.
  - unfold handleProcessText. cbv zeta.
    rewrite (detect_data textInput m b mime payload Htrim Hm Hb), Htrim.
    change (String.eqb (data_url (String m mime) (String b payload)) EmptyString) with false.
    cbn [inputType contentType value].
    destruct (String.eqb_spec (String m mime) "application/pdf") as [-> | _]; [reflexivity|].
    destruct (startsWith (String m mime) "image/"); reflexivity.
  - intros Hkey Hschema. unfold prepare. rewrite Hkey. cbn [negb].
    destruct (String.eqb (String m mime) "application/pdf"); rewrite Hschema; reflexivity.
Qed.

End Data_url_detection.

Lemma detect_data_url_witness :
  extractBase64FromDataUrl (trim Samples.png_data_url)
  = Some {| base64 := Samples.png_payload; mimeType := "image/png" |}
  /\ @detectInputType Reference.platform Samples.png_data_url
     = {| inputType := InputBase64; contentType := ContentImage;
          value := Samples.png_payload |}.
Proof.
  apply (@detect_data_url Reference.platform Samples.png_data_url
           "i" "i" "mage/png" Samples.png_payload_tail); reflexivity.
Defined.

Lemma data_url_submission_witness :
  @handleProcessText Reference.platform Samples.png_data_url
  = Some (Base64Image Samples.png_payload "image/jpeg")
  /\ @prepare Reference.platform Examples.valid_key
       (Base64Image Samples.png_payload "image/jpeg")
     = Return (ocr_request (image_url (data_url "image/jpeg" Samples.png_payload))).
Proof.
  destruct (@data_url_submission Reference.platform Samples.png_data_url
              Examples.valid_key "i" "i" "mage/png" Samples.png_payload_tail
              eq_refl eq_refl eq_refl) as [Hsubmit Hrequest].
  split; [exact Hsubmit | exact (Hrequest eq_refl eq_refl)].
Defined.

(** * The multi-URL detector and its plain description *)

(** ** The matcher and what a pattern denotes *)

Section Denotation.

Lemma star_iter_sound {A : Type}
    (body : RegExp.captures -> option ascii -> string -> RegExp.cont A -> option A)
    (R : option ascii -> string -> option ascii -> string -> Prop) :
  (forall cs prev s k a, body cs prev s k = Some a ->
     exists cs' p' s', R prev s p' s' /\ k cs' p' s' = Some a) ->
  forall fuel cs prev s k a,
    RegExp.star_iter body fuel cs prev s k = Some a ->
    exists cs' p' s', iter R prev s p' s' /\ k cs' p' s' = Some a.
Proof.
  intros Hbody. induction fuel as [|fuel IH]; intros cs prev s k a Hrun; simpl in Hrun.
  - exists cs, prev, s. split; [constructor | exact Hrun].
  - destruct (body cs prev s _) as [a'|] eqn:Hb.
    + injection Hrun as ->. apply Hbody in Hb as (cs1 & p1 & s1 & HR & Hk).
      destruct (Nat.ltb_spec (String.length s1) (String.length s)) as [Hlt|];
        [|discriminate].
      apply IH in Hk as (cs2 & p2 & s2 & Hiter & Hk2).
      exists cs2, p2, s2. split; [|exact Hk2].
      exact (iter_step R prev s p1 s1 p2 s2 HR Hlt Hiter).
    + exists cs, prev, s. split; [constructor | exact Hrun].
Qed.

(** A successful run has called its continuation at the end of something
    the pattern denotes. *)
Lemma run_sound {A : Type} (r : RegExp.regex) :
  forall cs prev s (k : RegExp.cont A) a,
    RegExp.run r cs prev s k = Some a ->
    exists cs' p' s', denotes r prev s p' s' /\ k cs' p' s' = Some a.
Proof.
  induction r as [|p|r1 IH1 r2 IH2|r1 IH1 r2 IH2|r IH|i r IH| | |];
    intros cs prev s k a Hrun; cbn [RegExp.run] in Hrun; cbn [denotes].
  - exists cs, prev, s. repeat split; exact Hrun.
  - destruct s as [|c s]; [discriminate|]. destruct (p c) eqn:Hc; [|discriminate].
    exists cs, (Some c), s. split; [|exact Hrun]. exists c. repeat split. exact Hc.
  - apply IH1 in Hrun as (cs1 & p1 & s1 & H1 & Hk).
    apply IH2 in Hk as (cs2 & p2 & s2 & H2 & Hk2).
    exists cs2, p2, s2. split; [|exact Hk2]. exists p1, s1. split; assumption.
  - destruct (RegExp.run r1 cs prev s k) as [a'|] eqn:H1.
    + injection Hrun as ->. apply IH1 in H1 as (cs1 & p1 & s1 & Hd & Hk).
      exists cs1, p1, s1. split; [left; exact Hd | exact Hk].
    + apply IH2 in Hrun as (cs1 & p1 & s1 & Hd & Hk).
      exists cs1, p1, s1. split; [right; exact Hd | exact Hk].
  - exact (star_iter_sound (RegExp.run r) (denotes r) IH _ _ _ _ _ _ Hrun).
  - apply IH in Hrun as (cs1 & p1 & s1 & Hd & Hk).
    exists ((i, RegExp.consumed s s1) :: cs1), p1, s1. split; assumption.
  - destruct (xorb _ _) eqn:Hb; [|discriminate].
    exists cs, prev, s. repeat split; assumption.
  - destruct prev; [discriminate|].
    exists cs, None, s. repeat split; exact Hrun.
  - destruct s; [|discriminate].
    exists cs, prev, EmptyString. repeat split; exact Hrun.
Qed.

(** A run succeeds when the pattern denotes something after which the
    continuation succeeds. *)
Lemma run_complete {A : Type} (r : RegExp.regex) :
  forall prev s p' s',
    denotes r prev s p' s' ->
    forall (k : RegExp.cont A) cs,
      (forall cs', k cs' p' s' <> None) ->
      RegExp.run r cs prev s k <> None.
Proof.
  induction r as [|p|r1 IH1 r2 IH2|r1 IH1 r2 IH2|r IH|i r IH| | |];
    intros prev s p' s' Hd; cbn [denotes] in Hd.
  - destruct Hd as [-> ->]. intros k cs Hk. apply Hk.
  - destruct Hd as (c & -> & Hc & ->). intros k cs Hk. cbn [RegExp.run].
    rewrite Hc. apply Hk.
  - destruct Hd as (p1 & s1 & H1 & H2). intros k cs Hk. cbn [RegExp.run].
    apply (IH1 _ _ _ _ H1). intros cs'. apply (IH2 _ _ _ _ H2). exact Hk.
  - intros k cs Hk. cbn [RegExp.run].
    destruct (RegExp.run r1 cs prev s k) eqn:H1; [discriminate|].
    destruct Hd as [Hd | Hd].
    + exfalso. exact (IH1 _ _ _ _ Hd k cs Hk H1).
    + exact (IH2 _ _ _ _ Hd k cs Hk).
  - intros k cs Hk. revert cs. cbn [RegExp.run].
    induction Hd as [prev s | prev s p1 s1 p2 s2 HR Hlt Hiter IHiter]; intros cs.
    + destruct (String.length s); cbn [RegExp.star_iter]; [apply Hk|].
      destruct (RegExp.run r cs prev s _); [discriminate | apply Hk].
    + destruct (String.length s) as [|n] eqn:Hn; [lia|]. cbn [RegExp.star_iter].
      assert (Hbody : RegExp.run r cs prev s
                        (fun cs' prev' s'' =>
                           if (String.length s'' <? String.length s)%nat
                           then RegExp.star_iter (RegExp.run r) n cs' prev' s'' k
                           else None) <> None).
      { apply (IH _ _ _ _ HR). intros cs'.
        destruct (Nat.ltb_spec (String.length s1) (String.length s)) as [_|]; [|lia].
        replace n with (String.length s1 + (n - String.length s1))%nat by lia.
        rewrite star_iter_fuel. apply (IHiter Hk). }
      destruct (RegExp.run r cs prev s _); [discriminate | contradiction].
  - intros k cs Hk. cbn [RegExp.run]. apply (IH _ _ _ _ Hd). intros cs'. apply Hk.
  - destruct Hd as (Hb & -> & ->). intros k cs Hk. cbn [RegExp.run]. rewrite Hb. apply Hk.
  - destruct Hd as (-> & -> & ->). intros k cs Hk. apply Hk.
  - destruct Hd as (-> & -> & ->). intros k cs Hk. apply Hk.
Qed.

(** When the continuation fails wherever the pattern can end, so does the
    run. *)
Lemma run_all_none {A : Type} (r : RegExp.regex) (cs : RegExp.captures)
    (prev : option ascii) (s : string) (k : RegExp.cont A) :
  (forall p' s' cs', denotes r prev s p' s' -> k cs' p' s' = None) ->
  RegExp.run r cs prev s k = None.
Proof.
  intros Hk. destruct (RegExp.run r cs prev s k) as [a|] eqn:Hrun; [|reflexivity].
  apply run_sound in Hrun as (cs' & p' & s' & Hd & Hk').
  rewrite (Hk _ _ _ Hd) in Hk'. discriminate Hk'.
Qed.

(** When the continuation gives one and the same result wherever the
    pattern can end, and the pattern can end somewhere, that is the result
    of the run. *)
Lemma run_const {A : Type} (r : RegExp.regex) (cs : RegExp.captures)
    (prev : option ascii) (s : string) (k : RegExp.cont A) (a : A)
    (p0 : option ascii) (s0 : string) :
  (forall p' s' cs', denotes r prev s p' s' -> k cs' p' s' = Some a) ->
  denotes r prev s p0 s0 ->
  RegExp.run r cs prev s k = Some a.
Proof.
  intros Hk Hd.
  destruct (RegExp.run r cs prev s k) as [a'|] eqn:Hrun.
  - apply run_sound in Hrun as (cs' & p' & s' & Hd' & Hk').
    rewrite (Hk _ _ _ Hd') in Hk'. symmetry. exact Hk'.
  - exfalso. apply (run_complete r _ _ _ _ Hd k cs); [|exact Hrun].
    intros cs'. rewrite (Hk _ _ cs' Hd). discriminate.
Qed.

End Denotation.

(** ** Runs of code units *)

Section Runs.

Lemma star_iter_map {A B : Type} (f : A -> B) (r : RegExp.regex) :
  (forall cs prev s (k : RegExp.cont A),
     option_map f (RegExp.run r cs prev s k)
     = RegExp.run r cs prev s (fun cs' p' s' => option_map f (k cs' p' s'))) ->
  forall fuel cs prev s (k : RegExp.cont A),
    option_map f (RegExp.star_iter (RegExp.run r) fuel cs prev s k)
    = RegExp.star_iter (RegExp.run r) fuel cs prev s
        (fun cs' p' s' => option_map f (k cs' p' s')).
Proof.
  intros Hr. induction fuel as [|fuel IH]; intros cs prev s k; cbn [RegExp.star_iter].
  - reflexivity.
  - rewrite <- (run_ext r cs prev s
                  (fun cs' p' s' =>
                     option_map f
                       (if (String.length s' <? String.length s)%nat
                        then RegExp.star_iter (RegExp.run r) fuel cs' p' s' k
                        else None))).
    + rewrite <- Hr. destruct (RegExp.run r cs prev s _); reflexivity.
    + intros cs' p' u s' _.
      destruct (String.length s' <? String.length s)%nat; [apply IH | reflexivity].
Qed.

(** Mapping the result of a run is mapping the result of its
    continuation. *)
Lemma run_map {A B : Type} (f : A -> B) (r : RegExp.regex) :
  forall cs prev s (k : RegExp.cont A),
    option_map f (RegExp.run r cs prev s k)
    = RegExp.run r cs prev s (fun cs' p' s' => option_map f (k cs' p' s')).
Proof.
  induction r as [|p|r1 IH1 r2 IH2|r1 IH1 r2 IH2|r IH|i r IH| | |];
    intros cs prev s k; cbn [RegExp.run].
  - reflexivity.
  - destruct s as [|c s]; [reflexivity|]. destruct (p c); reflexivity.
  - rewrite IH1. apply run_ext. intros cs' p' u s' _. apply IH2.
  - rewrite <- IH1, <- IH2. destruct (RegExp.run r1 cs prev s k); reflexivity.
  - apply star_iter_map. exact IH.
  - apply IH.
  - destruct (xorb _ _); reflexivity.
  - destruct prev; reflexivity.
  - destruct s; reflexivity.
Qed.

(** The rest of a match attempt. *)
Lemma exec_at_rest (r : RegExp.regex) (prev : option ascii) (s : string) :
  option_map RegExp.rest (RegExp.exec_at r prev s) = rest_after r prev s.
Proof.
  exact (run_map RegExp.rest r [] prev s
           (fun cs _ s' => Some (RegExp.MatchResult (RegExp.consumed s s') cs s'))).
Qed.

Lemma matched_length (r : RegExp.regex) (prev : option ascii) (s : string)
    (m : RegExp.match_result) :
  RegExp.exec_at r prev s = Some m ->
  String.length (RegExp.matched m)
  = (String.length s - String.length (RegExp.rest m))%nat.
Proof.
  intros Hexec. apply exec_at_split in Hexec.
  rewrite Hexec at 1. rewrite length_append. lia.
Qed.

(** [p*] runs to the end of the longest run of code units of the class
    after which the continuation succeeds. *)
Lemma star_chr_run {A : Type} (p : ascii -> bool) (k : RegExp.cont A)
    (cs : RegExp.captures) :
  forall fuel prev s,
    (String.length s <= fuel)%nat ->
    RegExp.star_iter (RegExp.run (RegExp.Chr p)) fuel cs prev s k
    = after_longest_run p (k cs) prev s.
Proof.
  induction fuel as [|fuel IH]; intros prev s Hlen.
  - destruct s; [reflexivity | simpl in Hlen; lia].
  - destruct s as [|c s]; cbn [RegExp.star_iter after_longest_run].
    + change (RegExp.run (RegExp.Chr p) cs prev EmptyString _) with (@None A).
      reflexivity.
    + rewrite run_chr_cons. destruct (p c); [|reflexivity].
      destruct (Nat.ltb_spec (String.length s) (String.length (String c s)))
        as [_ | Hbad]; [|simpl in Hbad; lia].
      rewrite IH by (simpl in Hlen; lia). reflexivity.
Qed.

Lemma run_star_chr {A : Type} (p : ascii -> bool) (k : RegExp.cont A)
    (cs : RegExp.captures) (prev : option ascii) (s : string) :
  RegExp.run (RegExp.Star (RegExp.Chr p)) cs prev s k
  = after_longest_run p (k cs) prev s.
Proof.
  change (RegExp.run (RegExp.Star (RegExp.Chr p)) cs prev s k)
    with (RegExp.star_iter (RegExp.run (RegExp.Chr p)) (String.length s) cs prev s k).
  apply star_chr_run. lia.
Qed.

Lemma run_plus_chr {A : Type} (p : ascii -> bool) (k : RegExp.cont A)
    (cs : RegExp.captures) (prev : option ascii) (s : string) :
  RegExp.run (RegExp.plus (RegExp.Chr p)) cs prev s k
  = match s with
    | String c s' => if p c then after_longest_run p (k cs) (Some c) s' else None
    | EmptyString => None
    end.
Proof.
  destruct s as [|c s]; [reflexivity|].
  change (RegExp.run (RegExp.plus (RegExp.Chr p)) cs prev (String c s) k)
    with (if p c then RegExp.run (RegExp.Star (RegExp.Chr p)) cs (Some c) s k else None).
  destruct (p c); [apply run_star_chr | reflexivity].
Qed.

Lemma after_longest_run_ext {A : Type} (p q : ascii -> bool)
    (f g : option ascii -> string -> option A) (prev : option ascii) (s : string) :
  (forall c, p c = q c) -> (forall prev' s', f prev' s' = g prev' s') ->
  after_longest_run p f prev s = after_longest_run q g prev s.
Proof.
  intros Hpq Hfg. revert prev.
  induction s as [|c s IH]; intros prev; cbn [after_longest_run].
  - apply Hfg.
  - rewrite Hpq, IH, Hfg. reflexivity.
Qed.

(** When nothing is asked of what follows, the longest run is the whole
    run. *)
Lemma after_longest_run_all (p : ascii -> bool) (prev : option ascii) (s : string) :
  after_longest_run p (fun _ s' => Some s') prev s = Some (drop_while p s).
Proof.
  revert prev. induction s as [|c s IH]; intros prev;
    cbn [after_longest_run drop_while]; [reflexivity|].
  destruct (p c); [rewrite IH|]; reflexivity.
Qed.

Lemma take_drop_while (p : ascii -> bool) (s : string) :
  s = take_while p s +:+ drop_while p s.
Proof.
  induction s as [|c s IH]; cbn [take_while drop_while]; [reflexivity|].
  destruct (p c); [rewrite append_cons, <- IH|]; reflexivity.
Qed.

Lemma all_of_take_while (p : ascii -> bool) (s : string) :
  all_of p (take_while p s) = true.
Proof.
  induction s as [|c s IH]; cbn [take_while]; [reflexivity|].
  destruct (p c) eqn:Hc; [cbn [all_of]; rewrite Hc, IH|]; reflexivity.
Qed.

Lemma take_while_app (p : ascii -> bool) (u v : string) :
  all_of p u = true -> take_while p (u +:+ v) = u +:+ take_while p v.
Proof.
  induction u as [|c u IH]; [reflexivity|]. rewrite !append_cons. cbn [all_of take_while].
  intros Hu. apply andb_true_iff in Hu as [-> Hu]. rewrite (IH Hu). reflexivity.
Qed.

Lemma drop_while_app (p : ascii -> bool) (u v : string) :
  all_of p u = true -> drop_while p (u +:+ v) = drop_while p v.
Proof.
  induction u as [|c u IH]; [reflexivity|]. rewrite append_cons. cbn [all_of drop_while].
  intros Hu. apply andb_true_iff in Hu as [-> Hu]. exact (IH Hu).
Qed.

Lemma take_while_stops (p : ascii -> bool) (u v : string) :
  all_of p u = true -> stops p v = true -> take_while p (u +:+ v) = u.
Proof.
  intros Hu Hv. rewrite take_while_app by exact Hu.
  destruct v as [|c v]; cbn [take_while].
  - apply append_empty_r.
  - cbn [stops] in Hv. apply negb_true_iff in Hv. rewrite Hv. apply append_empty_r.
Qed.

Lemma all_of_weaken (p q : ascii -> bool) (s : string) :
  (forall c, p c = true -> q c = true) -> all_of p s = true -> all_of q s = true.
Proof.
  intros Hpq. induction s as [|c s IH]; [reflexivity|]. cbn [all_of].
  intros Hs. apply andb_true_iff in Hs as [Hc Hs]. rewrite (Hpq c Hc), (IH Hs). reflexivity.
Qed.

(** The class [[^\s,;]] of the patterns. *)
Lemma is_url_char_non_separator (c : ascii) : is_url_char c = non_separator c.
Proof. destruct c as [[] [] [] [] [] [] [] []]; reflexivity. Qed.

End Runs.

(** ** Text compared without regard to case *)

Section Case.

Lemma starts_ci_app (l1 l2 s : string) :
  starts_ci (l1 +:+ l2) s
  = match starts_ci l1 s with
    | Some s1 => starts_ci l2 s1
    | None => None
    end.
Proof.
  revert s. induction l1 as [|a l1 IH]; intros s; [reflexivity|].
  rewrite append_cons. cbn [starts_ci]. destruct s as [|c s]; [reflexivity|].
  destruct (Ascii.eqb (lower_char c) a); [apply IH | reflexivity].
Qed.

Lemma lower_alpha (c : ascii) : is_lower (lower_char c) = true -> is_alpha c = true.
Proof.
  destruct c as [[] [] [] [] [] [] [] []]; intros Hc; try discriminate Hc; reflexivity.
Qed.

(** Under the i flag a lower-case letter of a pattern matches the code units
    whose lower case it is. *)
Lemma chr_i_ci (l c : ascii) :
  is_lower l = true ->
  Ascii.eqb (lower_char l) (lower_char c) && is_alpha c = Ascii.eqb (lower_char c) l.
Proof.
  intros Hl. rewrite (lower_char_lower l Hl), (Ascii.eqb_sym l).
  destruct (Ascii.eqb_spec (lower_char c) l) as [Heq | _]; [|reflexivity].
  rewrite <- Heq in Hl. rewrite (lower_alpha c Hl). reflexivity.
Qed.

Lemma run_chr_i {A : Type} (l : ascii) (cs : RegExp.captures) (prev : option ascii)
    (s : string) (k : RegExp.cont A) :
  is_lower l = true ->
  RegExp.run (RegExp.chr_i l) cs prev s k
  = match s with
    | String c s' => if Ascii.eqb (lower_char c) l then k cs (Some c) s' else None
    | EmptyString => None
    end.
Proof.
  intros Hl. destruct s as [|c s]; [reflexivity|].
  unfold RegExp.chr_i. rewrite run_chr_cons, (chr_i_ci l c Hl). reflexivity.
Qed.

(** A run of letters under the i flag. *)
Lemma run_lit_i {A : Type} (l : string) :
  all_of is_lower l = true -> l <> EmptyString ->
  forall cs prev s (k : RegExp.cont A),
    match starts_ci l s with
    | Some s' =>
        exists c, is_alpha c = true
                  /\ RegExp.run (RegExp.lit_i l) cs prev s k = k cs (Some c) s'
    | None => RegExp.run (RegExp.lit_i l) cs prev s k = None
    end.
Proof.
  induction l as [|a l IH]; intros Hl Hne; [contradiction|].
  cbn [all_of] in Hl. apply andb_true_iff in Hl as [Ha Hl].
  intros cs prev s k. destruct l as [|b l].
  - cbn [RegExp.lit_i starts_ci]. rewrite (run_chr_i a cs prev s k Ha).
    destruct s as [|c s]; [reflexivity|].
    destruct (Ascii.eqb_spec (lower_char c) a) as [Hc | _]; [|reflexivity].
    exists c. split; [|reflexivity]. apply lower_alpha. rewrite Hc. exact Ha.
  - change (RegExp.lit_i (String a (String b l)))
      with (RegExp.Seq (RegExp.chr_i a) (RegExp.lit_i (String b l))).
    cbn [RegExp.run].
    rewrite (run_chr_i a cs prev s _ Ha).
    change (starts_ci (String a (String b l)) s)
      with (match s with
            | String c s' =>
                if Ascii.eqb (lower_char c) a then starts_ci (String b l) s' else None
            | EmptyString => None
            end).
    destruct s as [|c s]; [reflexivity|].
    destruct (Ascii.eqb (lower_char c) a); [|reflexivity].
    apply (IH Hl ltac:(discriminate)).
Qed.

Lemma lower_char_colon (c : ascii) : Ascii.eqb (lower_char c) ":" = Ascii.eqb ":" c.
Proof. destruct c as [[] [] [] [] [] [] [] []]; reflexivity. Qed.

Lemma lower_char_slash (c : ascii) : Ascii.eqb (lower_char c) "/" = Ascii.eqb "/" c.
Proof. destruct c as [[] [] [] [] [] [] [] []]; reflexivity. Qed.

Lemma lower_char_dot (c : ascii) : Ascii.eqb (lower_char c) "." = Ascii.eqb "." c.
Proof. destruct c as [[] [] [] [] [] [] [] []]; reflexivity. Qed.

Lemma run_chr {A : Type} (a : ascii) (cs : RegExp.captures) (prev : option ascii)
    (s : string) (k : RegExp.cont A) :
  RegExp.run (RegExp.chr a) cs prev s k
  = match s with
    | String c s' => if Ascii.eqb a c then k cs (Some c) s' else None
    | EmptyString => None
    end.
Proof. destruct s; reflexivity. Qed.

End Case.

(** ** Full URLs *)

Section Full_urls.

Lemma after_run_plus (cs : RegExp.captures) (prev : option ascii) (s : string) :
  RegExp.run (RegExp.plus (RegExp.Chr is_url_char)) cs prev s (fun _ _ s' => Some s')
  = after_run s.
Proof.
  rewrite run_plus_chr. unfold after_run. destruct s as [|c s]; [reflexivity|].
  rewrite is_url_char_non_separator. cbn [drop_while].
  destruct (non_separator c); [|reflexivity].
  rewrite <- after_longest_run_all with (prev := Some c).
  apply after_longest_run_ext; [apply is_url_char_non_separator | reflexivity].
Qed.

Lemma colon_slashes (cs : RegExp.captures) (prev : option ascii) (s : string) :
  RegExp.run (RegExp.lit "://") cs prev s
    (fun cs' p' s' =>
       RegExp.run (RegExp.plus (RegExp.Chr is_url_char)) cs' p' s' (fun _ _ s'' => Some s''))
  = match starts_ci "://" s with
    | Some rest => after_run rest
    | None => None
    end.
Proof.
  change (RegExp.lit "://")
    with (RegExp.Seq (RegExp.chr ":") (RegExp.Seq (RegExp.chr "/") (RegExp.chr "/"))).
  cbn [RegExp.run starts_ci]. rewrite run_chr.
  destruct s as [|c1 s]; [reflexivity|]. rewrite lower_char_colon.
  destruct (Ascii.eqb ":" c1); [|reflexivity]. rewrite run_chr.
  destruct s as [|c2 s]; [reflexivity|]. rewrite lower_char_slash.
  destruct (Ascii.eqb "/" c2); [|reflexivity]. rewrite run_chr.
  destruct s as [|c3 s]; [reflexivity|]. rewrite lower_char_slash.
  destruct (Ascii.eqb "/" c3); [|reflexivity]. apply after_run_plus.
Qed.

(** The full-URL pattern matches what the plain description says. *)
Lemma full_url_pattern (prev : option ascii) (s : string) :
  rest_after fullUrlPattern prev s = full_url_rest s.
Proof.
  unfold rest_after, fullUrlPattern, full_url_rest. cbn [RegExp.seqs RegExp.run].
  change "https://" with ("http" +:+ "s://"). change "http://" with ("http" +:+ "://").
  rewrite !starts_ci_app.
  match goal with
  | |- RegExp.run (RegExp.lit_i "http") [] prev s ?k = _ =>
      pose proof (run_lit_i "http" eq_refl ltac:(discriminate) [] prev s k) as Hhttp
  end.
  destruct (starts_ci "http" s) as [s1|]; [|exact Hhttp].
  destruct Hhttp as (c & _ & ->).
  unfold RegExp.opt. cbn [RegExp.run].
  rewrite (run_chr_i "s" [] (Some c) s1 _ eq_refl).
  change (starts_ci "s://" s1)
    with (match s1 with
          | String c1 s1' =>
              if Ascii.eqb (lower_char c1) "s" then starts_ci "://" s1' else None
          | EmptyString => None
          end).
  destruct s1 as [|c1 s1]; [reflexivity|]. rewrite !colon_slashes.
  destruct (Ascii.eqb_spec (lower_char c1) "s") as [Hs | _]; [|reflexivity].
  assert (Hno : starts_ci "://" (String c1 s1) = None).
  { cbn [starts_ci]. rewrite Hs. reflexivity. }
  rewrite Hno. destruct (starts_ci "://" s1) as [rest|]; [|reflexivity].
  destruct (after_run rest); reflexivity.
Qed.

Lemma starts_ci_length (l s rest : string) :
  starts_ci l s = Some rest ->
  String.length s = (String.length l + String.length rest)%nat.
Proof.
  revert s. induction l as [|a l IH]; intros s; cbn [starts_ci].
  - intros [= ->]. reflexivity.
  - destruct s as [|c s]; [discriminate|].
    destruct (Ascii.eqb (lower_char c) a); [|discriminate].
    intros H. apply IH in H. simpl. lia.
Qed.

Lemma drop_while_length (p : ascii -> bool) (s : string) :
  (String.length (drop_while p s) <= String.length s)%nat.
Proof.
  induction s as [|c s IH]; cbn [drop_while]; [lia|].
  destruct (p c); simpl; lia.
Qed.

Lemma after_run_shorter (s rest : string) :
  after_run s = Some rest -> (String.length rest < String.length s)%nat.
Proof.
  unfold after_run. destruct s as [|c s]; [discriminate|].
  cbn [drop_while]. destruct (non_separator c); [|discriminate].
  intros [= <-]. pose proof (drop_while_length non_separator s). simpl. lia.
Qed.

Lemma full_url_shorter (s rest : string) :
  full_url_rest s = Some rest -> (String.length rest < String.length s)%nat.
Proof.
  unfold full_url_rest.
  destruct (starts_ci "https://" s) as [r|] eqn:H1.
  - intros H. apply after_run_shorter in H. apply starts_ci_length in H1. lia.
  - destruct (starts_ci "http://" s) as [r|] eqn:H2; [|discriminate].
    intros H. apply after_run_shorter in H. apply starts_ci_length in H2. lia.
Qed.

End Full_urls.

(** ** Cutting a text *)

Section Cutting.

(** A scan with a pattern is the cut by what the pattern matches. *)
Lemma scan_cut (r : RegExp.regex) (here : option ascii -> string -> option string) :
  (forall prev s, rest_after r prev s = here prev s) ->
  (forall prev s rest, here prev s = Some rest ->
     (String.length rest < String.length s)%nat) ->
  forall s prev skip,
    (List.length (RegExp.matches_of (RegExp.scan r prev s skip)),
     RegExp.kept_of (RegExp.scan r prev s skip))
    = cut here prev s skip.
Proof.
  intros Hhere Hshorter. induction s as [|c s IH]; intros prev skip.
  - cbn [RegExp.scan cut].
    destruct (RegExp.exec_at r prev EmptyString) as [m|] eqn:Hexec.
    + exfalso. pose proof (exec_at_rest r prev EmptyString) as Hrest.
      rewrite Hexec, Hhere in Hrest. symmetry in Hrest.
      apply Hshorter in Hrest. simpl in Hrest. lia.
    + destruct skip; reflexivity.
  - cbn [RegExp.scan cut]. destruct skip as [|n]; [|apply IH].
    pose proof (exec_at_rest r prev (String c s)) as Hrest. rewrite Hhere in Hrest.
    destruct (RegExp.exec_at r prev (String c s)) as [m|] eqn:Hexec;
      cbn [option_map] in Hrest; rewrite <- Hrest.
    + pose proof (Hshorter _ _ _ (eq_sym Hrest)) as Hlt.
      rewrite (matched_length _ _ _ _ Hexec).
      replace (String.length (String c s) - String.length (RegExp.rest m))%nat
        with (S (String.length s - String.length (RegExp.rest m)))
        by (simpl in Hlt |- *; lia).
      cbn [RegExp.matches_of RegExp.kept_of List.length].
      rewrite <- IH. reflexivity.
    + cbn [RegExp.matches_of RegExp.kept_of]. rewrite <- IH. reflexivity.
Qed.

End Cutting.

(** ** Domain names *)

Section Domain_names.

Lemma split_cons_dot (u v : string) :
  all_of not_dot u = true ->
  split "." (u +:+ String "." v) = u :: split "." v.
Proof.
  induction u as [|c u IH]; [reflexivity|]. rewrite append_cons. cbn [all_of split].
  unfold not_dot at 1.
  intros Hu. apply andb_true_iff in Hu as [Hc Hu]. apply negb_true_iff in Hc.
  rewrite Hc, (IH Hu). reflexivity.
Qed.

Lemma split_no_dot (u : string) : all_of not_dot u = true -> split "." u = [u].
Proof.
  induction u as [|c u IH]; [reflexivity|]. cbn [all_of split]. unfold not_dot at 1.
  intros Hu. apply andb_true_iff in Hu as [Hc Hu]. apply negb_true_iff in Hc.
  rewrite Hc, (IH Hu). reflexivity.
Qed.

Lemma split_not_nil (a : ascii) (s : string) : split a s <> [].
Proof.
  destruct s as [|c s]; cbn [split]; [discriminate|].
  destruct (Ascii.eqb c a); [discriminate|]. destruct (split a s); discriminate.
Qed.

Lemma concat_cons (sep x : string) (y : string) (l : list string) :
  String.concat sep (x :: y :: l) = x +:+ sep +:+ String.concat sep (y :: l).
Proof. reflexivity. Qed.

(** Joining the components with dots gives the text back. *)
Lemma concat_split (d : string) : String.concat "." (split "." d) = d.
Proof.
  induction d as [|c d IH]; [reflexivity|]. cbn [split].
  pose proof (split_not_nil "." d) as Hne.
  destruct (Ascii.eqb_spec c ".") as [-> | _].
  - destruct (split "." d) as [|y l]; [contradiction|].
    rewrite concat_cons, IH. reflexivity.
  - destruct (split "." d) as [|y l]; [contradiction|].
    destruct l as [|z l].
    + cbn [String.concat] in IH |- *. rewrite IH. reflexivity.
    + rewrite concat_cons in IH |- *. rewrite append_cons, IH. reflexivity.
Qed.

(** The components of a text joined with dots. *)
Lemma split_concat (comps : list string) :
  comps <> [] -> Forall (fun x => all_of not_dot x = true) comps ->
  split "." (String.concat "." comps) = comps.
Proof.
  induction comps as [|x comps IH]; intros Hne Hall; [contradiction|].
  apply Forall_cons in Hall as [Hx Hall]. destruct comps as [|y comps].
  - cbn [String.concat]. apply split_no_dot, Hx.
  - rewrite concat_cons.
    change ("." +:+ String.concat "." (y :: comps))
      with (String "." (String.concat "." (y :: comps))).
    rewrite split_cons_dot by exact Hx.
    rewrite IH by (discriminate || exact Hall). reflexivity.
Qed.

Lemma label_char_not_dot (c : ascii) : is_label_char c = true -> not_dot c = true.
Proof. destruct c as [[] [] [] [] [] [] [] []]; intros H; try discriminate H; reflexivity. Qed.

Lemma alnum_label_char (c : ascii) : is_alnum c = true -> is_label_char c = true.
Proof. intros H. unfold is_label_char. rewrite H. reflexivity. Qed.

Lemma alpha_label_char (c : ascii) : is_alpha c = true -> is_label_char c = true.
Proof. intros H. unfold is_label_char, is_alnum. rewrite H. reflexivity. Qed.

Lemma label_char_non_separator (c : ascii) :
  is_label_char c = true -> non_separator c = true.
Proof. destruct c as [[] [] [] [] [] [] [] []]; intros H; try discriminate H; reflexivity. Qed.

Lemma label_chars (l : string) : is_label l = true -> all_of is_label_char l = true.
Proof.
  unfold is_label. destruct l as [|c l]; [discriminate|]. intros H.
  apply andb_true_iff in H as [H _]. apply andb_true_iff in H as [Hc Hl].
  cbn [all_of]. rewrite (alnum_label_char c Hc), Hl. reflexivity.
Qed.

Lemma tld_chars (t : string) : is_tld t = true -> all_of is_label_char t = true.
Proof.
  unfold is_tld. intros H. apply andb_true_iff in H as [_ H].
  exact (all_of_weaken _ _ t alpha_label_char H).
Qed.

(** The components of a domain name are labels and a top-level domain. *)
Lemma is_domain_intro (l : string) (labels : list string) (t : string) :
  is_label l = true -> Forall (fun x => is_label x = true) labels -> is_tld t = true ->
  is_domain (l :: labels ++ [t]) = true.
Proof.
  intros Hl Hlabels Ht. revert l Hl.
  induction Hlabels as [|x labels Hx _ IH]; intros l Hl.
  - cbn [app is_domain]. rewrite Hl, Ht. reflexivity.
  - change (is_domain (l :: (x :: labels) ++ [t]))
      with (is_label l && match (labels ++ [t])%list with
                          | [] => is_tld x
                          | _ :: _ => is_domain (x :: labels ++ [t])
                          end).
    rewrite Hl, (IH x Hx). destruct (labels ++ [t])%list eqn:Happ; [|reflexivity].
    destruct labels; discriminate Happ.
Qed.

Lemma is_domain_inv (comps : list string) :
  is_domain comps = true ->
  exists l labels t,
    comps = l :: (labels ++ [t])%list /\ is_label l = true
    /\ Forall (fun x => is_label x = true) labels /\ is_tld t = true.
Proof.
  induction comps as [|l comps IH]; [discriminate|].
  destruct comps as [|x comps]; [discriminate|].
  change (is_domain (l :: x :: comps))
    with (is_label l && match comps with
                        | [] => is_tld x
                        | _ :: _ => is_domain (x :: comps)
                        end).
  intros H. apply andb_true_iff in H as [Hl H]. destruct comps as [|y comps].
  - exists l, [], x. repeat split; [exact Hl | constructor | exact H].
  - destruct (IH H) as (l' & labels & t & Heq & Hl' & Hlabels & Ht).
    injection Heq as <- Heq. exists l, (x :: labels), t.
    rewrite Heq. repeat split; [exact Hl | constructor; assumption | exact Ht].
Qed.

(** A label, dot-separated further labels, a dot and a top-level domain. *)
Lemma dotted_concat (l : string) (labels : list string) (t rest : string) :
  l +:+ List.fold_right (fun x acc => String "." (x +:+ acc)) (String "." (t +:+ rest)) labels
  = String.concat "." (l :: labels ++ [t]) +:+ rest.
Proof.
  revert l. induction labels as [|x labels IH]; intros l.
  - cbn [List.fold_right app]. rewrite concat_cons. cbn [String.concat].
    rewrite !append_assoc. reflexivity.
  - cbn [List.fold_right]. rewrite (IH x).
    change ((x :: labels) ++ [t])%list with (x :: (labels ++ [t]))%list.
    rewrite concat_cons, !append_assoc. reflexivity.
Qed.

(** Labels each followed by a dot, and a top-level domain. *)
Lemma dots_concat (l : string) (labels : list string) (t rest : string) :
  l +:+ String "." (List.fold_right (fun x acc => x +:+ String "." acc) (t +:+ rest) labels)
  = String.concat "." (l :: labels ++ [t]) +:+ rest.
Proof.
  revert l. induction labels as [|x labels IH]; intros l.
  - cbn [List.fold_right app]. rewrite concat_cons. cbn [String.concat].
    rewrite !append_assoc. reflexivity.
  - cbn [List.fold_right]. rewrite (IH x).
    change ((x :: labels) ++ [t])%list with (x :: (labels ++ [t]))%list.
    rewrite concat_cons, !append_assoc. reflexivity.
Qed.

Lemma all_of_concat (p : ascii -> bool) (comps : list string) :
  p "."%char = true -> Forall (fun x => all_of p x = true) comps ->
  all_of p (String.concat "." comps) = true.
Proof.
  intros Hdot Hall. induction Hall as [|x comps Hx Hcomps IH]; [reflexivity|].
  destruct comps as [|y comps]; [exact Hx|].
  rewrite concat_cons, !all_of_app, Hx, IH. cbn [all_of]. rewrite Hdot. reflexivity.
Qed.

(** The text of a domain name. *)
Lemma domain_name_intro (l : string) (labels : list string) (t : string) :
  is_label l = true -> Forall (fun x => is_label x = true) labels -> is_tld t = true ->
  is_domain_name (String.concat "." (l :: labels ++ [t])) = true.
Proof.
  intros Hl Hlabels Ht. unfold is_domain_name. rewrite split_concat.
  - apply is_domain_intro; assumption.
  - discriminate.
  - apply Forall_cons. split.
    + exact (all_of_weaken _ _ l label_char_not_dot (label_chars l Hl)).
    + apply Forall_app. split.
      * eapply List.Forall_impl; [|exact Hlabels]. intros x Hx.
        exact (all_of_weaken _ _ x label_char_not_dot (label_chars x Hx)).
      * apply Forall_cons. split; [|constructor].
        exact (all_of_weaken _ _ t label_char_not_dot (tld_chars t Ht)).
Qed.

Lemma domain_name_inv (d : string) :
  is_domain_name d = true ->
  exists l labels t,
    d = String.concat "." (l :: labels ++ [t]) /\ is_label l = true
    /\ Forall (fun x => is_label x = true) labels /\ is_tld t = true.
Proof.
  unfold is_domain_name. intros H.
  destruct (is_domain_inv _ H) as (l & labels & t & Heq & Hl & Hlabels & Ht).
  exists l, labels, t. rewrite <- Heq, concat_split. repeat split; assumption.
Qed.

(** A domain name holds no separator and no slash. *)
Lemma domain_name_chars (p : ascii -> bool) (d : string) :
  (forall c, is_label_char c = true -> p c = true) -> p "."%char = true ->
  is_domain_name d = true -> all_of p d = true.
Proof.
  intros Hp Hdot H.
  destruct (domain_name_inv d H) as (l & labels & t & -> & Hl & Hlabels & Ht).
  apply all_of_concat; [exact Hdot|]. apply Forall_cons. split.
  - exact (all_of_weaken _ _ l Hp (label_chars l Hl)).
  - apply Forall_app. split.
    + eapply List.Forall_impl; [|exact Hlabels]. intros x Hx.
      exact (all_of_weaken _ _ x Hp (label_chars x Hx)).
    + apply Forall_cons. split; [|constructor].
      exact (all_of_weaken _ _ t Hp (tld_chars t Ht)).
Qed.

Lemma prefixes_spec (s d : string) :
  In d (prefixes s) <-> exists rest, s = d +:+ rest.
Proof.
  revert d. induction s as [|c s IH]; intros d; cbn [prefixes].
  - split.
    + intros [<- | []]. exists EmptyString. reflexivity.
    + intros [rest Hrest]. left. destruct d; [reflexivity | discriminate Hrest].
  - split.
    + intros [<- | Hin].
      * exists (String c s). reflexivity.
      * apply in_map_iff in Hin as (d' & <- & Hin). apply IH in Hin as [rest ->].
        exists rest. reflexivity.
    + intros [rest Hrest]. destruct d as [|c' d]; [left; reflexivity|].
      right. rewrite append_cons in Hrest. injection Hrest as <- ->.
      apply in_map_iff. exists d. split; [reflexivity|]. apply IH. exists rest. reflexivity.
Qed.

End Domain_names.

(** ** What the parts of the patterns denote *)

Section Shapes.

Lemma denotes_chr (a : ascii) (prev : option ascii) (s : string) (p' : option ascii)
    (s' : string) :
  denotes (RegExp.chr a) prev s p' s' <-> s = String a s' /\ p' = Some a.
Proof.
  unfold RegExp.chr. cbn [denotes]. split.
  - intros (c & -> & Hc & ->). apply Ascii.eqb_eq in Hc as ->. split; reflexivity.
  - intros [-> ->]. exists a. repeat split. apply Ascii.eqb_refl.
Qed.

Lemma denotes_lit_i_inv (l : string) :
  all_of is_lower l = true -> l <> EmptyString ->
  forall prev s p' s', denotes (RegExp.lit_i l) prev s p' s' -> starts_ci l s = Some s'.
Proof.
  induction l as [|a l IH]; intros Hl Hne; [contradiction|].
  cbn [all_of] in Hl. apply andb_true_iff in Hl as [Ha Hl].
  intros prev s p' s'. destruct l as [|b l].
  - cbn [RegExp.lit_i]. unfold RegExp.chr_i. cbn [denotes starts_ci].
    intros (c & -> & Hc & _). rewrite (chr_i_ci a c Ha) in Hc. rewrite Hc. reflexivity.
  - change (RegExp.lit_i (String a (String b l)))
      with (RegExp.Seq (RegExp.chr_i a) (RegExp.lit_i (String b l))).
    cbn [denotes]. intros (p1 & s1 & H1 & H2).
    unfold RegExp.chr_i in H1. cbn [denotes] in H1. destruct H1 as (c & -> & Hc & _).
    rewrite (chr_i_ci a c Ha) in Hc.
    change (starts_ci (String a (String b l)) (String c s1))
      with (if Ascii.eqb (lower_char c) a then starts_ci (String b l) s1 else None).
    rewrite Hc. exact (IH Hl ltac:(discriminate) _ _ _ _ H2).
Qed.

Lemma denotes_lit_i_intro (l : string) :
  all_of is_lower l = true -> l <> EmptyString ->
  forall prev s s', starts_ci l s = Some s' ->
    exists p', denotes (RegExp.lit_i l) prev s p' s'.
Proof.
  induction l as [|a l IH]; intros Hl Hne; [contradiction|].
  cbn [all_of] in Hl. apply andb_true_iff in Hl as [Ha Hl].
  intros prev s s'. destruct l as [|b l].
  - cbn [RegExp.lit_i]. unfold RegExp.chr_i. cbn [denotes starts_ci].
    destruct s as [|c s]; [discriminate|].
    destruct (Ascii.eqb (lower_char c) a) eqn:Hc; [|discriminate].
    intros [= ->]. exists (Some c), c. repeat split. rewrite (chr_i_ci a c Ha). exact Hc.
  - change (RegExp.lit_i (String a (String b l)))
      with (RegExp.Seq (RegExp.chr_i a) (RegExp.lit_i (String b l))).
    change (starts_ci (String a (String b l)) s)
      with (match s with
            | String c s1 =>
                if Ascii.eqb (lower_char c) a then starts_ci (String b l) s1 else None
            | EmptyString => None
            end).
    destruct s as [|c s]; [discriminate|].
    destruct (Ascii.eqb (lower_char c) a) eqn:Hc; [|discriminate].
    intros H. destruct (IH Hl ltac:(discriminate) (Some c) s s' H) as [p' Hd].
    exists p'. cbn [denotes]. exists (Some c), s. split; [|exact Hd].
    unfold RegExp.chr_i. cbn [denotes]. exists c. repeat split.
    rewrite (chr_i_ci a c Ha). exact Hc.
Qed.

(** A text that starts with [l] is a prefix like [l], in any case, and the
    rest. *)
Lemma starts_ci_prefix (p : ascii -> bool) (l s rest : string) :
  (forall c, p (lower_char c) = true -> p c = true) ->
  all_of p l = true -> starts_ci l s = Some rest ->
  exists w, s = w +:+ rest /\ all_of p w = true /\ starts_ci l w = Some EmptyString.
Proof.
  intros Hp. revert s. induction l as [|a l IH]; intros s Hl; cbn [starts_ci].
  - intros [= ->]. exists EmptyString. repeat split.
  - cbn [all_of] in Hl. apply andb_true_iff in Hl as [Ha Hl].
    destruct s as [|c s]; [discriminate|].
    destruct (Ascii.eqb_spec (lower_char c) a) as [Hc | _]; [|discriminate].
    intros H. destruct (IH s Hl H) as (w & -> & Hw & Hstart).
    exists (String c w). split; [reflexivity|]. split.
    + cbn [all_of]. rewrite Hw, Hp by (rewrite Hc; exact Ha). reflexivity.
    + cbn [starts_ci]. rewrite Hc, Ascii.eqb_refl. exact Hstart.
Qed.

Lemma starts_ci_append (l s rest x : string) :
  starts_ci l s = Some rest -> starts_ci l (s +:+ x) = Some (rest +:+ x).
Proof.
  revert s. induction l as [|a l IH]; intros s; cbn [starts_ci].
  - intros [= ->]. reflexivity.
  - destruct s as [|c s]; [discriminate|]. rewrite append_cons.
    destruct (Ascii.eqb (lower_char c) a); [apply IH | discriminate].
Qed.

Lemma lower_non_separator (c : ascii) :
  non_separator (lower_char c) = true -> non_separator c = true.
Proof. destruct c as [[] [] [] [] [] [] [] []]; intros H; try discriminate H; reflexivity. Qed.

Lemma iter_chr_inv (p : ascii -> bool) (prev : option ascii) (s : string)
    (p' : option ascii) (s' : string) :
  iter (denotes (RegExp.Chr p)) prev s p' s' ->
  exists u, s = u +:+ s' /\ all_of p u = true.
Proof.
  induction 1 as [prev s | prev s p1 s1 p2 s2 HR Hlt Hiter IH].
  - exists EmptyString. split; reflexivity.
  - cbn [denotes] in HR. destruct HR as (c & -> & Hc & _).
    destruct IH as (u & -> & Hu). exists (String c u). split; [reflexivity|].
    cbn [all_of]. rewrite Hc, Hu. reflexivity.
Qed.

Lemma iter_chr_intro (p : ascii -> bool) (u : string) :
  all_of p u = true ->
  forall prev s', exists p', iter (denotes (RegExp.Chr p)) prev (u +:+ s') p' s'.
Proof.
  induction u as [|c u IH]; intros Hu prev s'.
  - exists prev. constructor.
  - cbn [all_of] in Hu. apply andb_true_iff in Hu as [Hc Hu].
    destruct (IH Hu (Some c) s') as [p' Hiter]. exists p'. rewrite append_cons.
    apply (iter_step _ prev _ (Some c) (u +:+ s') p' s'); [|simpl; lia | exact Hiter].
    cbn [denotes]. exists c. repeat split. exact Hc.
Qed.

Lemma last_unit_app (c : ascii) (u : string) (c' : ascii) (v : string) :
  last_unit c (u +:+ String c' v) = last_unit c' v.
Proof.
  revert c. induction u as [|a u IH]; intros c; [reflexivity|].
  rewrite append_cons. cbn [last_unit]. apply IH.
Qed.

Lemma string_snoc (c : ascii) (l : string) :
  exists u c', String c l = u +:+ String c' EmptyString.
Proof.
  revert c. induction l as [|a l IH]; intros c.
  - exists EmptyString, c. reflexivity.
  - destruct (IH a) as (u & c' & Heq). exists (String c u), c'.
    rewrite append_cons, <- Heq. reflexivity.
Qed.

(** The label pattern denotes the labels. *)
Lemma label_inv (prev : option ascii) (s : string) (p' : option ascii) (s' : string) :
  denotes label_re prev s p' s' -> exists l, s = l +:+ s' /\ is_label l = true.
Proof.
  unfold label_re, RegExp.opt. cbn [denotes].
  intros (p1 & s1 & (c & -> & Hc & _) & [Hmore | [_ ->]]).
  - destruct Hmore as (p2 & s2 & Hiter & (c' & -> & Hc' & _)).
    apply iter_chr_inv in Hiter as (u & -> & Hu).
    exists (String c (u +:+ String c' EmptyString)). split.
    + rewrite append_cons, append_assoc. reflexivity.
    + cbn [is_label]. rewrite Hc, all_of_app, Hu, last_unit_app. cbn [all_of last_unit].
      rewrite (alnum_label_char c' Hc'), Hc'. reflexivity.
  - exists (String c EmptyString). split; [reflexivity|].
    cbn [is_label all_of last_unit]. rewrite Hc. reflexivity.
Qed.

Lemma label_intro (l : string) :
  is_label l = true ->
  forall prev s', exists p', denotes label_re prev (l +:+ s') p' s'.
Proof.
  destruct l as [|c l]; [discriminate|]. cbn [is_label]. intros H prev s'.
  apply andb_true_iff in H as [H Hlast]. apply andb_true_iff in H as [Hc Hl].
  unfold label_re, RegExp.opt. cbn [denotes]. rewrite append_cons.
  destruct l as [|c2 l].
  - exists (Some c), (Some c), s'. split; [|right; split; reflexivity].
    exists c. repeat split. exact Hc.
  - destruct (string_snoc c2 l) as (u & cl & Heq). rewrite Heq in Hl, Hlast |- *.
    rewrite last_unit_app in Hlast. cbn [last_unit] in Hlast.
    rewrite all_of_app in Hl. apply andb_true_iff in Hl as [Hu _].
    destruct (iter_chr_intro is_label_char u Hu (Some c) (String cl s')) as [p2 Hiter].
    exists (Some cl), (Some c), (u +:+ String cl s'). split.
    + exists c. rewrite append_assoc. repeat split. exact Hc.
    + left. exists p2, (String cl s'). split; [exact Hiter|].
      exists cl. repeat split. exact Hlast.
Qed.

(** [[a-z]{2,}] denotes the top-level domains. *)
Lemma tld_inv (prev : option ascii) (s : string) (p' : option ascii) (s' : string) :
  denotes (RegExp.two_or_more (RegExp.Chr is_alpha)) prev s p' s' ->
  exists t, s = t +:+ s' /\ is_tld t = true.
Proof.
  unfold RegExp.two_or_more. cbn [denotes].
  intros (p1 & s1 & (c1 & -> & Hc1 & _) & p2 & s2 & (c2 & -> & Hc2 & _) & Hiter).
  apply iter_chr_inv in Hiter as (u & -> & Hu).
  exists (String c1 (String c2 u)). split; [reflexivity|].
  unfold is_tld. cbn [all_of String.length]. rewrite Hc1, Hc2, Hu. reflexivity.
Qed.

Lemma tld_intro (t : string) :
  is_tld t = true ->
  forall prev s',
    exists p', denotes (RegExp.two_or_more (RegExp.Chr is_alpha)) prev (t +:+ s') p' s'.
Proof.
  unfold is_tld. intros H prev s'. apply andb_true_iff in H as [Hlen Ht].
  destruct t as [|c1 [|c2 u]]; try discriminate Hlen.
  cbn [all_of] in Ht. apply andb_true_iff in Ht as [Hc1 Ht].
  apply andb_true_iff in Ht as [Hc2 Hu].
  destruct (iter_chr_intro is_alpha u Hu (Some c2) s') as [p' Hiter].
  exists p'. unfold RegExp.two_or_more. cbn [denotes]. rewrite !append_cons.
  exists (Some c1), (String c2 (u +:+ s')). split; [exists c1; repeat split; exact Hc1|].
  exists (Some c2), (u +:+ s'). split; [exists c2; repeat split; exact Hc2 | exact Hiter].
Qed.

(** [(\.label)*] *)
Lemma dot_labels_inv (prev : option ascii) (s : string) (p' : option ascii)
    (s' : string) :
  iter (denotes (RegExp.Seq (RegExp.chr ".") label_re)) prev s p' s' ->
  exists labels,
    Forall (fun x => is_label x = true) labels
    /\ s = List.fold_right (fun x acc => String "." (x +:+ acc)) s' labels.
Proof.
  induction 1 as [prev s | prev s p1 s1 p2 s2 HR Hlt Hiter IH].
  - exists []. split; [constructor | reflexivity].
  - cbn [denotes] in HR. destruct HR as (p0 & s0 & Hdot & Hlabel).
    apply denotes_chr in Hdot as [-> _].
    apply label_inv in Hlabel as (l & -> & Hl).
    destruct IH as (labels & Hlabels & ->).
    exists (l :: labels). split; [constructor; assumption | reflexivity].
Qed.

Lemma dot_labels_intro (labels : list string) :
  Forall (fun x => is_label x = true) labels ->
  forall prev s',
    exists p',
      iter (denotes (RegExp.Seq (RegExp.chr ".") label_re)) prev
        (List.fold_right (fun x acc => String "." (x +:+ acc)) s' labels) p' s'.
Proof.
  induction 1 as [|l labels Hl Hlabels IH]; intros prev s'.
  - exists prev. constructor.
  - cbn [List.fold_right].
    set (acc := List.fold_right (fun x acc => String "." (x +:+ acc)) s' labels).
    destruct (label_intro l Hl (Some "."%char) acc) as [p1 Hlabel].
    destruct (IH p1 s') as [p' Hiter]. exists p'.
    apply (iter_step _ prev _ p1 acc p' s'); [| |exact Hiter].
    + cbn [denotes]. exists (Some "."%char), (l +:+ acc).
      split; [apply denotes_chr; split; reflexivity | exact Hlabel].
    + cbn [String.length]. rewrite length_append. lia.
Qed.

(** [(label\.)*] *)
Lemma label_dots_inv (prev : option ascii) (s : string) (p' : option ascii)
    (s' : string) :
  iter (denotes (RegExp.Seq label_re (RegExp.chr "."))) prev s p' s' ->
  exists labels,
    Forall (fun x => is_label x = true) labels
    /\ s = List.fold_right (fun x acc => x +:+ String "." acc) s' labels.
Proof.
  induction 1 as [prev s | prev s p1 s1 p2 s2 HR Hlt Hiter IH].
  - exists []. split; [constructor | reflexivity].
  - cbn [denotes] in HR. destruct HR as (p0 & s0 & Hlabel & Hdot).
    apply denotes_chr in Hdot as [-> _].
    apply label_inv in Hlabel as (l & -> & Hl).
    destruct IH as (labels & Hlabels & ->).
    exists (l :: labels). split; [constructor; assumption | reflexivity].
Qed.

Lemma label_dots_intro (labels : list string) :
  Forall (fun x => is_label x = true) labels ->
  forall prev s',
    exists p',
      iter (denotes (RegExp.Seq label_re (RegExp.chr "."))) prev
        (List.fold_right (fun x acc => x +:+ String "." acc) s' labels) p' s'.
Proof.
  induction 1 as [|l labels Hl Hlabels IH]; intros prev s'.
  - exists prev. constructor.
  - cbn [List.fold_right].
    set (acc := List.fold_right (fun x acc => x +:+ String "." acc) s' labels).
    destruct (label_intro l Hl prev (String "." acc)) as [p1 Hlabel].
    destruct (IH (Some "."%char) s') as [p' Hiter]. exists p'.
    apply (iter_step _ prev _ (Some "."%char) acc p' s'); [| |exact Hiter].
    + cbn [denotes]. exists p1, (String "." acc).
      split; [exact Hlabel | apply denotes_chr; split; reflexivity].
    + rewrite length_append. cbn [String.length]. lia.
Qed.

End Shapes.

(** ** [www.] domains *)

Section Www_domains.

Lemma lower_word (c : ascii) :
  is_lower (lower_char c) = true -> RegExp.is_word c = true.
Proof.
  intros H. apply lower_alpha in H. unfold RegExp.is_word, is_alnum. rewrite H. reflexivity.
Qed.

Lemma starts_www_word (s rest : string) :
  starts_ci "www" s = Some rest -> RegExp.word_at (RegExp.head s) = true.
Proof.
  destruct s as [|c s]; [discriminate|]. cbn [starts_ci RegExp.head RegExp.word_at].
  destruct (Ascii.eqb_spec (lower_char c) "w") as [Hc | _]; [|discriminate].
  intros _. apply lower_word. rewrite Hc. reflexivity.
Qed.

(** What the [www.] pattern denotes up to the end of the domain name. *)
Lemma www_head_inv (prev : option ascii) (s : string) (p' : option ascii) (s' : string) :
  denotes www_head prev s p' s' ->
  RegExp.word_at prev = false
  /\ exists d, s = d +:+ s' /\ is_www_domain d = true
               /\ all_of non_separator d = true.
Proof.
  unfold www_head. cbn [RegExp.seqs denotes].
  intros (p1 & s1 & (Hb & -> & ->) & p2 & s2 & Hwww & p3 & s3 & Hdot1 & p4 & s4 & Hl
          & p5 & s5 & Hlabels & p6 & s6 & Hdot2 & Htld).
  apply (denotes_lit_i_inv "www" eq_refl ltac:(discriminate)) in Hwww.
  apply denotes_chr in Hdot1 as [-> _]. apply label_inv in Hl as (l & -> & Hl).
  apply dot_labels_inv in Hlabels as (labels & Hlabels & ->).
  apply denotes_chr in Hdot2 as [-> _]. apply tld_inv in Htld as (t & -> & Ht).
  rewrite dotted_concat in Hwww.
  pose proof (domain_name_intro l labels t Hl Hlabels Ht) as Hname.
  set (name := String.concat "." (l :: labels ++ [t])) in *.
  split.
  - rewrite (starts_www_word _ _ Hwww) in Hb. destruct (RegExp.word_at prev);
      [discriminate Hb | reflexivity].
  - destruct (starts_ci_prefix non_separator "www" s _ lower_non_separator eq_refl Hwww)
      as (w & Hs & Hw & Hstart).
    exists (w +:+ String "." name). split; [|split].
    + rewrite Hs, append_assoc. reflexivity.
    + unfold is_www_domain. change "www." with ("www" +:+ ".").
      rewrite starts_ci_app, (starts_ci_append _ _ _ (String "." name) Hstart).
      exact Hname.
    + rewrite all_of_app, Hw. cbn [all_of andb].
      change (non_separator ".") with true. cbn [andb].
      exact (domain_name_chars non_separator name label_char_non_separator eq_refl Hname).
Qed.

Lemma www_head_intro (prev : option ascii) (d s' : string) :
  RegExp.word_at prev = false -> is_www_domain d = true ->
  exists p', denotes www_head prev (d +:+ s') p' s'.
Proof.
  intros Hprev. unfold is_www_domain. change "www." with ("www" +:+ ".").
  rewrite starts_ci_app.
  destruct (starts_ci "www" d) as [s1|] eqn:Hwww; [|discriminate].
  cbn [starts_ci]. destruct s1 as [|c name]; [discriminate|].
  rewrite lower_char_dot. destruct (Ascii.eqb_spec "." c) as [<- | _]; [|discriminate].
  intros Hname.
  destruct (domain_name_inv name Hname) as (l & labels & t & Heq & Hl & Hlabels & Ht).
  apply (starts_ci_append _ _ _ s') in Hwww. rewrite append_cons in Hwww.
  rewrite Heq, <- dotted_concat in Hwww.
  set (tail := String "." (t +:+ s')) in *.
  set (more := List.fold_right (fun x acc => String "." (x +:+ acc)) tail labels) in *.
  destruct (denotes_lit_i_intro "www" eq_refl ltac:(discriminate) prev _ _ Hwww)
    as [p2 Hd2].
  destruct (label_intro l Hl (Some "."%char) more) as [p4 Hd4].
  destruct (dot_labels_intro labels Hlabels p4 tail) as [p5 Hd5].
  destruct (tld_intro t Ht (Some "."%char) s') as [p' Hd7].
  exists p'. unfold www_head. cbn [RegExp.seqs denotes].
  exists prev, (d +:+ s'). split.
  { split; [|split; reflexivity].
    rewrite Hprev, (starts_www_word _ _ Hwww). reflexivity. }
  exists p2, (String "." (l +:+ more)). split; [exact Hd2|].
  exists (Some "."%char), (l +:+ more). split; [apply denotes_chr; split; reflexivity|].
  exists p4, more. split; [exact Hd4|].
  exists p5, tail. split; [exact Hd5|].
  exists (Some "."%char), (t +:+ s'). split; [apply denotes_chr; split; reflexivity|].
  exact Hd7.
Qed.

(** The [www.] pattern matches what the plain description says. *)
Lemma www_pattern (prev : option ascii) (s : string) :
  rest_after wwwPattern prev s = www_rest prev s.
Proof.
  set (Kt := fun (cs : RegExp.captures) (p : option ascii) (s' : string) =>
               RegExp.run (RegExp.Star (RegExp.Chr is_url_char)) cs p s'
                 (fun _ _ s'' => Some s'')).
  change (rest_after wwwPattern prev s) with (RegExp.run www_head [] prev s Kt).
  assert (HKt : forall cs p s', Kt cs p s' = Some (drop_while non_separator s')).
  { intros cs p s'. unfold Kt. rewrite run_star_chr.
    rewrite <- (after_longest_run_all non_separator p s').
    apply after_longest_run_ext; [apply is_url_char_non_separator | reflexivity]. }
  assert (Hend : forall p' s', denotes www_head prev s p' s' ->
                   drop_while non_separator s' = drop_while non_separator s).
  { intros p' s' Hd. apply www_head_inv in Hd as (_ & d & Hs & _ & Hd).
    rewrite Hs. symmetry. apply drop_while_app, Hd. }
  unfold www_rest.
  destruct (negb (RegExp.word_at prev)
            && existsb is_www_domain (prefixes (take_while non_separator s))) eqn:Hcond.
  - apply andb_true_iff in Hcond as [Hprev Hsome]. apply negb_true_iff in Hprev.
    apply existsb_exists in Hsome as (d & Hin & Hd).
    apply prefixes_spec in Hin as [more Hmore].
    pose proof (take_drop_while non_separator s) as Hs. rewrite Hmore, append_assoc in Hs.
    destruct (www_head_intro prev d (more +:+ drop_while non_separator s) Hprev Hd)
      as [p' Hdenotes].
    rewrite <- Hs in Hdenotes.
    apply (run_const www_head [] prev s Kt (drop_while non_separator s) p'
             (more +:+ drop_while non_separator s)); [|exact Hdenotes].
    intros p'' s'' cs' Hd''. rewrite HKt, (Hend _ _ Hd''). reflexivity.
  - apply run_all_none. intros p' s' cs' Hd. exfalso.
    apply www_head_inv in Hd as (Hprev & d & Hs & Hwww & Hd).
    rewrite Hprev in Hcond. cbn [negb andb] in Hcond.
    assert (Hsome : existsb is_www_domain (prefixes (take_while non_separator s)) = true).
    { apply existsb_exists. exists d. split; [|exact Hwww].
      apply prefixes_spec. exists (take_while non_separator s').
      rewrite Hs at 1. apply take_while_app, Hd. }
    rewrite Hsome in Hcond. discriminate Hcond.
Qed.

Lemma www_shorter (prev : option ascii) (s rest : string) :
  www_rest prev s = Some rest -> (String.length rest < String.length s)%nat.
Proof.
  unfold www_rest.
  destruct (negb (RegExp.word_at prev)
            && existsb is_www_domain (prefixes (take_while non_separator s))) eqn:Hcond;
    [|discriminate].
  intros [= <-]. apply andb_true_iff in Hcond as [_ Hsome].
  apply existsb_exists in Hsome as (d & Hin & Hd).
  apply prefixes_spec in Hin as [more Hmore].
  pose proof (take_drop_while non_separator s) as Hs.
  assert (Hlen : (0 < String.length d)%nat).
  { unfold is_www_domain in Hd. destruct d; [discriminate Hd | simpl; lia]. }
  rewrite Hs at 2. rewrite Hmore, !length_append. lia.
Qed.

End Www_domains.

(** ** Bare domains with a path to a file *)

Section Bare_domains.

Lemma run_same {A : Type} (r : RegExp.regex) (cs : RegExp.captures)
    (prev : option ascii) (s : string) (k : RegExp.cont A) (v : option A)
    (p0 : option ascii) (s0 : string) :
  (forall p' s' cs', denotes r prev s p' s' -> k cs' p' s' = v) ->
  denotes r prev s p0 s0 ->
  RegExp.run r cs prev s k = v.
Proof.
  intros Hk Hd. destruct v as [a|].
  - exact (run_const r cs prev s k a p0 s0 Hk Hd).
  - exact (run_all_none r cs prev s k Hk).
Qed.

(** An extension and a word boundary. *)
Lemma run_extension (x : string) (cs : RegExp.captures) (prev : option ascii)
    (t : string) :
  all_of is_lower x = true -> x <> EmptyString ->
  RegExp.run (RegExp.lit_i x) cs prev t
    (fun cs' p' s' => RegExp.run RegExp.WordB cs' p' s' (fun _ _ s'' => Some s''))
  = extension_end x t.
Proof.
  intros Hx Hne. unfold extension_end.
  pose proof (run_lit_i x Hx Hne cs prev t
                (fun cs' p' s' =>
                   RegExp.run RegExp.WordB cs' p' s' (fun _ _ s'' => Some s''))) as Hrun.
  destruct (starts_ci x t) as [rest|]; [|exact Hrun].
  destruct Hrun as (c & Hc & ->). cbn [RegExp.run RegExp.word_at].
  unfold RegExp.is_word, is_alnum. rewrite Hc. cbn [orb xorb].
  destruct (RegExp.word_at (RegExp.head rest)); reflexivity.
Qed.

(** [jpe?g] and a word boundary: [jpeg], or else [jpg]. *)
Lemma run_jpeg (cs : RegExp.captures) (prev : option ascii) (t : string) :
  RegExp.run (RegExp.seqs [RegExp.lit_i "jp"; RegExp.opt (RegExp.chr_i "e");
                           RegExp.chr_i "g"]) cs prev t
    (fun cs' p' s' => RegExp.run RegExp.WordB cs' p' s' (fun _ _ s'' => Some s''))
  = match extension_end "jpeg" t with
    | Some rest => Some rest
    | None => extension_end "jpg" t
    end.
Proof.
  unfold extension_end.
  change "jpeg" with ("jp" +:+ "eg"). change "jpg" with ("jp" +:+ "g").
  rewrite !starts_ci_app. cbn [RegExp.seqs RegExp.run].
  match goal with
  | |- RegExp.run (RegExp.lit_i "jp") cs prev t ?k = _ =>
      pose proof (run_lit_i "jp" eq_refl ltac:(discriminate) cs prev t k) as Hjp
  end.
  destruct (starts_ci "jp" t) as [t1|]; [|exact Hjp].
  destruct Hjp as (c & _ & ->). unfold RegExp.opt. cbn [RegExp.run].
  assert (Hg : forall p u,
             RegExp.run (RegExp.chr_i "g") cs p u
               (fun cs' p' s' =>
                  RegExp.run RegExp.WordB cs' p' s' (fun _ _ s'' => Some s''))
             = match starts_ci "g" u with
               | Some rest =>
                   if RegExp.word_at (RegExp.head rest) then None else Some rest
               | None => None
               end).
  { intros p u. exact (run_extension "g" cs p u eq_refl ltac:(discriminate)). }
  rewrite (run_chr_i "e" cs (Some c) t1 _ eq_refl), Hg.
  change (starts_ci "eg" t1)
    with (match t1 with
          | String c1 t2 =>
              if Ascii.eqb (lower_char c1) "e" then starts_ci "g" t2 else None
          | EmptyString => None
          end).
  destruct t1 as [|c1 t2]; [reflexivity|]. rewrite Hg.
  destruct (Ascii.eqb (lower_char c1) "e"); [|reflexivity].
  destruct (starts_ci "g" t2) as [rest|]; [|reflexivity].
  destruct (RegExp.word_at (RegExp.head rest)); reflexivity.
Qed.

(** A dot, one of the extensions and a word boundary. *)
Lemma run_dot_extension (cs : RegExp.captures) (prev : option ascii) (s : string) :
  RegExp.run (RegExp.chr ".") cs prev s
    (fun cs3 p3 s3 =>
       RegExp.run (RegExp.alts (RegExp.lit_i "pdf" :: image_ext_re)) cs3 p3 s3
         (fun cs4 p4 s4 => RegExp.run RegExp.WordB cs4 p4 s4 (fun _ _ s' => Some s')))
  = extension_rest s.
Proof.
  rewrite run_chr. unfold extension_rest. destruct s as [|c t]; [reflexivity|].
  rewrite (Ascii.eqb_sym c). destruct (Ascii.eqb "." c); [|reflexivity].
  unfold image_ext_re, extensions. cbn [RegExp.alts RegExp.run first_extension].
  rewrite run_jpeg.
  rewrite !run_extension by (reflexivity || discriminate).
  destruct (extension_end "pdf" t); [reflexivity|].
  destruct (extension_end "png" t); [reflexivity|].
  destruct (extension_end "jpeg" t); [reflexivity|].
  destruct (extension_end "jpg" t); [reflexivity|].
  destruct (extension_end "avif" t); [reflexivity|].
  destruct (extension_end "webp" t); [reflexivity|].
  destruct (extension_end "gif" t); reflexivity.
Qed.

Lemma label_char_not_slash (c : ascii) : is_label_char c = true -> not_slash c = true.
Proof. destruct c as [[] [] [] [] [] [] [] []]; intros H; try discriminate H; reflexivity. Qed.

Lemma label_head_word (l s : string) :
  is_label l = true -> RegExp.word_at (RegExp.head (l +:+ s)) = true.
Proof.
  destruct l as [|c l]; [discriminate|]. cbn [is_label]. intros H.
  apply andb_true_iff in H as [H _]. apply andb_true_iff in H as [Hc _].
  rewrite append_cons. cbn [RegExp.head RegExp.word_at]. unfold RegExp.is_word.
  rewrite Hc. reflexivity.
Qed.

(** What the bare-domain pattern denotes up to the slash. *)
Lemma bare_head_inv (prev : option ascii) (s : string) (p' : option ascii) (s' : string) :
  denotes bare_head prev s p' s' ->
  RegExp.word_at prev = false
  /\ exists host, s = host +:+ String "/" s' /\ is_domain_name host = true.
Proof.
  unfold bare_head, RegExp.plus. cbn [RegExp.seqs denotes].
  intros (p1 & s1 & (Hb & -> & ->) & p2 & s2
          & (p3 & s3 & (p4 & s4 & Hl & Hdot) & Hlabels) & p5 & s5 & Htld & Hslash).
  apply label_inv in Hl as (l & Hs & Hl). apply denotes_chr in Hdot as [-> _].
  apply label_dots_inv in Hlabels as (labels & Hlabels & ->).
  apply tld_inv in Htld as (t & -> & Ht). apply denotes_chr in Hslash as [-> _].
  rewrite Hs, (label_head_word l _ Hl) in Hb.
  rewrite dots_concat in Hs. split.
  - destruct (RegExp.word_at prev); [discriminate Hb | reflexivity].
  - exists (String.concat "." (l :: labels ++ [t])). split; [exact Hs|].
    apply domain_name_intro; assumption.
Qed.

Lemma bare_head_intro (prev : option ascii) (host s' : string) :
  RegExp.word_at prev = false -> is_domain_name host = true ->
  exists p', denotes bare_head prev (host +:+ String "/" s') p' s'.
Proof.
  intros Hprev Hhost.
  destruct (domain_name_inv host Hhost) as (l & labels & t & -> & Hl & Hlabels & Ht).
  rewrite <- dots_concat.
  set (tail := t +:+ String "/" s').
  set (more := List.fold_right (fun x acc => x +:+ String "." acc) tail labels).
  destruct (label_intro l Hl prev (String "." more)) as [p4 Hd4].
  destruct (label_dots_intro labels Hlabels (Some "."%char) tail) as [p2 Hd2].
  destruct (tld_intro t Ht p2 (String "/" s')) as [p5 Hd5].
  exists (Some "/"%char). unfold bare_head, RegExp.plus. cbn [RegExp.seqs denotes].
  exists prev, (l +:+ String "." more). split.
  { split; [|split; reflexivity].
    rewrite Hprev, (label_head_word l _ Hl). reflexivity. }
  exists p2, tail. split.
  { exists (Some "."%char), more. split; [|exact Hd2].
    exists p4, (String "." more). split; [exact Hd4 | apply denotes_chr; split; reflexivity]. }
  exists p5, (String "/" s'). split; [exact Hd5 | apply denotes_chr; split; reflexivity].
Qed.

Lemma drop_while_stops (p : ascii -> bool) (s : string) :
  stops p (drop_while p s) = true.
Proof.
  induction s as [|c s IH]; cbn [drop_while]; [reflexivity|].
  destruct (p c) eqn:Hc; [exact IH|]. cbn [stops]. rewrite Hc. reflexivity.
Qed.

(** The bare-domain pattern matches what the plain description says. *)
Lemma bare_pattern (prev : option ascii) (s : string) :
  rest_after domainPattern prev s = bare_rest prev s.
Proof.
  set (Kb := fun (cs : RegExp.captures) (p : option ascii) (s1 : string) =>
               RegExp.run (RegExp.plus (RegExp.Chr is_url_char)) cs p s1
                 (fun cs2 p2 s2 =>
                    RegExp.run (RegExp.chr ".") cs2 p2 s2
                      (fun cs3 p3 s3 =>
                         RegExp.run (RegExp.alts (RegExp.lit_i "pdf" :: image_ext_re))
                           cs3 p3 s3
                           (fun cs4 p4 s4 =>
                              RegExp.run RegExp.WordB cs4 p4 s4
                                (fun _ _ s' => Some s'))))).
  change (rest_after domainPattern prev s) with (RegExp.run bare_head [] prev s Kb).
  assert (HKb : forall cs p s1,
             Kb cs p s1
             = match s1 with
               | String c path =>
                   if non_separator c
                   then after_longest_run non_separator (fun _ => extension_rest)
                          (Some c) path
                   else None
               | EmptyString => None
               end).
  { intros cs p s1. unfold Kb. rewrite run_plus_chr. destruct s1 as [|c path]; [reflexivity|].
    rewrite is_url_char_non_separator. destruct (non_separator c); [|reflexivity].
    apply after_longest_run_ext; [apply is_url_char_non_separator|].
    intros p2 s2. apply run_dot_extension. }
  assert (Hends : forall p' s', denotes bare_head prev s p' s' ->
                    RegExp.word_at prev = false
                    /\ is_domain_name (take_while not_slash s) = true
                    /\ drop_while not_slash s = String "/" s').
  { intros p' s' Hd. apply bare_head_inv in Hd as (Hprev & host & -> & Hhost).
    pose proof (domain_name_chars not_slash host label_char_not_slash eq_refl Hhost)
      as Hchars.
    split; [exact Hprev|]. split.
    - rewrite take_while_stops by (exact Hchars || reflexivity). exact Hhost.
    - rewrite drop_while_app by exact Hchars. reflexivity. }
  unfold bare_rest.
  destruct (drop_while not_slash s) as [|x s1] eqn:Htail.
  { apply run_all_none. intros p' s' cs' Hd.
    apply Hends in Hd as (_ & _ & Hd). discriminate Hd. }
  destruct (negb (RegExp.word_at prev) && is_domain_name (take_while not_slash s))
    eqn:Hcond.
  - apply andb_true_iff in Hcond as [Hprev Hhost]. apply negb_true_iff in Hprev.
    assert (Hx : x = "/"%char).
    { pose proof (drop_while_stops not_slash s) as Hstop. rewrite Htail in Hstop.
      cbn [stops] in Hstop. unfold not_slash in Hstop. rewrite negb_involutive in Hstop.
      apply Ascii.eqb_eq in Hstop. exact Hstop. }
    subst x.
    destruct (bare_head_intro prev (take_while not_slash s) s1 Hprev Hhost) as [p0 Hd0].
    rewrite <- Htail, <- take_drop_while in Hd0.
    assert (Hk : forall p' s' cs', denotes bare_head prev s p' s' ->
                   Kb cs' p' s' = Kb [] None s1).
    { intros p' s' cs' Hd. apply Hends in Hd as (_ & _ & Hd).
      injection Hd as <-. rewrite !HKb. reflexivity. }
    rewrite (run_same bare_head [] prev s Kb (Kb [] None s1) p0 s1 Hk Hd0), HKb.
    destruct s1 as [|c path]; [reflexivity|].
    destruct (non_separator c); reflexivity.
  - rewrite run_all_none.
    + destruct s1 as [|c path]; reflexivity.
    + intros p' s' cs' Hd. exfalso. apply Hends in Hd as (Hprev & Hhost & _).
      rewrite Hprev, Hhost in Hcond. discriminate Hcond.
Qed.

Lemma after_longest_run_length (p : ascii -> bool)
    (f : option ascii -> string -> option string) :
  (forall prev s rest, f prev s = Some rest ->
     (String.length rest <= String.length s)%nat) ->
  forall s prev rest,
    after_longest_run p f prev s = Some rest ->
    (String.length rest <= String.length s)%nat.
Proof.
  intros Hf. induction s as [|c s IH]; intros prev rest; cbn [after_longest_run].
  - apply Hf.
  - destruct (if p c then after_longest_run p f (Some c) s else None) as [r|] eqn:Hrun.
    + intros [= <-]. destruct (p c); [|discriminate Hrun].
      apply IH in Hrun. simpl. lia.
    + apply Hf.
Qed.

Lemma extension_rest_length (s rest : string) :
  extension_rest s = Some rest -> (String.length rest <= String.length s)%nat.
Proof.
  unfold extension_rest. destruct s as [|c t]; [discriminate|].
  destruct (Ascii.eqb c "."); [|discriminate].
  assert (Hend : forall x r, extension_end x t = Some r ->
                   (String.length r <= String.length t)%nat).
  { intros x r. unfold extension_end.
    destruct (starts_ci x t) as [r'|] eqn:Hx; [|discriminate].
    destruct (RegExp.word_at (RegExp.head r')); [discriminate|].
    intros [= <-]. apply starts_ci_length in Hx. lia. }
  generalize extensions. intros exts. induction exts as [|x exts IH]; [discriminate|].
  cbn [first_extension]. destruct (extension_end x t) as [r|] eqn:Hx.
  - intros [= <-]. apply Hend in Hx. simpl. lia.
  - exact IH.
Qed.

Lemma bare_shorter (prev : option ascii) (s rest : string) :
  bare_rest prev s = Some rest -> (String.length rest < String.length s)%nat.
Proof.
  unfold bare_rest. pose proof (drop_while_length not_slash s) as Hlen.
  destruct (drop_while not_slash s) as [|x [|c path]]; try discriminate.
  destruct (negb (RegExp.word_at prev) && is_domain_name (take_while not_slash s)
            && non_separator c); [|discriminate].
  intros H.
  apply (after_longest_run_length non_separator (fun _ => extension_rest)) in H.
  - simpl in Hlen. lia.
  - intros _ s' r. apply extension_rest_length.
Qed.

End Bare_domains.

(** ** The count *)

Section Count.

(** The answer of [hasMultipleUrls] in plain terms. *)
Lemma hasMultipleUrls_occurrences (input : string) :
  hasMultipleUrls input = (1 <? url_occurrences input)%nat.
Proof.
  unfold hasMultipleUrls, url_occurrences, RegExp.matchAll, RegExp.removeAll. cbv zeta.
  pose proof (scan_cut fullUrlPattern (fun _ => full_url_rest) full_url_pattern
                (fun _ => full_url_shorter) input None 0) as Hfull.
  destruct (cut (fun _ => full_url_rest) None input 0) as [full without_full].
  injection Hfull as -> ->.
  pose proof (scan_cut wwwPattern www_rest www_pattern www_shorter without_full None 0)
    as Hwww.
  destruct (cut www_rest None without_full 0) as [www without_www].
  injection Hwww as -> ->.
  pose proof (scan_cut domainPattern bare_rest bare_pattern bare_shorter without_www None 0)
    as Hbare.
  destruct (cut bare_rest None without_www 0) as [bare rest].
  injection Hbare as -> _. reflexivity.
Qed.

End Count.

(** C9. [hasMultipleUrls] answers true exactly when more than one URL-like
    occurrence is counted, where the count is described without the
    patterns of the code: the full URLs ([http://] or [https://] in any
    case and the code units up to the next whitespace, comma or semicolon),
    cut out of the text from left to right; then, in the text without
    them, the [www.] domains (at a word boundary, [www.] and a domain name,
    up to the next separator); then, in the text without either, the bare
    domains with a path to a file (at a word boundary, a domain name, a
    slash and a path up to its last extension among pdf, png, jpeg, jpg,
    avif, webp and gif that ends at a word boundary).  Occurrences of one
    kind do not overlap, each later kind is counted in the text from which
    the earlier ones are removed.  In particular,
    "see http://a.com/x.pdf and http://b.com/y.png" has several URLs and
    "http://a.com/x.pdf" has not; a [www.] domain and a bare domain count
    as well. *)
Theorem hasMultipleUrls_counts (input : string) :
  (hasMultipleUrls input = true <-> (1 < url_occurrences input)%nat)
  /\ hasMultipleUrls "see http://a.com/x.pdf and http://b.com/y.png" = true
  /\ hasMultipleUrls "http://a.com/x.pdf" = false
  /\ url_occurrences "see http://a.com/x.pdf and http://b.com/y.png" = 2%nat
  /\ url_occurrences "http://a.com/x.pdf" = 1%nat
  /\ url_occurrences "HTTPS://a.com/x.pdf, www.b.org/y; c.io/d/z.JPEG" = 3%nat
  /\ hasMultipleUrls "www.a.com c.io/z.png" = true.
Proof.
  split; [|repeat split; vm_compute; reflexivity].
  rewrite hasMultipleUrls_occurrences. apply Nat.ltb_lt.
Qed.
